(** * Interactive remote-browsing session layer (plugins/browse)

  A shallow embedding of [plugins/browse/index.ts],
  [plugins/browse/pinchtab-backend.ts] and
  [plugins/browse/playwright-backend.ts], and the properties of the
  navigation guard, the session pool, the two backends and the
  command/callback router.

  Conventions.
  - A JavaScript string is a [string]; one [ascii] stands for one code unit
    in the range 0..255, so lengths and indices are counted as the source
    counts them on such strings.
  - An [async] function is run to completion as one step; whatever the
    environment answers to a request made during that step (an HTTP
    response, the reaction of the browser engine, the clock) is an
    argument of the model. What other calls do while one is suspended at
    an [await] is outside such a step; [getSession] is therefore also
    given in the segments its [await]s cut it into, for calls that
    overlap.
  - A thrown [Error] is the [inl] of a sum.
  - What the plugin sends to the chat is recorded as an event; the chat
    platform, an outside collaborator, is taken to deliver it. *)

From Stdlib Require Import ZArith QArith Ascii String List Bool Lia.
From stdpp Require Import base option list gmap pretty.
Import ListNotations.
Local Open Scope Z_scope.

(** ** The JavaScript string and number primitives the plugin uses *)
Module JS.

Definition chars : Type := list ascii.

Definition code (c : ascii) : Z := Z.of_N (N_of_ascii c).

Definition in_range (lo hi : Z) (c : ascii) : bool :=
  (lo <=? code c) && (code c <=? hi).

Definition isDigit : ascii -> bool := in_range 48 57.
Definition isUpper : ascii -> bool := in_range 65 90.
Definition isLower : ascii -> bool := in_range 97 122.
Definition isAlpha (c : ascii) : bool := isUpper c || isLower c.

(** [\s] and the characters removed by [trim], among the code units
    0..255: TAB, LF, VT, FF, CR, SPACE and NBSP. *)
Definition isWhiteSpace (c : ascii) : bool :=
  in_range 9 13 c || (code c =? 32) || (code c =? 160).

(** [String.prototype.toLowerCase], one code unit at a time: A-Z and the
    Latin-1 capitals (all of 192..222 but the multiplication sign). *)
Definition lowerChar (c : ascii) : ascii :=
  if isUpper c || (in_range 192 222 c && negb (code c =? 215))
  then ascii_of_N (N_of_ascii c + 32) else c.

Definition toLowerCase (s : string) : string :=
  string_of_list_ascii (List.map lowerChar (list_ascii_of_string s)).

Fixpoint trimStartL (l : chars) : chars :=
  match l with
  | c :: r => if isWhiteSpace c then trimStartL r else l
  | [] => []
  end.

Definition trimEndL (l : chars) : chars := rev (trimStartL (rev l)).
Definition trimL (l : chars) : chars := trimEndL (trimStartL l).

Definition trim (s : string) : string :=
  string_of_list_ascii (trimL (list_ascii_of_string s)).

(** [s.startsWith(p)] *)
Definition startsWith (s p : string) : bool := String.prefix p s.

Fixpoint startsWithL (l p : chars) : bool :=
  match p, l with
  | [], _ => true
  | a :: p', b :: l' => Ascii.eqb a b && startsWithL l' p'
  | _ :: _, [] => false
  end.

(** [s.slice(0, n)] for a non-negative [n]. *)
Definition slice0 (s : string) (n : nat) : string :=
  string_of_list_ascii (firstn n (list_ascii_of_string s)).

(** [s.slice(n)] for a non-negative [n]. *)
Definition sliceFrom (s : string) (n : nat) : string :=
  string_of_list_ascii (skipn n (list_ascii_of_string s)).

(** [s.split(sep)] for a one-character separator: never empty, the empty
    string gives one empty part. *)
Fixpoint splitL (sep : ascii) (cur : chars) (l : chars) : list chars :=
  match l with
  | [] => [rev cur]
  | c :: r => if Ascii.eqb c sep then rev cur :: splitL sep [] r
              else splitL sep (c :: cur) r
  end.

Definition split (sep : ascii) (s : string) : list string :=
  List.map string_of_list_ascii (splitL sep [] (list_ascii_of_string s)).

(** [s.indexOf(c)] for a one-character needle; [None] stands for -1. *)
Fixpoint indexOfL (c : ascii) (l : chars) : option nat :=
  match l with
  | [] => None
  | d :: r => if Ascii.eqb d c then Some O
              else option_map S (indexOfL c r)
  end.

(** The value of a digit in a radix up to 16, if it is one. *)
Definition digitVal (radix : Z) (c : ascii) : option Z :=
  let v := if isDigit c then code c - 48
           else if in_range 97 102 c then code c - 87
           else if in_range 65 70 c then code c - 55
           else 16 in
  if v <? radix then Some v else None.

(** The longest prefix of digits, as a value and a count, and the rest. *)
Fixpoint takeDigits (radix : Z) (acc : Z) (n : nat) (l : chars)
  : Z * nat * chars :=
  match l with
  | c :: r => match digitVal radix c with
              | Some v => takeDigits radix (acc * radix + v) (S n) r
              | None => (acc, n, l)
              end
  | [] => (acc, n, [])
  end.

(** A JavaScript number. The finite ones are kept exact (a rational):
    the rounding to a double is not represented (a long digit string, or
    an exponent that overflows or underflows, reads here as its exact
    value), neither is the sign of zero. *)
Inductive number : Type :=
| NaN
| Fin (q : Q)
| Infinity (negative : bool).

Definition ofZ (z : Z) : number := Fin (inject_Z z).

Definition isNaN (x : number) : bool :=
  match x with NaN => true | _ => false end.

(** [x === n] for an integer constant [n]. *)
Definition eqZ (x : number) (n : Z) : bool :=
  match x with Fin q => Qeq_bool q (inject_Z n) | _ => false end.

(** [x >= n] and [x <= n] for an integer constant [n]. *)
Definition geZ (x : number) (n : Z) : bool :=
  match x with
  | Fin q => Qle_bool (inject_Z n) q
  | Infinity neg => negb neg
  | NaN => false
  end.

Definition leZ (x : number) (n : Z) : bool :=
  match x with
  | Fin q => Qle_bool q (inject_Z n)
  | Infinity neg => neg
  | NaN => false
  end.

Definition ltZ (x : number) (n : Z) : bool :=
  match x with
  | Fin q => negb (Qle_bool (inject_Z n) q)
  | Infinity neg => neg
  | NaN => false
  end.

Definition signOf (l : chars) : bool * chars :=
  match l with
  | "+"%char :: r => (false, r)
  | "-"%char :: r => (true, r)
  | _ => (false, l)
  end.

Definition scale (neg : bool) (m e : Z) : number :=
  let q := (inject_Z m * Qpower (inject_Z 10) e)%Q in
  Fin (if neg then Qopp q else q).

(** The exponent part of a decimal literal: [None] when malformed. *)
Definition exponent (l : chars) : option Z :=
  match l with
  | [] => Some 0
  | c :: r =>
      if Ascii.eqb c "e" || Ascii.eqb c "E" then
        let '(neg, r1) := signOf r in
        match takeDigits 10 0 O r1 with
        | (v, S _, []) => Some (if neg then - v else v)
        | _ => None
        end
      else None
  end.

(** StrDecimalLiteral (ECMA-262, StringToNumber), after the sign. *)
Definition decimalLiteral (neg : bool) (l : chars) : number :=
  if String.eqb (string_of_list_ascii l) "Infinity"
  then Infinity neg
  else
    let '(i, ni, r1) := takeDigits 10 0 O l in
    let '(m, nf, r2) :=
      match r1 with
      | "."%char :: r => let '(f, nf, r2) := takeDigits 10 i O r in (f, nf, r2)
      | _ => (i, O, r1)
      end in
    match ni, nf with
    | O, O => NaN
    | _, _ => match exponent r2 with
              | Some e => scale neg m (e - Z.of_nat nf)
              | None => NaN
              end
    end.

Definition radixLiteral (radix : Z) (l : chars) : number :=
  match takeDigits radix 0 O l with
  | (v, S _, []) => ofZ v
  | _ => NaN
  end.

(** [Number(s)] on a string (StringToNumber). *)
Definition NumberL (l : chars) : number :=
  match trimL l with
  | [] => ofZ 0
  | "0"%char :: x :: r =>
      if Ascii.eqb x "x" || Ascii.eqb x "X" then radixLiteral 16 r
      else if Ascii.eqb x "o" || Ascii.eqb x "O" then radixLiteral 8 r
      else if Ascii.eqb x "b" || Ascii.eqb x "B" then radixLiteral 2 r
      else decimalLiteral false ("0"%char :: x :: r)
  | t => let '(neg, r) := signOf t in decimalLiteral neg r
  end.

Definition Number (s : string) : number := NumberL (list_ascii_of_string s).

(** [parseInt(s, 10)]: leading white space, a sign, then the longest run
    of decimal digits; [None] stands for NaN. *)
Definition parseInt10 (s : string) : option Z :=
  let '(neg, r) := signOf (trimStartL (list_ascii_of_string s)) in
  match takeDigits 10 0 O r with
  | (_, O, _) => None
  | (v, _, _) => Some (if neg then - v else v)
  end.

End JS.


(** ** The platform's URL constructor

  [new URL(s)] is the WHATWG URL parser of the runtime; the plugin reads
  the [protocol] and [hostname] attributes of the result. The model follows
  the standard's basic URL parser (no base URL) and host parser for [http]
  and [https] URLs whose host is written with ASCII characters and no
  percent-escape: the authority is cut at the first slash, backslash,
  question mark or hash, credentials and port are removed, a domain is
  lower-cased, a host that ends in a number goes through the IPv4 parser
  and comes back as a dotted quad, and an IPv6 literal is parsed and
  serialised back between its square brackets (the standard's host
  serialiser: the [hostname] of [http://[::1]/] is [[::1]]).

  Outside that fragment: a host with a percent sign or a code unit above
  127 is refused here where the platform would decode it first, punycode
  labels are not validated, and for a scheme other than [http] and [https]
  the host is not parsed ([isUrlSafe] never reads it). *)
Module URL.
Import JS.

Record t : Type := mk { protocol : string; hostname : string }.

Definition ch (c d : ascii) : bool := Ascii.eqb c d.

(** Leading and trailing C0 control or space are stripped, ASCII tab and
    newline are removed throughout. *)
Definition isC0OrSpace (c : ascii) : bool := code c <=? 32.
Definition isTabOrNewline (c : ascii) : bool :=
  (code c =? 9) || (code c =? 10) || (code c =? 13).

Fixpoint dropC0 (l : chars) : chars :=
  match l with
  | c :: r => if isC0OrSpace c then dropC0 r else l
  | [] => []
  end.

Definition cleanInput (l : chars) : chars :=
  List.filter (fun c => negb (isTabOrNewline c)) (rev (dropC0 (rev (dropC0 l)))).

(** Scheme state: letters, digits, plus, minus and dot up to the colon. *)
Fixpoint schemeRest (acc : chars) (l : chars) : option (chars * chars) :=
  match l with
  | [] => None
  | c :: r =>
      if ch c ":" then Some (rev acc, r)
      else if isAlpha c || isDigit c || ch c "+" || ch c "-" || ch c "."
           then schemeRest (lowerChar c :: acc) r
           else None
  end.

Definition scheme (l : chars) : option (chars * chars) :=
  match l with
  | c :: r => if isAlpha c then schemeRest [lowerChar c] r else None
  | [] => None
  end.

Fixpoint skipSlashes (l : chars) : chars :=
  match l with
  | c :: r => if ch c "/" || ch c "\" then skipSlashes r else l
  | [] => []
  end.

(** Authority state: up to the first slash, backslash, question mark or
    hash. *)
Fixpoint authority (l : chars) : chars :=
  match l with
  | c :: r => if ch c "/" || ch c "\" || ch c "?" || ch c "#" then []
              else c :: authority r
  | [] => []
  end.

(** What follows the last at-sign, and whether there was one. *)
Fixpoint afterLastAt (seen : bool) (cur : chars) (l : chars) : bool * chars :=
  match l with
  | [] => (seen, rev cur)
  | c :: r => if ch c "@" then afterLastAt true [] r
              else afterLastAt seen (c :: cur) r
  end.

(** Host state: the host runs to the first colon outside square
    brackets; the port follows. *)
Fixpoint hostAndPort (inside : bool) (cur : chars) (l : chars)
  : chars * option chars :=
  match l with
  | [] => (rev cur, None)
  | c :: r =>
      if ch c ":" && negb inside then (rev cur, Some r)
      else hostAndPort (if ch c "[" then true
                        else if ch c "]" then false else inside)
                       (c :: cur) r
  end.

(** Port state: digits only, at most 65535; an empty port is fine. *)
Definition portOk (p : option chars) : bool :=
  match p with
  | None => true
  | Some l => match takeDigits 10 0 O l with
              | (v, _, []) => v <=? 65535
              | _ => false
              end
  end.

(** *** IPv4 *)

(** The standard's IPv4 number parser: hexadecimal after [0x], octal
    after a leading zero, decimal otherwise. *)
Definition ipv4Number (l : chars) : option Z :=
  let all radix r := match takeDigits radix 0 O r with
                     | (v, _, []) => Some v
                     | _ => None
                     end in
  match l with
  | [] => None
  | "0"%char :: x :: r =>
      if ch x "x" || ch x "X" then all 16 r else all 8 (x :: r)
  | _ => all 10 l
  end.

Definition dropLastEmpty (parts : list chars) : list chars :=
  match rev parts with
  | [] :: (_ :: _) as r => rev r
  | _ => parts
  end.

Definition endsInANumber (host : chars) : bool :=
  match rev (splitL "." [] host) with
  | [ [] ] => false
  | [] :: last :: _ | last :: _ =>
      match last with
      | [] => false
      | _ => forallb isDigit last || bool_decide (is_Some (ipv4Number last))
      end
  | [] => false
  end.

Fixpoint ipv4Value (n : nat) (numbers : list Z) : option Z :=
  match numbers with
  | [] => None
  | [last] => if last <? 256 ^ Z.of_nat (S n) then Some last else None
  | x :: r => if 255 <? x then None
              else match n with
                   | O => None
                   | S n' => option_map (fun v => x * 256 ^ Z.of_nat n + v)
                                        (ipv4Value n' r)
                   end
  end.

Fixpoint decimal (fuel : nat) (z : Z) (acc : chars) : chars :=
  match fuel with
  | O => acc
  | S f => let d := ascii_of_N (Z.to_N (48 + z mod 10)) in
           if z <? 10 then d :: acc else decimal f (z / 10) (d :: acc)
  end.

Definition showDecimal (z : Z) : chars := decimal 20 z [].

Fixpoint joinWith (sep : chars) (parts : list chars) : chars :=
  match parts with
  | [] => []
  | [p] => p
  | p :: r => p ++ sep ++ joinWith sep r
  end.

Definition ipv4Serialize (v : Z) : chars :=
  joinWith ["."%char]
    (List.map (fun k => showDecimal ((v / 256 ^ k) mod 256)) [3; 2; 1; 0]).

Definition ipv4Parse (host : chars) : option chars :=
  let parts := dropLastEmpty (splitL "." [] host) in
  if (4 <? length parts)%nat then None
  else
    numbers ← mapM ipv4Number parts;
    v ← ipv4Value 3 numbers;
    Some (ipv4Serialize v).

(** *** IPv6 *)

Fixpoint hexPiece (n : nat) (acc : Z) (len : nat) (l : chars)
  : Z * nat * chars :=
  match n, l with
  | S n', c :: r => match digitVal 16 c with
                    | Some v => hexPiece n' (acc * 16 + v) (S len) r
                    | None => (acc, len, l)
                    end
  | _, _ => (acc, len, l)
  end.

(** One number of an IPv4 tail: digits, no leading zero, at most 255. *)
Fixpoint ipv4Piece (cur : option Z) (l : chars) : option (Z * chars) :=
  match l with
  | c :: r =>
      if isDigit c then
        match cur with
        | None => ipv4Piece (Some (code c - 48)) r
        | Some 0 => None
        | Some v => let v' := v * 10 + (code c - 48) in
                    if 255 <? v' then None else ipv4Piece (Some v') r
        end
      else option_map (fun v => (v, l)) cur
  | [] => option_map (fun v => (v, [])) cur
  end.

Definition dotThen (x : option (Z * chars)) : option (Z * chars) :=
  '(_, l) ← x;
  match l with
  | "."%char :: r => ipv4Piece None r
  | _ => None
  end.

Definition ipv4Tail (l : chars) : option (list Z) :=
  let n1 := ipv4Piece None l in
  let n2 := dotThen n1 in
  let n3 := dotThen n2 in
  let n4 := dotThen n3 in
  '(a, _) ← n1; '(b, _) ← n2; '(c, _) ← n3; '(d, r) ← n4;
  match r with
  | [] => Some [a * 256 + b; c * 256 + d]
  | _ => None
  end.

(** The main loop of the IPv6 parser; [idx] is the standard's piece
    index, [before] and [after] are the pieces on either side of the
    compression, latest first. *)
Fixpoint ipv6Loop (fuel : nat) (idx : nat) (compressed : bool)
         (before after : list Z) (l : chars) : option (list Z) :=
  let put p := if compressed then (before, p ++ after)
               else (p ++ before, after) in
  let finish idx' ba :=
    let '(b, a) := ba in
    if compressed then Some (rev b ++ repeat 0 (9 - idx') ++ rev a)
    else if (idx' =? 8)%nat then Some (rev b) else None in
  match fuel, l with
  | _, [] => finish idx (before, after)
  | O, _ => None
  | S f, c :: r =>
      if (idx =? 8)%nat then None
      else if ch c ":" then
        if compressed then None else ipv6Loop f (S idx) true before after r
      else
        match hexPiece 4 0 O l with
        | (_, O, _) => None
        | (v, _, rest) =>
            match rest with
            | "."%char :: _ =>
                if (6 <? idx)%nat then None
                else two ← ipv4Tail l; finish (S (S idx)) (put (rev two))
            | ":"%char :: [] => None
            | ":"%char :: r' =>
                let '(b, a) := put [v] in ipv6Loop f (S idx) compressed b a r'
            | [] => finish (S idx) (put [v])
            | _ => None
            end
        end
  end.

Definition ipv6Parse (l : chars) : option (list Z) :=
  match l with
  | ":"%char :: ":"%char :: r => ipv6Loop (S (length r)) 1 true [] [] r
  | ":"%char :: _ => None
  | _ => ipv6Loop (S (length l)) 0 false [] [] l
  end.

Fixpoint hexDigits (fuel : nat) (z : Z) (acc : chars) : chars :=
  match fuel with
  | O => acc
  | S f =>
      let d := z mod 16 in
      let c := ascii_of_N (Z.to_N (if d <? 10 then 48 + d else 87 + d)) in
      if z <? 16 then c :: acc else hexDigits f (z / 16) (c :: acc)
  end.

(** The length of the run of zero pieces at the head of a list. *)
Fixpoint zeroRun (l : list Z) : nat :=
  match l with
  | 0 :: r => S (zeroRun r)
  | _ => O
  end.

(** Start and length of the first longest run of zeros. *)
Fixpoint longestZeroRun (pos : nat) (best : nat * nat) (l : list Z)
  : nat * nat :=
  match l with
  | [] => best
  | _ :: r =>
      let n := zeroRun l in
      longestZeroRun (S pos) (if (snd best <? n)%nat then (pos, n) else best) r
  end.

Definition ipv6Serialize (pieces : list Z) : chars :=
  let hex := List.map (fun p => hexDigits 4 p []) in
  let '(start, len) := longestZeroRun O (O, O) pieces in
  if (len <? 2)%nat then joinWith [":"%char] (hex pieces)
  else joinWith [":"%char] (hex (firstn start pieces))
         ++ [":"%char; ":"%char]
         ++ joinWith [":"%char] (hex (skipn (start + len) pieces)).

(** *** Hosts *)

(** The forbidden domain code points, the percent sign among them, and
    everything above 127. *)
Definition forbiddenInDomain (c : ascii) : bool :=
  (code c <=? 32) || (127 <=? code c)
  || existsb (ch c) (list_ascii_of_string "#/:<>?@[\]^|%").

Definition hostParse (input : chars) : option chars :=
  match input with
  | "["%char :: r =>
      match rev r with
      | "]"%char :: inner =>
          pieces ← ipv6Parse (rev inner);
          Some ("["%char :: ipv6Serialize pieces ++ ["]"%char])
      | _ => None
      end
  | _ =>
      let domain := List.map lowerChar input in
      if existsb forbiddenInDomain domain then None
      else match domain with
           | [] => None
           | _ => if endsInANumber domain then ipv4Parse domain
                  else Some domain
           end
  end.

Definition parseHttp (rest : chars) : option string :=
  let '(at_seen, hp) := afterLastAt false [] (authority (skipSlashes rest)) in
  let '(host, port) := hostAndPort false [] hp in
  match host with
  | [] => None
  | _ => h ← hostParse host;
         if portOk port then Some (string_of_list_ascii h) else None
  end.

(** [new URL(s)]; [None] when the constructor throws. *)
Definition new_URL (s : string) : option t :=
  '(sch, rest) ← scheme (cleanInput (list_ascii_of_string s));
  let proto := string_of_list_ascii (sch ++ [":"%char]) in
  if String.eqb proto "http:" || String.eqb proto "https:"
  then h ← parseHttp rest; Some (mk proto h)
  else Some (mk proto "").

End URL.


(** ** index.ts: the navigation guard *)

Definition MAX_DISPLAY_TEXT : nat := 800.
Definition MAX_LINKS_DISPLAY : nat := 10.
Definition MAX_SESSIONS : nat := 5.
Definition SESSION_IDLE_MS : Z := 10 * 60 * 1000.

(** [parts[i]]; an index out of range reads [undefined], which every
    comparison below treats as [NaN] does. *)
Definition part (parts : list JS.number) (i : nat) : JS.number :=
  nth i parts JS.NaN.

(** What [isUrlSafe] does with the parsed URL. *)
Definition isParsedUrlSafe (parsed : URL.t) : bool :=
  if negb (String.eqb (URL.protocol parsed) "http:")
     && negb (String.eqb (URL.protocol parsed) "https:") then false
  else
    let hostname := JS.toLowerCase (URL.hostname parsed) in
    if String.eqb hostname "localhost" || String.eqb hostname "127.0.0.1"
       || String.eqb hostname "::1" then false
    else if String.eqb hostname "169.254.169.254" then false
    else
      let parts := List.map JS.Number (JS.split "." hostname) in
      if (length parts =? 4)%nat
         && forallb (fun n => negb (JS.isNaN n)) parts
      then
        if JS.eqZ (part parts 0) 10 then false
        else if JS.eqZ (part parts 0) 172 && JS.geZ (part parts 1) 16
                && JS.leZ (part parts 1) 31 then false
        else if JS.eqZ (part parts 0) 192 && JS.eqZ (part parts 1) 168
        then false
        else if JS.eqZ (part parts 0) 0 then false
        else true
      else true.

(** [isUrlSafe(rawUrl)]: the [catch] answers [false] when the URL
    constructor throws. *)
Definition isUrlSafe (rawUrl : string) : bool :=
  match URL.new_URL rawUrl with
  | Some parsed => isParsedUrlSafe parsed
  | None => false
  end.

(** ** browser-backend.ts: the result shape and the errors *)

(** The interfaces [PageLink], [PageInput] and [PageInfo] that
    [browser-backend.ts] exports, field for field; the [BrowserBackend]
    interface of the same file is the module [BrowserBackend] below. *)
Record PageLink : Type := mkLink { label : string; link_url : string }.

Record PageInput : Type :=
  mkInput { ref : string; input_type : string; placeholder : string }.

Record PageInfo : Type := mkPage {
  url : string;
  title : string;
  text : string;
  links : list PageLink;
  inputs : list PageInput
}.

(** The errors a backend call can end with. *)
Inductive Error : Type :=
| RefNotANumber
    (** the [Error] thrown by the [isNaN(index) || index < 0] tests *)
| PinchtabFailed (path : string) (status : Z)
    (** [Pinchtab ${path} failed: ${status}] *)
| FetchRejected
    (** [fetch] itself rejected: no answer from the service *)
| EngineRejected
    (** a rejection that comes out of the browser engine *).

Definition Result (A : Type) : Type := Error + A.

(** ** pinchtab-backend.ts *)
Module Pinchtab.
Import JS.

Definition MAX_TEXT_LENGTH : nat := 2000.

Record PinchtabSnapshot : Type := mkSnap { role : string; content : string }.

(** What the service answers to one request. *)
Inductive Response (A : Type) : Type :=
| Answer (body : A)      (** [response.ok], with the decoded body *)
| Refused (status : Z)   (** a status outside 200..299 *)
| NoAnswer               (** [fetch] rejects *).
Arguments Answer {A} body.
Arguments Refused {A} status.
Arguments NoAnswer {A}.

(** [pinchtabFetch(path)] and [pinchtabFetchBuffer(path)], given the
    answer of the service. *)
Definition pinchtabFetch {A} (path : string) (r : Response A) : Result A :=
  match r with
  | Answer body => inr body
  | Refused status => inl (PinchtabFailed path status)
  | NoAnswer => inl FetchRejected
  end.

(** The longest prefix of characters other than [stop], and what follows. *)
Fixpoint untilChar (stop : ascii) (l : chars) : chars * chars :=
  match l with
  | c :: r => if Ascii.eqb c stop then ([], l)
              else let '(a, b) := untilChar stop r in (c :: a, b)
  | [] => ([], [])
  end.

(** [p] matched at the head of [l], and what follows. *)
Fixpoint lit (p : chars) (l : chars) : option chars :=
  match p, l with
  | [], _ => Some l
  | a :: p', b :: l' => if Ascii.eqb a b then lit p' l' else None
  | _ :: _, [] => None
  end.

(** The same, ignoring case (the [i] flag, for a pattern in lower case). *)
Fixpoint litCI (p : chars) (l : chars) : option chars :=
  match p, l with
  | [], _ => Some l
  | a :: p', b :: l' => if Ascii.eqb a (lowerChar b) then litCI p' l' else None
  | _ :: _, [] => None
  end.

Definition str : string -> chars := list_ascii_of_string.

(** One attempt of [linkRegex] at the head of [l]: an opening square
    bracket, group 1 (any run of characters other than the closing square
    bracket), the closing bracket, an opening parenthesis, group 2 ([http],
    an optional [s], [://], then one or more characters other than the
    closing parenthesis) and the closing parenthesis. The result is the two
    groups and what follows the match. No choice point of the pattern has
    a second way to succeed, so the attempt is a plain scan. *)
Definition matchLink (l : chars) : option (chars * chars * chars) :=
  r0 ← lit (str "[") l;
  let '(g1, r1) := untilChar "]" r0 in
  r2 ← lit (str "](") r1;
  r3 ← lit (str "http") r2;
  '(s, r4) ← match lit (str "s://") r3 with
             | Some r => Some (str "s", r)
             | None => option_map (pair []) (lit (str "://") r3)
             end;
  let '(rest, r5) := untilChar ")" r4 in
  match rest with
  | [] => None
  | _ => r6 ← lit (str ")") r5;
         Some (g1, str "http" ++ s ++ str "://" ++ rest, r6)
  end.

(** The [exec] loop of [parseLinksFromSnapshot]: the leftmost match from
    the current position, then on from its end. *)
Fixpoint parseLinksL (fuel : nat) (l : chars) : list PageLink :=
  match fuel, l with
  | S f, _ :: r =>
      match matchLink l with
      | Some (g1, g2, rest) =>
          let u := string_of_list_ascii g2 in
          mkLink (match g1 with [] => u | _ => string_of_list_ascii g1 end) u
            :: parseLinksL f rest
      | None => parseLinksL f r
      end
  | _, _ => []
  end.

Definition parseLinksFromSnapshot (content : string) : list PageLink :=
  let l := str content in parseLinksL (length l) l.

Fixpoint skipSpaces (l : chars) : chars :=
  match l with
  | c :: r => if isWhiteSpace c then skipSpaces r else l
  | [] => []
  end.

Fixpoint digitsOf (l : chars) : chars * chars :=
  match l with
  | c :: r => if isDigit c then let '(a, b) := digitsOf r in (c :: a, b)
              else ([], l)
  | [] => ([], [])
  end.

Definition dquote : ascii := ascii_of_nat 34.

(** An optional group (the attribute name, an equals sign and a value
    between double quotes) of [inputRegex]: the captured value
    (the empty string when the group does not take part) and what follows. *)
Definition attribute (name : string) (l : chars) : chars * chars :=
  match litCI (str name ++ str "=" ++ [dquote]) l with
  | Some r1 =>
      let '(v, r2) := untilChar dquote r1 in
      match r2 with
      | _ :: r3 => (v, r3)
      | [] => ([], l)
      end
  | None => ([], l)
  end.

(** One attempt of [inputRegex] (flags [gi]) at the head of [l]: [[ref=],
    digits (group 1), the closing bracket, white space, [input] or
    [textarea], white space, the optional [type] attribute (group 2), white
    space, the optional [placeholder] attribute (group 3). Everything after
    the tag name can match the empty string, so each greedy choice stands. *)
Definition matchInput (l : chars) : option (PageInput * chars) :=
  r0 ← litCI (str "[ref=") l;
  let '(g1, r1) := digitsOf r0 in
  match g1 with
  | [] => None
  | _ =>
      r2 ← lit (str "]") r1;
      let r3 := skipSpaces r2 in
      r4 ← match litCI (str "input") r3 with
           | Some r => Some r
           | None => litCI (str "textarea") r3
           end;
      let '(g2, r5) := attribute "type" (skipSpaces r4) in
      let '(g3, r6) := attribute "placeholder" (skipSpaces r5) in
      Some (mkInput (string_of_list_ascii g1)
                    (match g2 with [] => "text"%string
                                 | _ => string_of_list_ascii g2 end)
                    (string_of_list_ascii g3), r6)
  end.

Fixpoint parseInputsL (fuel : nat) (l : chars) : list PageInput :=
  match fuel, l with
  | S f, _ :: r =>
      match matchInput l with
      | Some (i, rest) => i :: parseInputsL f rest
      | None => parseInputsL f r
      end
  | _, _ => []
  end.

Definition parseInputsFromSnapshot (content : string) : list PageInput :=
  let l := str content in parseInputsL (length l) l.

(** The answers of the service to the requests of one backend call: the
    instruction ([/navigate] or [/action]), then [/text] and [/snapshot]. *)
Record Service : Type := mkService {
  instruction : Response unit;
  text_body : Response string;
  snapshot_body : Response (list PinchtabSnapshot);
  screenshot_body : Response unit
}.

Definition newline : ascii := ascii_of_nat 10.

Fixpoint joinLines (parts : list string) : string :=
  match parts with
  | [] => ""
  | [p] => p
  | p :: r => (p ++ String newline (joinLines r))%string
  end.

(** [getPageInfo(currentUrl)]: a failed [/text] request fails the call, a
    failed [/snapshot] request stands for no snapshot at all. *)
Definition getPageInfo (currentUrl : string) (srv : Service) : Result PageInfo :=
  match pinchtabFetch "/text" (text_body srv) with
  | inl e => inl e
  | inr body =>
      let snapshotResult :=
        match pinchtabFetch "/snapshot?filter=interactive" (snapshot_body srv) with
        | inr snaps => snaps
        | inl _ => []
        end in
      let snapshotContent := joinLines (List.map content snapshotResult) in
      let firstLine := trim (hd ""%string (split newline body)) in
      inr {| url := currentUrl;
             title := if String.eqb firstLine "" then currentUrl else firstLine;
             text := slice0 body MAX_TEXT_LENGTH;
             links := parseLinksFromSnapshot snapshotContent;
             inputs := parseInputsFromSnapshot snapshotContent |}
  end.

(** The state of one backend made by [createPinchtabBackend]. *)
Definition urlHistory : Type := list string.

(** [urlHistory[urlHistory.length - 1] || ''] *)
Definition currentUrl (h : urlHistory) : string := List.last h ""%string.

Definition navigate (h : urlHistory) (u : string) (srv : Service)
  : urlHistory * Result PageInfo :=
  match pinchtabFetch "/navigate" (instruction srv) with
  | inl e => (h, inl e)
  | inr _ => (h ++ [u], getPageInfo u srv)
  end.

Definition click (h : urlHistory) (r : string) (srv : Service)
  : urlHistory * Result PageInfo :=
  match pinchtabFetch "/action" (instruction srv) with
  | inl e => (h, inl e)
  | inr _ => (h, getPageInfo (currentUrl h) srv)
  end.

Definition type (h : urlHistory) (r t : string) (srv : Service)
  : urlHistory * Result PageInfo :=
  match pinchtabFetch "/action" (instruction srv) with
  | inl e => (h, inl e)
  | inr _ => (h, getPageInfo (currentUrl h) srv)
  end.

Definition screenshot (h : urlHistory) (srv : Service) : urlHistory * Result unit :=
  (h, pinchtabFetch "/screenshot" (screenshot_body srv)).

Definition getText (h : urlHistory) (srv : Service) : urlHistory * Result string :=
  (h, match pinchtabFetch "/text" (text_body srv) with
      | inl e => inl e
      | inr body => inr (slice0 body MAX_TEXT_LENGTH)
      end).

Definition back (h : urlHistory) (srv : Service) : urlHistory * Result PageInfo :=
  match pinchtabFetch "/navigate" (instruction srv) with
  | inl e => (h, inl e)
  | inr _ =>
      let h' := if (1 <? length h)%nat then removelast h else h in
      (h', getPageInfo (currentUrl h') srv)
  end.

(** [cleanup()] has an empty body. *)
Definition cleanup (h : urlHistory) : urlHistory := h.

(** [isPinchtabAvailable()], given the answer to the [/health] request:
    [response.ok], and [false] when [fetch] rejects or times out. *)
Definition isPinchtabAvailable (health : Response unit) : bool :=
  match health with
  | Answer _ => true
  | _ => false
  end.

End Pinchtab.

(** ** playwright-backend.ts *)
Module Playwright.
Import JS.

Definition MAX_TEXT_LENGTH : nat := 2000.

(** What the in-page scripts read from the live document. *)
Record Anchor : Type := mkAnchor { textContent : string; href : string }.

Record Control : Type := mkControl {
  tagName : string;
  control_type : string;         (** [input.type], empty when absent *)
  control_placeholder : string;  (** [input.placeholder], empty when absent *)
  control_name : string          (** [input.name], empty when absent *)
}.

Record Document : Type := mkDoc {
  doc_url : string;              (** [page.url()] *)
  doc_title : string;            (** [page.title()] *)
  innerText : option string;     (** [document.body.innerText], if a body *)
  anchors : list Anchor;         (** [querySelectorAll('a[href]')] *)
  controls : list Control        (** [querySelectorAll('input, textarea, select')] *)
}.

(** The inclusion rule of a link, as [click] writes it. *)
Definition isRealLink (a : Anchor) : bool :=
  negb (String.eqb (trim (textContent a)) "") && startsWith (href a) "http".

Definition toLink (a : Anchor) : PageLink :=
  mkLink (slice0 (trim (textContent a)) 100) (href a).

Definition toInput (i : nat) (c : Control) : PageInput :=
  mkInput (pretty i)
          (if String.eqb (control_type c) "" then toLowerCase (tagName c)
           else control_type c)
          (if String.eqb (control_placeholder c) "" then control_name c
           else control_placeholder c).

(** [extractPageInfo(page)] *)
Definition extractPageInfo (d : Document) : PageInfo :=
  {| url := doc_url d;
     title := if String.eqb (doc_title d) "" then doc_url d else doc_title d;
     text := slice0 (default ""%string (innerText d)) MAX_TEXT_LENGTH;
     links := firstn 30
                (List.filter
                   (fun l => negb (String.eqb (label l) "")
                             && startsWith (link_url l) "http")
                   (List.map toLink (anchors d)));
     inputs := firstn 20 (imap toInput (controls d)) |}.

(** A page of the engine: the document it shows and what [goBack] can
    return to, latest first. *)
Record Page : Type := mkPageState {
  closed : bool;
  doc : Document;
  history : list Document
}.

(** The state of one backend made by [createPlaywrightBackend]: the two
    variables of the closure ([true] for a launched browser). *)
Record Engine : Type := mkEngine { browser : bool; page : option Page }.

Definition blank : Document := mkDoc "about:blank" "" (Some ""%string) [] [].

(** What the activation of a link does to the page: nothing that the
    extraction sees, a move to another document, or a move that is under
    way while the page is read, which destroys the context of the in-page
    scripts and rejects the read. *)
Inductive Activation : Type :=
| Stays
| Leads (d : Document)
| Breaks (d : Document).

(** How the engine reacts during one backend call. *)
Record Reaction : Type := mkReaction {
  launches : bool;             (** [chromium.launch()] resolves *)
  loaded : option Document;    (** what [goto] loads; [None] when it rejects *)
  clicked : Anchor -> Activation;
                               (** what [target.click()] does, by the link *)
  typed : Control -> string -> option Document;
                               (** what the page becomes on the input events
                                   of the control, if it changes *)
  back_rejects : bool;         (** [goBack] rejects *)
  captures : bool              (** [page.screenshot()] resolves *)
}.

(** [ensurePage()]. Of its two calls into the engine only the rejection
    of [chromium.launch] is an outcome here: [browser.newPage] is taken to
    resolve once there is a browser. *)
Definition ensurePage (e : Engine) (w : Reaction) : Engine * Result Page :=
  let fresh := mkPageState false blank [] in
  match page e with
  | Some p =>
      if negb (closed p) then (e, inr p)
      else if browser e then (mkEngine true (Some fresh), inr fresh)
      else if launches w then (mkEngine true (Some fresh), inr fresh)
      else (e, inl EngineRejected)
  | None =>
      if browser e then (mkEngine true (Some fresh), inr fresh)
      else if launches w then (mkEngine true (Some fresh), inr fresh)
      else (e, inl EngineRejected)
  end.

(** The page moves on to [d]. *)
Definition visit (p : Page) (d : Document) : Page :=
  mkPageState (closed p) d (doc p :: history p).

Definition shows (e : Engine) (p : Page) : Engine * Result PageInfo :=
  (mkEngine (browser e) (Some p), inr (extractPageInfo (doc p))).

Definition navigate (e : Engine) (u : string) (w : Reaction)
  : Engine * Result PageInfo :=
  match ensurePage e w with
  | (e1, inl err) => (e1, inl err)
  | (e1, inr p) =>
      match loaded w with
      | None => (e1, inl EngineRejected)
      | Some d => shows e1 (visit p d)
      end
  end.

(** [isNaN(index) || index < 0] on [parseInt(ref, 10)] *)
Definition validIndex (r : string) : option nat :=
  match parseInt10 r with
  | Some index => if index <? 0 then None else Some (Z.to_nat index)
  | None => None
  end.

Definition click (e : Engine) (r : string) (w : Reaction)
  : Engine * Result PageInfo :=
  match ensurePage e w with
  | (e1, inl err) => (e1, inl err)
  | (e1, inr p) =>
      match validIndex r with
      | None => (e1, inl RefNotANumber)
      | Some idx =>
          match nth_error (List.filter isRealLink (anchors (doc p))) idx with
          | Some target =>
              match clicked w target with
              | Stays => shows e1 p
              | Leads d => shows e1 (visit p d)
              | Breaks d =>
                  (mkEngine (browser e1) (Some (visit p d)), inl EngineRejected)
              end
          | None => shows e1 p
          end
      end
  end.

Definition type (e : Engine) (r t : string) (w : Reaction)
  : Engine * Result PageInfo :=
  match ensurePage e w with
  | (e1, inl err) => (e1, inl err)
  | (e1, inr p) =>
      match validIndex r with
      | None => (e1, inl RefNotANumber)
      | Some idx =>
          match nth_error (controls (doc p)) idx with
          | Some target =>
              match typed w target t with
              | Some d => shows e1 (mkPageState (closed p) d (history p))
              | None => shows e1 p
              end
          | None => shows e1 p
          end
      end
  end.

Definition screenshot (e : Engine) (w : Reaction) : Engine * Result unit :=
  match ensurePage e w with
  | (e1, inl err) => (e1, inl err)
  | (e1, inr p) => (e1, if captures w then inr tt else inl EngineRejected)
  end.

Definition getText (e : Engine) (w : Reaction) : Engine * Result string :=
  match ensurePage e w with
  | (e1, inl err) => (e1, inl err)
  | (e1, inr p) =>
      (e1, inr (slice0 (default ""%string (innerText (doc p))) MAX_TEXT_LENGTH))
  end.

(** [goBack] returns to the previous entry of the history and resolves to
    [null] when there is none; its rejection is caught and dropped. *)
Definition goBack (p : Page) (w : Reaction) : Page :=
  if back_rejects w then p
  else match history p with
       | d :: h => mkPageState (closed p) d h
       | [] => p
       end.

Definition back (e : Engine) (w : Reaction) : Engine * Result PageInfo :=
  match ensurePage e w with
  | (e1, inl err) => (e1, inl err)
  | (e1, inr p) => shows e1 (goBack p w)
  end.

(** [cleanup()]: both [close] calls have their rejection caught. *)
Definition cleanup (e : Engine) : Engine :=
  let pg := match page e with
            | Some p => if negb (closed p) then None else Some p
            | None => None
            end in
  mkEngine false pg.

End Playwright.

(** ** index.ts: sessions, page cache and backend detection *)

Inductive BackendKind : Type := pinchtab | playwright.

(** A [BrowserBackend]: one of the two implementations, with the state
    its closure holds. *)
Inductive Backend : Type :=
| PinchtabBackend (h : Pinchtab.urlHistory)
| PlaywrightBackend (e : Playwright.Engine).

Definition createPinchtabBackend : Backend := PinchtabBackend [].
Definition createPlaywrightBackend : Backend :=
  PlaywrightBackend (Playwright.mkEngine false None).

(** What the outside answers during one backend call. *)
Record World : Type := mkWorld {
  service : Pinchtab.Service;
  reaction : Playwright.Reaction
}.

Module BrowserBackend.

Definition lift {S A} (wrap : S -> Backend) (r : S * Result A)
  : Backend * Result A := (wrap (fst r), snd r).

Definition navigate (b : Backend) (u : string) (w : World)
  : Backend * Result PageInfo :=
  match b with
  | PinchtabBackend h => lift PinchtabBackend (Pinchtab.navigate h u (service w))
  | PlaywrightBackend e => lift PlaywrightBackend (Playwright.navigate e u (reaction w))
  end.

Definition click (b : Backend) (r : string) (w : World)
  : Backend * Result PageInfo :=
  match b with
  | PinchtabBackend h => lift PinchtabBackend (Pinchtab.click h r (service w))
  | PlaywrightBackend e => lift PlaywrightBackend (Playwright.click e r (reaction w))
  end.

Definition type (b : Backend) (r t : string) (w : World)
  : Backend * Result PageInfo :=
  match b with
  | PinchtabBackend h => lift PinchtabBackend (Pinchtab.type h r t (service w))
  | PlaywrightBackend e => lift PlaywrightBackend (Playwright.type e r t (reaction w))
  end.

Definition screenshot (b : Backend) (w : World) : Backend * Result unit :=
  match b with
  | PinchtabBackend h => lift PinchtabBackend (Pinchtab.screenshot h (service w))
  | PlaywrightBackend e => lift PlaywrightBackend (Playwright.screenshot e (reaction w))
  end.

Definition back (b : Backend) (w : World) : Backend * Result PageInfo :=
  match b with
  | PinchtabBackend h => lift PinchtabBackend (Pinchtab.back h (service w))
  | PlaywrightBackend e => lift PlaywrightBackend (Playwright.back e (reaction w))
  end.

Definition cleanup (b : Backend) : Backend :=
  match b with
  | PinchtabBackend h => PinchtabBackend (Pinchtab.cleanup h)
  | PlaywrightBackend e => PlaywrightBackend (Playwright.cleanup e)
  end.

End BrowserBackend.

Record SessionEntry : Type := mkEntry {
  backend : Backend;
  lastUsed : Z;
  timer : nat
}.

(** What the plugin tells the chat; the wording and the keyboards are
    left out. *)
Inductive Notice : Type :=
| Usage | UsageClick | UsageType
| UrlRefused | NotALinkNumber | NotAFieldNumber | BadLinkNumber | NoLinks
| Busy                          (** a status message or a callback answer *)
| Shows (info : PageInfo)       (** the formatted page *)
| ShowsLinks (l : list PageLink)
| TypedText (t : string)
| Photo
| Failed (e : Error).

(** What a run does, in order. *)
Inductive Event : Type :=
| Probed                               (** [isPinchtabAvailable()] is called *)
| Created (chat : Z) (k : BackendKind) (** a backend is constructed *)
| CleanedUp (chat : Z)                 (** [cleanup()] of the chat's backend *)
| TimerSet (t : nat) (chat : Z)
| TimerCleared (t : nat)
| SessionDeleted (chat : Z)
| CacheDeleted (chat : Z)
| Navigated (chat : Z) (u : string)    (** [navigate(u)] of the chat's backend *)
| Clicked (chat : Z) (r : string)
| Typed (chat : Z) (r t : string)
| WentBack (chat : Z)
| Captured (chat : Z)
| Said (chat : Z) (n : Notice).

(** The module state. [sessions] keeps the insertion order of the [Map],
    which the stable sort of [getSession] can see; [timers] are the pending
    time-outs, each with the chat its callback evicts. A promise is
    identified with the value it resolves to ([isPinchtabAvailable] never
    rejects). *)
Record State : Type := mkState {
  sessions : list (Z * SessionEntry);
  pageCache : gmap Z PageInfo;
  detectionPromise : option BackendKind;
  timers : gmap nat Z;
  nextTimer : nat;
  trace : list Event
}.

Definition initial : State := mkState [] ∅ None ∅ O [].

(** What the outside provides during one handler run. *)
Record Env : Type := mkEnv {
  now : Z;                              (** [Date.now()] *)
  health : Pinchtab.Response unit;      (** the answer to the probe, if sent *)
  cleanup_rejects : bool;               (** the promise of [cleanup()] rejects *)
  world : World
}.

(** *** The [Map] of sessions *)

Fixpoint sessions_get (k : Z) (m : list (Z * SessionEntry)) : option SessionEntry :=
  match m with
  | (k', e) :: r => if k' =? k then Some e else sessions_get k r
  | [] => None
  end.

Fixpoint sessions_set (k : Z) (e : SessionEntry) (m : list (Z * SessionEntry))
  : list (Z * SessionEntry) :=
  match m with
  | (k', e') :: r => if k' =? k then (k, e) :: r
                     else (k', e') :: sessions_set k e r
  | [] => [(k, e)]
  end.

Definition sessions_delete (k : Z) (m : list (Z * SessionEntry))
  : list (Z * SessionEntry) :=
  List.filter (fun p => negb (fst p =? k)) m.

(** [.sort(([, a], [, b]) => a.lastUsed - b.lastUsed)]: a stable sort. *)
Fixpoint insertByLastUsed (x : Z * SessionEntry) (l : list (Z * SessionEntry))
  : list (Z * SessionEntry) :=
  match l with
  | y :: r => if lastUsed (snd x) - lastUsed (snd y) <=? 0 then x :: l
              else y :: insertByLastUsed x r
  | [] => [x]
  end.

Definition sortByLastUsed (l : list (Z * SessionEntry)) : list (Z * SessionEntry) :=
  foldr insertByLastUsed [] l.

(** *** Handlers as state transformers *)

Definition M (A : Type) : Type := State -> A * State.

Definition ret {A} (a : A) : M A := fun st => (a, st).

Definition bind {A B} (m : M A) (k : A -> M B) : M B :=
  fun st => let '(a, st') := m st in k a st'.

Notation "'let*' x ':=' m 'in' k" := (bind m (fun x => k))
  (at level 10, x pattern, m at level 100, k at level 200).

Notation "m '>>' k" := (bind m (fun _ => k))
  (at level 90, right associativity).

Definition get : M State := fun st => (st, st).

Definition emit (e : Event) : M unit := fun st =>
  (tt, mkState (sessions st) (pageCache st) (detectionPromise st)
               (timers st) (nextTimer st) (trace st ++ [e])).

Definition putSessions (m : list (Z * SessionEntry)) : M unit := fun st =>
  (tt, mkState m (pageCache st) (detectionPromise st)
               (timers st) (nextTimer st) (trace st)).

Definition putPageCache (c : gmap Z PageInfo) : M unit := fun st =>
  (tt, mkState (sessions st) c (detectionPromise st)
               (timers st) (nextTimer st) (trace st)).

Definition putDetectionPromise (p : option BackendKind) : M unit := fun st =>
  (tt, mkState (sessions st) (pageCache st) p
               (timers st) (nextTimer st) (trace st)).

(** [setTimeout(() => { evictSession(chatId) }, SESSION_IDLE_MS)] *)
Definition setTimeout (chatId : Z) : M nat := fun st =>
  let t := nextTimer st in
  (t, mkState (sessions st) (pageCache st) (detectionPromise st)
              (<[t := chatId]> (timers st)) (S t)
              (trace st ++ [TimerSet t chatId])).

Definition clearTimeout (t : nat) : M unit := fun st =>
  (tt, mkState (sessions st) (pageCache st) (detectionPromise st)
               (delete t (timers st)) (nextTimer st)
               (trace st ++ [TimerCleared t])).

Definition say (chat : Z) (n : Notice) : M unit := emit (Said chat n).

(** [detectBackend()]: the probe is sent only when no promise is stored,
    and the promise is stored before anything is awaited. *)
Definition detectBackend (env : Env) : M BackendKind :=
  let* st := get in
  match detectionPromise st with
  | Some p => ret p
  | None =>
      emit Probed >>
      let p := if Pinchtab.isPinchtabAvailable (health env)
               then pinchtab else playwright in
      putDetectionPromise (Some p) >>
      ret p
  end.

(** How the promise of [entry.backend.cleanup()] settles. *)
Definition cleanupOutcome (env : Env) : Result unit :=
  if cleanup_rejects env then inl EngineRejected else inr tt.

(** [promise.catch(() => {})]: a rejection becomes a fulfilment. *)
Definition caught {A} (r : Result A) : Result unit :=
  match r with
  | inl _ => inr tt
  | inr _ => inr tt
  end.

(** [evictSession(chatId)]; an awaited rejection would leave the function
    before the two [delete] calls. *)
Definition evictSession (env : Env) (chatId : Z) : M unit :=
  let* st := get in
  match sessions_get chatId (sessions st) with
  | None => ret tt
  | Some entry =>
      clearTimeout (timer entry) >>
      emit (CleanedUp chatId) >>
      match caught (cleanupOutcome env) with
      | inl _ => ret tt
      | inr _ =>
          let* st1 := get in
          putSessions (sessions_delete chatId (sessions st1)) >>
          emit (SessionDeleted chatId) >>
          let* st2 := get in
          putPageCache (delete chatId (pageCache st2)) >>
          emit (CacheDeleted chatId)
      end
  end.

(** [getSession(chatId)]: the result is the backend of the entry that is
    stored under [chatId] when the function returns. *)
Definition getSession (env : Env) (chatId : Z) : M Backend :=
  let* st := get in
  match sessions_get chatId (sessions st) with
  | Some existing =>
      clearTimeout (timer existing) >>
      let* t := setTimeout chatId in
      let* st1 := get in
      putSessions (sessions_set chatId
                     (mkEntry (backend existing) (now env) t) (sessions st1)) >>
      ret (backend existing)
  | None =>
      (if (MAX_SESSIONS <=? length (sessions st))%nat then
         match sortByLastUsed (sessions st) with
         | oldest :: _ => evictSession env (fst oldest)
         | [] => ret tt
         end
       else ret tt) >>
      let* backendType := detectBackend env in
      let backend := match backendType with
                     | pinchtab => createPinchtabBackend
                     | playwright => createPlaywrightBackend
                     end in
      emit (Created chatId backendType) >>
      let* t := setTimeout chatId in
      let* st1 := get in
      putSessions (sessions_set chatId (mkEntry backend (now env) t)
                                (sessions st1)) >>
      ret backend
  end.

(** A call on the backend that [getSession] returned changes the object
    the entry of the chat refers to. *)
Definition storeBackend (chatId : Z) (b : Backend) : M unit :=
  let* st := get in
  match sessions_get chatId (sessions st) with
  | Some e => putSessions (sessions_set chatId
                             (mkEntry b (lastUsed e) (timer e)) (sessions st))
  | None => ret tt
  end.

Definition cacheSet (chatId : Z) (info : PageInfo) : M unit :=
  let* st := get in putPageCache (<[chatId := info]> (pageCache st)).

(** *** Commands and callbacks *)

(** The part of the context the handlers read: [ctx.chat?.id] and the
    text of the message, if it has one. *)
Record Ctx : Type := mkCtx { chat_id : option Z; message_text : option string }.

(** [validateNumericRef(ref)]; [None] when it throws. *)
Definition validateNumericRef (r : string) : option Z :=
  match JS.parseInt10 r with
  | Some index => if index <? 0 then None else Some index
  | None => None
  end.

(** What a [try] block does with the result of the backend call: the
    page is cached and shown, or the failure is reported. *)
Definition showOrFail (chatId : Z) (r : Result PageInfo) : M unit :=
  match r with
  | inr info => cacheSet chatId info >> say chatId (Shows info)
  | inl e => say chatId (Failed e)
  end.

Definition handleClick (env : Env) (chatId : Z) (r : string) : M unit :=
  if String.eqb r "" then say chatId UsageClick
  else match validateNumericRef r with
  | None => say chatId NotALinkNumber
  | Some _ =>
      say chatId Busy >>
      let* session := getSession env chatId in
      emit (Clicked chatId r) >>
      let '(session', info) := BrowserBackend.click session r (world env) in
      storeBackend chatId session' >>
      showOrFail chatId info
  end.

Definition handleType (env : Env) (chatId : Z) (args : string) : M unit :=
  match JS.indexOfL " " (list_ascii_of_string args) with
  | None => say chatId UsageType
  | Some spaceIdx =>
      let r := JS.slice0 args spaceIdx in
      let t := JS.sliceFrom args (spaceIdx + 1) in
      match validateNumericRef r with
      | None => say chatId NotAFieldNumber
      | Some _ =>
          say chatId Busy >>
          let* session := getSession env chatId in
          emit (Typed chatId r t) >>
          let '(session', info) := BrowserBackend.type session r t (world env) in
          storeBackend chatId session' >>
          match info with
          | inr i => cacheSet chatId i >> say chatId (TypedText t)
          | inl e => say chatId (Failed e)
          end
      end
  end.

Definition handleBack (env : Env) (chatId : Z) : M unit :=
  say chatId Busy >>
  let* session := getSession env chatId in
  emit (WentBack chatId) >>
  let '(session', info) := BrowserBackend.back session (world env) in
  storeBackend chatId session' >>
  showOrFail chatId info.

Definition handleScreenshot (env : Env) (chatId : Z) : M unit :=
  say chatId Busy >>
  let* session := getSession env chatId in
  emit (Captured chatId) >>
  let '(session', buffer) := BrowserBackend.screenshot session (world env) in
  storeBackend chatId session' >>
  match buffer with
  | inr _ => say chatId Photo
  | inl e => say chatId (Failed e)
  end.

(** [raw.replace(/^\/browse\s*/, '')] *)
Definition stripCommand (raw : string) : string :=
  match Pinchtab.lit (list_ascii_of_string "/browse") (list_ascii_of_string raw) with
  | Some r => string_of_list_ascii (Pinchtab.skipSpaces r)
  | None => raw
  end.

(** [args] of [browseCommand] *)
Definition commandArgs (ctx : Ctx) : string :=
  JS.trim (stripCommand (default ""%string (message_text ctx))).

(** The URL of a navigation request: [https://] is put in front of
    arguments that start with neither [http://] nor [https://]. *)
Definition navigationTarget (args : string) : string :=
  if negb (JS.startsWith args "http://") && negb (JS.startsWith args "https://")
  then String.append "https://" args else args.

Definition browseCommand (env : Env) (ctx : Ctx) : M unit :=
  match chat_id ctx with
  | None => ret tt
  | Some chatId =>
    if chatId =? 0 then ret tt else
    let args := commandArgs ctx in
    if String.eqb args "" then say chatId Usage
    else if JS.startsWith args "click " then
      handleClick env chatId (JS.trim (JS.sliceFrom args 6))
    else if JS.startsWith args "type " then
      handleType env chatId (JS.trim (JS.sliceFrom args 5))
    else if String.eqb args "back" then handleBack env chatId
    else if String.eqb args "screenshot" then handleScreenshot env chatId
    else
      let u := navigationTarget args in
      if negb (isUrlSafe u) then say chatId UrlRefused
      else
        say chatId Busy >>
        let* session := getSession env chatId in
        emit (Navigated chatId u) >>
        let '(session', info) := BrowserBackend.navigate session u (world env) in
        storeBackend chatId session' >>
        showOrFail chatId info
  end.

Definition handleCallback (env : Env) (ctx : Ctx) (data : string) : M bool :=
  if negb (JS.startsWith data "browse:") then ret false
  else match chat_id ctx with
  | None => ret true
  | Some chatId =>
    if chatId =? 0 then ret true else
    let action := JS.sliceFrom data 7 in
    if String.eqb action "links" then
      let* st := get in
      match pageCache st !! chatId with
      | None => say chatId NoLinks >> ret true
      | Some cached =>
          match links cached with
          | [] => say chatId NoLinks >> ret true
          | _ => say chatId (ShowsLinks (firstn MAX_LINKS_DISPLAY (links cached))) >>
                 say chatId Busy >> ret true
          end
      end
    else if String.eqb action "screenshot" then
      say chatId Busy >>
      let* session := getSession env chatId in
      emit (Captured chatId) >>
      let '(session', buffer) := BrowserBackend.screenshot session (world env) in
      storeBackend chatId session' >>
      match buffer with
      | inr _ => say chatId Photo
      | inl e => say chatId (Failed e)
      end >> ret true
    else if String.eqb action "refresh" then
      say chatId Busy >>
      let* st := get in
      match pageCache st !! chatId with
      | None => ret true
      | Some cached =>
          let* session := getSession env chatId in
          emit (Navigated chatId (url cached)) >>
          let '(session', info) :=
            BrowserBackend.navigate session (url cached) (world env) in
          storeBackend chatId session' >>
          showOrFail chatId info >> ret true
      end
    else if String.eqb action "back" then
      say chatId Busy >>
      let* session := getSession env chatId in
      emit (WentBack chatId) >>
      let '(session', info) := BrowserBackend.back session (world env) in
      storeBackend chatId session' >>
      showOrFail chatId info >> ret true
    else if String.eqb action "page" then
      let* st := get in
      match pageCache st !! chatId with
      | Some cached => say chatId (Shows cached)
      | None => ret tt
      end >> say chatId Busy >> ret true
    else if JS.startsWith action "click:" then
      let r := JS.sliceFrom action 6 in
      match validateNumericRef r with
      | None => say chatId BadLinkNumber >> ret true
      | Some _ =>
          say chatId Busy >>
          let* session := getSession env chatId in
          emit (Clicked chatId r) >>
          let '(session', info) := BrowserBackend.click session r (world env) in
          storeBackend chatId session' >>
          showOrFail chatId info >> ret true
      end
    else ret false
  end.

Fixpoint forEach {A} (f : A -> M unit) (l : list A) : M unit :=
  match l with
  | [] => ret tt
  | a :: r => f a >> forEach f r
  end.

(** [browsePlugin.cleanup]: every [cleanup()] is started and its
    rejection caught, then the timers are cleared and the three module
    variables reset. *)
Definition pluginCleanup : M unit :=
  let* st := get in
  forEach (fun p => emit (CleanedUp (fst p))) (sessions st) >>
  forEach (fun p => clearTimeout (timer (snd p))) (sessions st) >>
  putSessions [] >>
  putPageCache ∅ >>
  putDetectionPromise None.

(** *** The plugin as a machine *)

(** What can happen to the plugin: a [/browse] command, a button press,
    an idle timer that fires, the teardown. *)
Inductive Input : Type :=
| Command (ctx : Ctx)
| Callback (ctx : Ctx) (data : string)
| TimerFires (t : nat)
| Teardown.

(** A timer that fires leaves the pending ones and runs its callback,
    [evictSession(chatId)]; a cleared timer never fires. *)
Definition expire (t : nat) : M unit := fun st =>
  (tt, mkState (sessions st) (pageCache st) (detectionPromise st)
               (delete t (timers st)) (nextTimer st) (trace st)).

Definition timerFires (env : Env) (t : nat) : M unit :=
  let* st := get in
  match timers st !! t with
  | None => ret tt
  | Some chatId => expire t >> evictSession env chatId
  end.

Definition step (env : Env) (i : Input) : M unit :=
  match i with
  | Command ctx => browseCommand env ctx
  | Callback ctx data => handleCallback env ctx data >> ret tt
  | TimerFires t => timerFires env t
  | Teardown => pluginCleanup
  end.

Fixpoint run (inputs : list (Env * Input)) (st : State) : State :=
  match inputs with
  | [] => st
  | (env, i) :: r => run r (snd (step env i st))
  end.

(** The URLs handed to [navigate] in a trace. *)
Definition navigated (tr : list Event) : list string :=
  omap (fun e => match e with Navigated _ u => Some u | _ => None end) tr.

(** The number of probes in a trace. *)
Definition probes (tr : list Event) : nat :=
  length (List.filter (fun e => match e with Probed => true | _ => false end) tr).

(** ** index.ts: formatting helpers and the links keyboard *)

(** [truncateText(text, max)] *)
Definition truncateText (text : string) (max : nat) : string :=
  if (String.length text <=? max)%nat then text
  else String.append (JS.slice0 text max) "...".

(** The characters of the class in [escapeMarkdown]. *)
Definition isMarkdownSpecial (c : ascii) : bool :=
  existsb (Ascii.eqb c) (list_ascii_of_string "_*[]()~`>#+-=|{}.!").

Definition backslash : ascii := ascii_of_nat 92.

(** [escapeMarkdown(text)]: a backslash goes in front of every character
    of the class. *)
Definition escapeMarkdownL (l : JS.chars) : JS.chars :=
  flat_map (fun c => if isMarkdownSpecial c then [backslash; c] else [c]) l.

Definition escapeMarkdown (text : string) : string :=
  string_of_list_ascii (escapeMarkdownL (list_ascii_of_string text)).

(** A button of an inline keyboard: what it shows and the callback data
    it sends. The wording of the one button that is not a number is left
    out. *)
Inductive Caption : Type :=
| Numbered (n : string)
| BackToPage.

Record Button : Type := mkButton { caption : Caption; callback_data : string }.

(** [buildLinksKeyboard(links)]: one row per displayed link, then the row
    that leads back to the page. *)
Definition buildLinksKeyboard (links : list PageLink) : list (list Button) :=
  imap (fun i _ => [mkButton (Numbered (pretty (i + 1)%nat))
                             (String.append "browse:click:" (pretty i))])
       (firstn MAX_LINKS_DISPLAY links)
  ++ [[mkButton BackToPage "browse:page"]].

(** ** index.ts: [getSession] across its [await]s

  [getSession] is an [async] function: at each [await] it is suspended, and
  whatever else is ready runs before it goes on. A call for a chat that has
  an entry returns without an [await]. A call for a new chat is suspended
  at [await entry.backend.cleanup()] inside [evictSession] when the pool is
  full, again when [evictSession] has returned, and at
  [await detectBackend()]. The test of [sessions.size] comes before all of
  them, [sessions.set] after the last. *)

(** Where a call for the chat [chatId] is suspended: in [evictSession] for
    the chat [victim]; at [await evictSession(...)], which has returned; at
    [await detectBackend()], with the value of the promise it waits for. *)
Inductive Suspended : Type :=
| AtCleanup (chatId victim : Z)
| AtEvicted (chatId : Z)
| AtDetection (chatId : Z) (promise : BackendKind).

(** [getSession(chatId)] up to its first [await], or to its [return]. *)
Definition getSession_start (env : Env) (chatId : Z) : M (Backend + Suspended) :=
  let* st := get in
  match sessions_get chatId (sessions st) with
  | Some existing =>
      clearTimeout (timer existing) >>
      let* t := setTimeout chatId in
      let* st1 := get in
      putSessions (sessions_set chatId
                     (mkEntry (backend existing) (now env) t) (sessions st1)) >>
      ret (inl (backend existing))
  | None =>
      let detect :=
        let* backendType := detectBackend env in
        ret (inr (AtDetection chatId backendType)) in
      if (MAX_SESSIONS <=? length (sessions st))%nat then
        match sortByLastUsed (sessions st) with
        | oldest :: _ =>
            match sessions_get (fst oldest) (sessions st) with
            | None => ret (inr (AtEvicted chatId))
            | Some entry =>
                clearTimeout (timer entry) >>
                emit (CleanedUp (fst oldest)) >>
                ret (inr (AtCleanup chatId (fst oldest)))
            end
        | [] => detect
        end
      else detect
  end.

(** A suspended call goes on to its next [await], or to its [return]. *)
Definition getSession_resume (env : Env) (s : Suspended) : M (Backend + Suspended) :=
  match s with
  | AtCleanup chatId victim =>
      match caught (cleanupOutcome env) with
      | inl _ => ret tt
      | inr _ =>
          let* st1 := get in
          putSessions (sessions_delete victim (sessions st1)) >>
          emit (SessionDeleted victim) >>
          let* st2 := get in
          putPageCache (delete victim (pageCache st2)) >>
          emit (CacheDeleted victim)
      end >>
      ret (inr (AtEvicted chatId))
  | AtEvicted chatId =>
      let* backendType := detectBackend env in
      ret (inr (AtDetection chatId backendType))
  | AtDetection chatId backendType =>
      let backend := match backendType with
                     | pinchtab => createPinchtabBackend
                     | playwright => createPlaywrightBackend
                     end in
      emit (Created chatId backendType) >>
      let* t := setTimeout chatId in
      let* st1 := get in
      putSessions (sessions_set chatId (mkEntry backend (now env) t)
                                (sessions st1)) >>
      ret (inl backend)
  end.

Definition goOn (env : Env) (r : Backend + Suspended) : M (Backend + Suspended) :=
  match r with
  | inl b => ret (inl b)
  | inr s => getSession_resume env s
  end.

(** A call that nothing else runs in between of. *)
Definition getSession_uninterrupted (env : Env) (chatId : Z)
  : M (Backend + Suspended) :=
  let* r := getSession_start env chatId in
  let* r := goOn env r in
  let* r := goOn env r in
  goOn env r.

(** A turn of the event loop: a call of [getSession] starts, or the [n]-th
    of the suspended calls goes on. *)
Inductive Turn : Type :=
| Starts (env : Env) (chatId : Z)
| GoesOn (env : Env) (n : nat).

Definition turn (t : Turn) (sw : State * list Suspended) : State * list Suspended :=
  let '(st, waiting) := sw in
  match t with
  | Starts env chatId =>
      match getSession_start env chatId st with
      | (inl _, st') => (st', waiting)
      | (inr s, st') => (st', waiting ++ [s])
      end
  | GoesOn env n =>
      match waiting !! n with
      | None => (st, waiting)
      | Some s =>
          match getSession_resume env s st with
          | (inl _, st') => (st', delete n waiting)
          | (inr s', st') => (st', <[n := s']> waiting)
          end
      end
  end.

Definition turns (l : list Turn) (sw : State * list Suspended)
  : State * list Suspended :=
  foldl (fun sw t => turn t sw) sw l.

(** ** Sample inputs and the notions the properties are stated with *)

Local Open Scope string_scope.
Local Open Scope list_scope.
Local Open Scope Z_scope.

(** A remote service that accepts every request: the page text is a title
    line and a body line, the snapshot holds two links. *)
Definition obliging : Pinchtab.Service :=
  Pinchtab.mkService
    (Pinchtab.Answer tt)
    (Pinchtab.Answer (String.append "Title" (String Pinchtab.newline "body")))
    (Pinchtab.Answer [Pinchtab.mkSnap "link" "[a](http://b) [c](http://d)"])
    (Pinchtab.Answer tt).

(** A remote service that answers the instruction with status 500. *)
Definition refusing : Pinchtab.Service :=
  Pinchtab.mkService (Pinchtab.Refused 500) (Pinchtab.text_body obliging)
                     (Pinchtab.snapshot_body obliging) (Pinchtab.Answer tt).

(** The block [[a](http://b)] repeated [n] times. *)
Definition linkBlock : JS.chars := Pinchtab.str "[a](http://b)".

Fixpoint manyLinks (n : nat) : JS.chars :=
  match n with
  | O => []
  | S n' => linkBlock ++ manyLinks n'
  end.

(** A remote service whose snapshot holds [n] links. *)
Definition crowded (n : nat) : Pinchtab.Service :=
  Pinchtab.mkService
    (Pinchtab.Answer tt) (Pinchtab.Answer "t")
    (Pinchtab.Answer [Pinchtab.mkSnap "link" (string_of_list_ascii (manyLinks n))])
    (Pinchtab.Answer tt).

(** A document with one link, and the cloud metadata page. *)
Definition home : Playwright.Document :=
  Playwright.mkDoc "https://example.com/" "Example" (Some "Example Domain")
    [Playwright.mkAnchor "More" "https://www.iana.org/"] [].

Definition metadata : Playwright.Document :=
  Playwright.mkDoc "http://169.254.169.254/latest/meta-data/" "" (Some "ami-id") [] [].

(** An engine that launches and loads [d], with links and fields that
    lead nowhere. *)
Definition loading (d : Playwright.Document) : Playwright.Reaction :=
  Playwright.mkReaction true (Some d) (fun _ => Playwright.Stays)
                        (fun _ _ => None) false true.

(** An engine whose browser cannot be launched. *)
Definition neverLaunches : Playwright.Reaction :=
  Playwright.mkReaction false None (fun _ => Playwright.Stays)
                        (fun _ _ => None) false false.

(** A handler environment: the clock reads [t], the probe fails (the local
    engine is selected), the engine loads [d]. *)
Definition envAt (t : Z) (d : Playwright.Document) : Env :=
  mkEnv t Pinchtab.NoAnswer false (mkWorld obliging (loading d)).

(** The same with a remote service that answers the probe. *)
Definition remoteAt (t : Z) : Env :=
  mkEnv t (Pinchtab.Answer tt) false (mkWorld obliging (loading home)).

Definition command (chat : Z) (t : string) : Input :=
  Command (mkCtx (Some chat) (Some t)).

Definition press (chat : Z) (data : string) : Input :=
  Callback (mkCtx (Some chat) None) data.

(** A page that redirects to the metadata address, then a refresh. *)
Definition redirectThenRefresh : list (Env * Input) :=
  [ (envAt 1 metadata, command 7 "/browse example.com");
    (envAt 2 metadata, press 7 "browse:refresh") ].

(** Five chats open a page one after the other. *)
Definition fiveChats : list (Env * Input) :=
  [ (envAt 1 home, command 1 "/browse example.com");
    (envAt 2 home, command 2 "/browse example.com");
    (envAt 3 home, command 3 "/browse example.com");
    (envAt 4 home, command 4 "/browse example.com");
    (envAt 5 home, command 5 "/browse example.com") ].

(** The local engine after it has loaded [home], which has one link. *)
Definition atHome : Playwright.Engine :=
  fst (Playwright.navigate (Playwright.mkEngine false None)
         "https://example.com/" (loading home)).

(** A remote-service backend after two navigations and one [back]. *)
Definition afterBack : Pinchtab.urlHistory :=
  fst (Pinchtab.back
         (fst (Pinchtab.navigate
                 (fst (Pinchtab.navigate [] "https://a.example/" obliging))
                 "https://b.example/" obliging))
         obliging).

(** A remote-service backend after a navigation that the service accepted
    and one that it refused. *)
Definition afterRefusal : Pinchtab.urlHistory :=
  fst (Pinchtab.navigate
         (fst (Pinchtab.navigate [] "https://a.example/" obliging))
         "https://b.example/" refusing).

(** What the obliging service shows, as reported for [https://a.example/]. *)
Definition pageAtA : PageInfo :=
  {| url := "https://a.example/"; title := "Title";
     text := String.append "Title" (String Pinchtab.newline "body");
     links := [mkLink "a" "http://b"; mkLink "c" "http://d"];
     inputs := [] |}.

(** Nothing to go back to: at most one entry in the URL history of the
    remote-service backend; for the local engine, no history behind the
    page it has open, if it has one (a page it opens is blank and has
    none). *)
Definition nothingToGoBackTo (b : Backend) : Prop :=
  match b with
  | PinchtabBackend h => (length h <= 1)%nat
  | PlaywrightBackend e =>
      forall p, Playwright.page e = Some p -> Playwright.closed p = false ->
                Playwright.history p = []
  end.

(** The state [getSession] works on once room has been made for a new
    entry: the oldest entry is evicted when the pool is full. *)
Definition roomMade (env : Env) (st : State) : State :=
  if (MAX_SESSIONS <=? length (sessions st))%nat then
    match sortByLastUsed (sessions st) with
    | oldest :: _ => snd (evictSession env (fst oldest) st)
    | [] => st
    end
  else st.

(** The backend family a new session gets: the stored decision, or what
    the probe finds. *)
Definition selected (env : Env) (st : State) : BackendKind :=
  match detectionPromise st with
  | Some p => p
  | None => if Pinchtab.isPinchtabAvailable (health env)
            then pinchtab else playwright
  end.

Definition create (k : BackendKind) : Backend :=
  match k with
  | pinchtab => createPinchtabBackend
  | playwright => createPlaywrightBackend
  end.

(** The pool is within its capacity and holds one entry per chat. *)
Definition withinCapacity (st : State) : Prop :=
  (length (sessions st) <= MAX_SESSIONS)%nat
  /\ NoDup (sessions st).*1.

(** [m] keeps [I]. *)
Definition keeps {A} (I : State -> Prop) (m : M A) : Prop :=
  forall st, I st -> I (snd (m st)).

(** The events a handler emits itself (the others come from the session
    pool), and those among them that a guarded handler may emit: a
    [navigate] only with a URL the guard accepts. *)
Definition handlerEvent (e : Event) : Prop :=
  match e with
  | Said _ _ | Clicked _ _ | Typed _ _ _ | WentBack _ | Captured _
  | Navigated _ _ => True
  | _ => False
  end.

Definition guardedEvent (e : Event) : Prop :=
  match e with
  | Navigated _ u => isUrlSafe u = true
  | _ => handlerEvent e
  end.

(** [I] is kept by every step a handler is made of. *)
Definition Stable (P : Event -> Prop) (I : State -> Prop) : Prop :=
  (forall e, P e -> keeps I (emit e))
  /\ (forall c, keeps I (putPageCache c))
  /\ (forall env k, keeps I (getSession env k))
  /\ (forall env k, keeps I (evictSession env k))
  /\ (forall k b, keeps I (storeBackend k b))
  /\ (forall t, keeps I (expire t)).

(** Every URL handed to [navigate] so far was accepted by the guard. *)
Definition onlyGuarded (st : State) : Prop :=
  Forall (fun u => isUrlSafe u = true) (navigated (trace st)).

(** The pool after the five chats, and the entry of the first. *)
Definition fullPool : State := run fiveChats initial.

Definition firstEntry : SessionEntry :=
  default (mkEntry createPinchtabBackend 0 O) (sessions_get 1 (sessions fullPool)).

(** An environment in which [cleanup()] rejects. *)
Definition cleanupRejects : Env :=
  mkEnv 9 Pinchtab.NoAnswer true (mkWorld obliging (loading home)).

(** The probe is sent at most once, a stored decision means it was sent,
    and every backend made so far is of the stored family. *)
Definition probedOnce (st : State) : Prop :=
  (detectionPromise st = None -> probes (trace st) = O)
  /\ (probes (trace st) <= 1)%nat
  /\ (forall c k, Created c k ∈ trace st -> detectionPromise st = Some k).

(** A click in a chat that has not opened a page, on the remote-service
    backend, then a refresh. *)
Definition clickThenRefresh : list (Env * Input) :=
  [ (remoteAt 1, command 7 "/browse click 0");
    (remoteAt 2, press 7 "browse:refresh") ].

(** The chat and the URL of a command that [browseCommand] takes for a
    navigation request: a chat, arguments, and none of the sub-commands. *)
Definition navigationRequest (ctx : Ctx) : option (Z * string) :=
  match chat_id ctx with
  | None => None
  | Some chatId =>
      if chatId =? 0 then None
      else
        let args := commandArgs ctx in
        if String.eqb args "" || JS.startsWith args "click "
           || JS.startsWith args "type " || String.eqb args "back"
           || String.eqb args "screenshot"
        then None
        else Some (chatId, navigationTarget args)
  end.


(** ** Notions for the further properties *)

(** The dotted quad the URL constructor writes for the IPv4 address with
    the octets [a], [b], [c] and [d]. *)
Definition quad (a b c d : Z) : string :=
  string_of_list_ascii
    (URL.joinWith ["."%char] (List.map URL.showDecimal [a; b; c; d])).

(** The IPv4 addresses the tests of [isUrlSafe] single out: the two
    literal addresses and the four ranges. *)
Definition refusedQuad (a b c d : Z) : bool :=
  ((a =? 127) && (b =? 0) && (c =? 0) && (d =? 1))
  || ((a =? 169) && (b =? 254) && (c =? 169) && (d =? 254))
  || (a =? 10)
  || ((a =? 172) && (16 <=? b) && (b <=? 31))
  || ((a =? 192) && (b =? 168))
  || (a =? 0).

(** What is checked of the decimal writing of one octet: no dot, nothing
    that [toLowerCase] changes, and [Number] reads the octet back. *)
Definition octetWritten (n : Z) : bool :=
  let s := URL.showDecimal n in
  forallb (fun c => negb (Ascii.eqb c ".")) s
  && forallb (fun c => Ascii.eqb (JS.lowerChar c) c) s
  && match JS.NumberL s with
     | JS.Fin (Qmake m 1) => m =? n
     | _ => false
     end.

(** A document with one link and one search field. *)
Definition searchPage : Playwright.Document :=
  Playwright.mkDoc "https://example.com/" "Example" (Some "Example Domain")
    [Playwright.mkAnchor "More" "https://www.iana.org/"]
    [Playwright.mkControl "INPUT" "search" "Search" "q"].

(** A remote service that serves the page text and fails the snapshot. *)
Definition textOnly : Pinchtab.Service :=
  Pinchtab.mkService (Pinchtab.Answer tt) (Pinchtab.Answer "Title")
                     (Pinchtab.Refused 500) (Pinchtab.Answer tt).

(** A remote service that accepts the instruction and fails the text. *)
Definition noText : Pinchtab.Service :=
  Pinchtab.mkService (Pinchtab.Answer tt) (Pinchtab.Refused 503)
                     (Pinchtab.Answer []) (Pinchtab.Answer tt).

(** The family of a backend. *)
Definition kindOf (b : Backend) : BackendKind :=
  match b with
  | PinchtabBackend _ => pinchtab
  | PlaywrightBackend _ => playwright
  end.

(** The timer of every entry is pending and set for the chat of the entry,
    and nothing else is pending. *)
Definition timersMatch (st : State) : Prop :=
  (forall c e, sessions_get c (sessions st) = Some e ->
               timers st !! timer e = Some c)
  /\ (forall t c, timers st !! t = Some c ->
                  exists e, sessions_get c (sessions st) = Some e /\ timer e = t).

(** A page is cached only for a chat that has an entry. *)
Definition cacheWithinPool (st : State) : Prop :=
  forall c, is_Some (pageCache st !! c) -> is_Some (sessions_get c (sessions st)).

(** Every entry holds a backend of the family the stored promise resolves
    to. *)
Definition oneFamily (st : State) : Prop :=
  forall c e, sessions_get c (sessions st) = Some e ->
              detectionPromise st = Some (kindOf (backend e)).

(** The books of the pool are in order; the handles of the pending timers
    are below the next one. *)
Definition tidy (st : State) : Prop :=
  NoDup (sessions st).*1
  /\ timersMatch st
  /\ (forall t c, timers st !! t = Some c -> (t < nextTimer st)%nat)
  /\ cacheWithinPool st
  /\ oneFamily st.

(** The books are in order and the chat [k] has an entry, of family [q]. *)
Definition serving (k : Z) (q : BackendKind) (st : State) : Prop :=
  tidy st
  /\ is_Some (sessions_get k (sessions st))
  /\ detectionPromise st = Some q.

(** From a state in [P], [m] returns a result and a state in [Q]. *)
Definition hoare {A} (P : State -> Prop) (m : M A) (Q : A -> State -> Prop) : Prop :=
  forall st, P st -> Q (fst (m st)) (snd (m st)).


(** [m] returns [a] from every state. *)
Definition answers {A} (a : A) (m : M A) : Prop := forall st, fst (m st) = a.

(** The local engine with [searchPage] open. *)
Definition atSearch : Playwright.Engine :=
  Playwright.mkEngine true (Some (Playwright.mkPageState false searchPage [])).

(** A bare document at the address [u]. *)
Definition pageAt (u : string) : Playwright.Document :=
  Playwright.mkDoc u "" (Some ""%string) [] [].

(** An engine in which a link leads to its address and a search field
    that is typed into shows the results for the text. *)
Definition following : Playwright.Reaction :=
  Playwright.mkReaction true None
    (fun a => Playwright.Leads (pageAt (Playwright.href a)))
    (fun c t => Some (pageAt (String.append "https://example.com/?q=" t)))
    false true.

(** The first requests of six chats arrive together: each call is
    suspended at [await detectBackend()] before the next starts, then they
    go on one after the other. *)
Definition sixAtOnce : list Turn :=
  [ Starts (envAt 1 home) 1; Starts (envAt 1 home) 2; Starts (envAt 1 home) 3;
    Starts (envAt 1 home) 4; Starts (envAt 1 home) 5; Starts (envAt 1 home) 6;
    GoesOn (envAt 2 home) 0; GoesOn (envAt 2 home) 0; GoesOn (envAt 2 home) 0;
    GoesOn (envAt 2 home) 0; GoesOn (envAt 2 home) 0; GoesOn (envAt 2 home) 0 ].

(** The same six requests, each returned before the next starts. *)
Definition sixInTurn : list Turn :=
  [ Starts (envAt 1 home) 1; GoesOn (envAt 1 home) 0;
    Starts (envAt 2 home) 2; GoesOn (envAt 2 home) 0;
    Starts (envAt 3 home) 3; GoesOn (envAt 3 home) 0;
    Starts (envAt 4 home) 4; GoesOn (envAt 4 home) 0;
    Starts (envAt 5 home) 5; GoesOn (envAt 5 home) 0;
    Starts (envAt 6 home) 6; GoesOn (envAt 6 home) 0; GoesOn (envAt 6 home) 0;
    GoesOn (envAt 6 home) 0 ].
(** * Properties *)

(** ** The navigation guard *)

(** A scheme other than [http] and [https] is refused, whatever the
    constructor makes of the rest. *)
Lemma isUrlSafe_other_scheme (rawUrl : string) (parsed : URL.t) :
  URL.new_URL rawUrl = Some parsed ->
  URL.protocol parsed <> "http:" -> URL.protocol parsed <> "https:" ->
  isUrlSafe rawUrl = false.
Proof.
  intros Hp H1 H2. unfold isUrlSafe. rewrite Hp. unfold isParsedUrlSafe.
  apply String.eqb_neq in H1, H2. rewrite H1, H2. reflexivity.
Qed.

(** A URL the constructor refuses is refused. *)
Lemma isUrlSafe_unparsable (rawUrl : string) :
  URL.new_URL rawUrl = None -> isUrlSafe rawUrl = false.
Proof. intros H. unfold isUrlSafe. rewrite H. reflexivity. Qed.

(** The verdict on a parsed [http] or [https] URL depends on the value of
    its [hostname] attribute alone; for the seven listed values it is a
    refusal, for [example.com] and [8.8.8.8] an acceptance. *)
Lemma isParsedUrlSafe_listed (proto h : string) :
  proto = "http:" \/ proto = "https:" ->
  (In h ["127.0.0.1"; "localhost"; "::1"; "169.254.169.254"; "10.1.2.3";
         "172.16.0.1"; "192.168.1.1"] ->
   isParsedUrlSafe (URL.mk proto h) = false)
  /\ (In h ["example.com"; "8.8.8.8"] ->
      isParsedUrlSafe (URL.mk proto h) = true).
Proof.
  intros Hp. split; intros Hin; simpl in Hin;
    repeat (destruct Hin as [<- | Hin]; [destruct Hp as [-> | ->]; reflexivity |]);
    destruct Hin.
Qed.

(** The constructor writes an IPv6 host between square brackets, so no
    URL has the [hostname] [::1]: the third comparison of [isUrlSafe]
    never holds on what the constructor returns for an IPv6 literal. *)
Lemma hostParse_ipv6_bracketed (inner out : JS.chars) :
  URL.hostParse ("["%char :: inner) = Some out ->
  exists rest, out = "["%char :: rest.
Proof.
  unfold URL.hostParse. destruct (rev inner) as [| c r]; [discriminate |].
  destruct (Ascii.eqb_spec c "]"%char) as [-> | Hne].
  - destruct (URL.ipv6Parse (rev r)); simpl; [| discriminate].
    intros [= <-]. eauto.
  - intros H. exfalso. revert H.
    destruct c as [[] [] [] [] [] [] [] []]; try discriminate; congruence.
Qed.

Lemma splitL_head (sep : ascii) (cur l : JS.chars) :
  exists p rest, JS.splitL sep cur l = (rev cur ++ p) :: rest.
Proof.
  revert cur. induction l as [| c l IH]; intros cur; simpl.
  - exists [], []. rewrite app_nil_r. reflexivity.
  - destruct (Ascii.eqb c sep).
    + exists [], (JS.splitL sep [] l). rewrite app_nil_r. reflexivity.
    + destruct (IH (c :: cur)) as (p & rest & ->).
      exists (c :: p), rest. simpl. rewrite <- app_assoc. reflexivity.
Qed.

Lemma trimStartL_snoc (l : JS.chars) (c : ascii) :
  JS.isWhiteSpace c = false ->
  exists l', JS.trimStartL (l ++ [c]) = l' ++ [c].
Proof.
  intros Hc. induction l as [| d l IH]; simpl.
  - rewrite Hc. exists []. reflexivity.
  - destruct (JS.isWhiteSpace d); [exact IH |].
    exists (d :: l). reflexivity.
Qed.

(** [Number] of a string that starts with an opening square bracket is
    [NaN]. *)
Lemma Number_bracket (p : JS.chars) :
  JS.NumberL ("["%char :: p) = JS.NaN.
Proof.
  unfold JS.NumberL, JS.trimL. change (JS.trimStartL ("["%char :: p)) with ("["%char :: p).
  unfold JS.trimEndL. change (rev ("["%char :: p)) with (rev p ++ ["["%char]).
  destruct (trimStartL_snoc (rev p) "["%char eq_refl) as (l' & ->).
  rewrite rev_app_distr. reflexivity.
Qed.

(** Every [http] or [https] URL whose [hostname] starts with an opening
    square bracket, which is how the constructor writes every IPv6 host, is
    accepted: the loopback [[::1]], the mapped [[::ffff:127.0.0.1]] and the
    private ranges alike. *)
Lemma isParsedUrlSafe_bracketed (proto h : string) :
  proto = "http:" \/ proto = "https:" ->
  isParsedUrlSafe (URL.mk proto (String "["%char h)) = true.
Proof.
  intros Hp. unfold isParsedUrlSafe. cbn [URL.protocol URL.hostname].
  replace (negb (String.eqb proto "http:") && negb (String.eqb proto "https:"))
    with false by (destruct Hp as [-> | ->]; reflexivity).
  change (JS.toLowerCase (String "["%char h))
    with (String "["%char (JS.toLowerCase h)).
  cbn [String.eqb Ascii.eqb Bool.eqb orb].
  unfold JS.split.
  change (list_ascii_of_string (String "["%char (JS.toLowerCase h)))
    with ("["%char :: list_ascii_of_string (JS.toLowerCase h)).
  change (JS.splitL "." [] ("["%char :: list_ascii_of_string (JS.toLowerCase h)))
    with (JS.splitL "." ["["%char] (list_ascii_of_string (JS.toLowerCase h))).
  destruct (splitL_head "." ["["%char] (list_ascii_of_string (JS.toLowerCase h)))
    as (p & rest & ->).
  cbn [rev app List.map forallb].
  assert (HN : JS.Number (string_of_list_ascii ("["%char :: p)) = JS.NaN).
  { unfold JS.Number. rewrite list_ascii_of_string_of_list_ascii.
    apply Number_bracket. }
  rewrite !HN. cbn [JS.isNaN negb andb]. rewrite andb_false_r. reflexivity.
Qed.

(** C1: the guard accepts [http://[::1]/], a URL whose host is the IPv6
    loopback address: the constructor gives it the [hostname] [[::1]],
    which none of the comparisons of [isUrlSafe] matches. *)
Theorem isUrlSafe_accepts_ipv6_loopback :
  URL.new_URL "http://[::1]/" = Some (URL.mk "http:" "[::1]")
  /\ isUrlSafe "http://[::1]/" = true
  /\ isUrlSafe "https://[::1]:8080/admin" = true
  /\ isUrlSafe "http://[::ffff:127.0.0.1]/" = true
  /\ isUrlSafe "http://::1/" = false.
Proof. repeat split; reflexivity. Qed.

(** Whatever the URL, once the constructor returns an [http] or [https]
    URL with a bracketed [hostname], the guard accepts it. *)
Lemma isUrlSafe_ipv6_literal (rawUrl proto h : string) :
  URL.new_URL rawUrl = Some (URL.mk proto (String "["%char h)) ->
  proto = "http:" \/ proto = "https:" ->
  isUrlSafe rawUrl = true.
Proof.
  intros Hp Hs. unfold isUrlSafe. rewrite Hp.
  apply isParsedUrlSafe_bracketed. exact Hs.
Qed.

(** The other listed hosts, written into a URL, are refused, and the two
    public ones accepted. *)
Lemma isUrlSafe_listed_hosts :
  Forall (fun h => isUrlSafe (String.append "http://" h) = false
                   /\ isUrlSafe (String.append "https://" h) = false)
         ["127.0.0.1"; "localhost"; "169.254.169.254"; "10.1.2.3";
          "172.16.0.1"; "192.168.1.1"]
  /\ Forall (fun h => isUrlSafe (String.append "http://" h) = true
                      /\ isUrlSafe (String.append "https://" h) = true)
            ["example.com"; "8.8.8.8"].
Proof. split; repeat constructor. Qed.

(** ** The bounds of a [PageInfo] *)

Lemma length_string_of_list_ascii (l : JS.chars) :
  String.length (string_of_list_ascii l) = length l.
Proof. induction l; simpl; congruence. Qed.

Lemma slice0_length (s : string) (n : nat) :
  (String.length (JS.slice0 s n) <= n)%nat.
Proof.
  unfold JS.slice0. rewrite length_string_of_list_ascii, length_firstn. lia.
Qed.

(** The local engine cuts the text at 2000 characters, the links at 30
    and the inputs at 20, and keeps the document order: the links are the
    first ones of the filtered anchors, the inputs the first controls. *)
Lemma extractPageInfo_bounded (d : Playwright.Document) :
  let info := Playwright.extractPageInfo d in
  (String.length (text info) <= 2000)%nat
  /\ (length (links info) <= 30)%nat
  /\ (length (inputs info) <= 20)%nat
  /\ links info `prefix_of`
       List.filter (fun l => negb (String.eqb (label l) "")
                             && JS.startsWith (link_url l) "http")
                   (List.map Playwright.toLink (Playwright.anchors d))
  /\ inputs info `prefix_of` imap Playwright.toInput (Playwright.controls d).
Proof.
  simpl. repeat split.
  - apply slice0_length.
  - rewrite length_firstn. lia.
  - rewrite length_firstn. lia.
  - eexists. symmetry. apply firstn_skipn.
  - eexists. symmetry. apply firstn_skipn.
Qed.

(** The remote-service backend cuts the text at 2000 characters too. *)
Lemma getPageInfo_text_bounded (u : string) (srv : Pinchtab.Service) (info : PageInfo) :
  Pinchtab.getPageInfo u srv = inr info ->
  (String.length (text info) <= 2000)%nat.
Proof.
  unfold Pinchtab.getPageInfo.
  destruct (Pinchtab.pinchtabFetch "/text" _); [discriminate |].
  intros [= <-]. simpl. apply slice0_length.
Qed.

Lemma matchLink_block (rest : JS.chars) :
  Pinchtab.matchLink (linkBlock ++ rest)
  = Some (Pinchtab.str "a", Pinchtab.str "http://b", rest).
Proof. reflexivity. Qed.

Lemma parseLinksL_manyLinks (n fuel : nat) :
  (n <= fuel)%nat ->
  Pinchtab.parseLinksL fuel (manyLinks n) = repeat (mkLink "a" "http://b") n.
Proof.
  revert fuel. induction n as [| n IH]; intros fuel Hle.
  - destruct fuel; reflexivity.
  - destruct fuel as [| fuel]; [lia |].
    change (manyLinks (S n)) with (linkBlock ++ manyLinks n).
    change (Pinchtab.parseLinksL (S fuel) (linkBlock ++ manyLinks n))
      with (match Pinchtab.matchLink (linkBlock ++ manyLinks n) with
            | Some (g1, g2, rest) =>
                let u := string_of_list_ascii g2 in
                mkLink (match g1 with [] => u | _ => string_of_list_ascii g1 end) u
                  :: Pinchtab.parseLinksL fuel rest
            | None => Pinchtab.parseLinksL fuel (List.tl (linkBlock ++ manyLinks n))
            end).
    rewrite matchLink_block. simpl. f_equal. apply IH. lia.
Qed.

Lemma manyLinks_length (n : nat) : length (manyLinks n) = (13 * n)%nat.
Proof.
  induction n as [| n IH]; [reflexivity |].
  change (manyLinks (S n)) with (linkBlock ++ manyLinks n).
  rewrite length_app, IH. change (length linkBlock) with 13%nat. lia.
Qed.

Lemma parseLinksFromSnapshot_manyLinks (n : nat) :
  Pinchtab.parseLinksFromSnapshot (string_of_list_ascii (manyLinks n))
  = repeat (mkLink "a" "http://b") n.
Proof.
  unfold Pinchtab.parseLinksFromSnapshot, Pinchtab.str.
  rewrite list_ascii_of_string_of_list_ascii.
  apply parseLinksL_manyLinks. rewrite manyLinks_length. lia.
Qed.

(** C6: the remote-service backend does not cut its list of links: for
    every count there is a snapshot from which [getPageInfo] returns more
    links than that, all of those the snapshot declares; with 31 links it
    returns one more than the local engine ever does. *)
Theorem getPageInfo_links_unbounded :
  (forall bound : nat, exists info,
      Pinchtab.getPageInfo "https://example.com/" (crowded (S bound)) = inr info
      /\ (bound < length (links info))%nat)
  /\ (exists info,
        Pinchtab.getPageInfo "https://example.com/" (crowded 31) = inr info
        /\ length (links info) = 31%nat).
Proof.
  assert (H : forall n, exists info,
             Pinchtab.getPageInfo "https://example.com/" (crowded n) = inr info
             /\ length (links info) = n).
  { intros n. unfold Pinchtab.getPageInfo, crowded.
    cbn [Pinchtab.pinchtabFetch Pinchtab.text_body Pinchtab.snapshot_body
         Pinchtab.joinLines List.map Pinchtab.content].
    eexists. split; [reflexivity |]. cbn [links].
    rewrite parseLinksFromSnapshot_manyLinks. apply repeat_length. }
  split.
  - intros bound. destruct (H (S bound)) as (info & Hi & Hl).
    exists info. split; [exact Hi | lia].
  - apply H.
Qed.

(** ** The URL the remote-service backend reports *)

Lemma currentUrl_snoc (h : Pinchtab.urlHistory) (u : string) :
  Pinchtab.currentUrl (h ++ [u]) = u.
Proof. unfold Pinchtab.currentUrl. apply last_last. Qed.

Lemma getPageInfo_url (u : string) (srv : Pinchtab.Service) (info : PageInfo) :
  Pinchtab.getPageInfo u srv = inr info -> url info = u.
Proof.
  unfold Pinchtab.getPageInfo.
  destruct (Pinchtab.pinchtabFetch "/text" _); [discriminate |].
  intros [= <-]. reflexivity.
Qed.

(** C10, as stated, fails: after [navigate(a)], [navigate(b)] and
    [back()], [click] reports [a], not the argument of the most recent
    [navigate]; and after a [navigate(b)] that the service refused, [click]
    reports [a] as well. *)
Lemma click_url_is_not_last_navigate_argument :
  (exists info,
      snd (Pinchtab.click afterBack "0" obliging) = inr info
      /\ url info = "https://a.example/"
      /\ url info <> "https://b.example/")
  /\ (exists info,
        snd (Pinchtab.click afterRefusal "0" obliging) = inr info
        /\ url info = "https://a.example/"
        /\ url info <> "https://b.example/").
Proof.
  split; exists pageAtA; (split; [reflexivity | split; [reflexivity | discriminate]]).
Qed.

(** C10, amended: [click] and [type] leave the URL history of the
    backend as it is, whether they return a page or raise, and the [url] of
    the [PageInfo] they return is the last entry of that history (the empty
    string when the history is empty); [navigate] appends its argument when
    the service accepts the request and leaves the history alone when it
    does not; an accepted [back] removes the last entry while more than one
    is left, and a refused one leaves the history alone. *)
Theorem pinchtab_url_is_top_of_history
  (h : Pinchtab.urlHistory) (r t : string) (srv : Pinchtab.Service) :
  fst (Pinchtab.click h r srv) = h
  /\ fst (Pinchtab.type h r t srv) = h
  /\ (forall info,
        snd (Pinchtab.click h r srv) = inr info
        \/ snd (Pinchtab.type h r t srv) = inr info ->
        url info = Pinchtab.currentUrl h)
  /\ Pinchtab.currentUrl [] = ""
  /\ (forall u, Pinchtab.currentUrl (h ++ [u]) = u)
  /\ (forall u srv',
        fst (Pinchtab.navigate h u srv')
        = match Pinchtab.instruction srv' with
          | Pinchtab.Answer _ => h ++ [u]
          | _ => h
          end)
  /\ (forall srv',
        fst (Pinchtab.back h srv')
        = match Pinchtab.instruction srv' with
          | Pinchtab.Answer _ => if (1 <? length h)%nat then removelast h else h
          | _ => h
          end).
Proof.
  split; [| split; [| split; [| split; [| split; [| split]]]]].
  - unfold Pinchtab.click. destruct (Pinchtab.pinchtabFetch "/action" _); reflexivity.
  - unfold Pinchtab.type. destruct (Pinchtab.pinchtabFetch "/action" _); reflexivity.
  - intros info H. unfold Pinchtab.click, Pinchtab.type in H.
    destruct (Pinchtab.pinchtabFetch "/action" _) in H.
    + destruct H as [H | H]; discriminate.
    + destruct H as [H | H]; exact (getPageInfo_url _ _ _ H).
  - reflexivity.
  - apply currentUrl_snoc.
  - intros u srv'. unfold Pinchtab.navigate.
    destruct (Pinchtab.instruction srv'); reflexivity.
  - intros srv'. unfold Pinchtab.back.
    destruct (Pinchtab.instruction srv'); reflexivity.
Qed.

Lemma pinchtab_url_is_top_of_history_witness :
  snd (Pinchtab.click afterBack "0" obliging) = inr pageAtA
  /\ fst (Pinchtab.click afterBack "0" obliging) = afterBack
  /\ url pageAtA = Pinchtab.currentUrl afterBack.
Proof.
  assert (H : snd (Pinchtab.click afterBack "0" obliging) = inr pageAtA)
    by reflexivity.
  destruct (pinchtab_url_is_top_of_history afterBack "0" "x" obliging)
    as (Hc & _ & Hu & _).
  split; [exact H |]. split; [exact Hc |].
  exact (Hu pageAtA (or_introl H)).
Defined.

(** ** References and [click] *)

Lemma validIndex_validateNumericRef (r : string) :
  Playwright.validIndex r = option_map Z.to_nat (validateNumericRef r).
Proof.
  unfold Playwright.validIndex, validateNumericRef.
  destruct (JS.parseInt10 r) as [i |]; [| reflexivity].
  destruct (i <? 0); reflexivity.
Qed.

Lemma ensurePage_error (e e1 : Playwright.Engine) (w : Playwright.Reaction) (err : Error) :
  Playwright.ensurePage e w = (e1, inl err) -> err = EngineRejected.
Proof.
  unfold Playwright.ensurePage.
  destruct (Playwright.page e) as [p |];
    [destruct (negb (Playwright.closed p)) |];
    destruct (Playwright.browser e), (Playwright.launches w);
    intros [= <- <-] || intros [= <-] || discriminate; reflexivity.
Qed.

(** C4, as stated, fails: the local engine has loaded a page with one
    link; [click("5")] raises nothing and returns the page as it is. *)
Lemma click_beyond_links_is_not_rejected :
  snd (BrowserBackend.navigate createPlaywrightBackend "https://example.com/"
         (mkWorld obliging (loading home)))
  = inr (Playwright.extractPageInfo home)
  /\ length (links (Playwright.extractPageInfo home)) = 1%nat
  /\ validateNumericRef "5" = Some 5
  /\ BrowserBackend.click (PlaywrightBackend atHome) "5"
       (mkWorld obliging (loading home))
     = (PlaywrightBackend atHome, inr (Playwright.extractPageInfo home)).
Proof. repeat split; reflexivity. Qed.

(** C4, amended: [click(ref)] never raises the reference error for a
    [ref] that [parseInt] reads as a non-negative integer, whether that
    integer is within the links or not. On the local engine an index with
    no link under it leaves the page alone and the call returns the page
    re-extracted; the remote-service backend fails exactly when the service
    does not accept the instruction or does not serve the page text. *)
Theorem click_does_not_check_the_range
  (b : Backend) (r : string) (w : World) (n : Z) :
  validateNumericRef r = Some n ->
  snd (BrowserBackend.click b r w) <> inl RefNotANumber
  /\ (forall e e1 p,
        b = PlaywrightBackend e ->
        Playwright.ensurePage e (reaction w) = (e1, inr p) ->
        nth_error (List.filter Playwright.isRealLink
                     (Playwright.anchors (Playwright.doc p))) (Z.to_nat n) = None ->
        BrowserBackend.click b r w
        = (PlaywrightBackend (Playwright.mkEngine (Playwright.browser e1) (Some p)),
           inr (Playwright.extractPageInfo (Playwright.doc p))))
  /\ (forall h,
        b = PinchtabBackend h ->
        (exists e, snd (BrowserBackend.click b r w) = inl e)
        <-> (Pinchtab.instruction (service w) <> Pinchtab.Answer tt
             \/ forall body, Pinchtab.text_body (service w) <> Pinchtab.Answer body)).
Proof.
  intros Hv. repeat split.
  - destruct b as [h | e]; simpl.
    + unfold Pinchtab.click, Pinchtab.getPageInfo.
      destruct (Pinchtab.instruction (service w)); simpl; try discriminate.
      destruct (Pinchtab.text_body (service w)); simpl; discriminate.
    + unfold Playwright.click.
      destruct (Playwright.ensurePage e (reaction w)) as [e1 [err | p]] eqn:He; simpl.
      * apply ensurePage_error in He. subst err. discriminate.
      * rewrite validIndex_validateNumericRef, Hv. simpl.
        destruct (nth_error _ _) as [a |];
          [destruct (Playwright.clicked (reaction w) a) |]; simpl; discriminate.
  - intros e e1 p -> He Hn. simpl. unfold Playwright.click.
    rewrite He, validIndex_validateNumericRef, Hv. simpl. rewrite Hn. reflexivity.
  - subst b. simpl. unfold Pinchtab.click, Pinchtab.getPageInfo.
    destruct (Pinchtab.instruction (service w)) as [[] | |]; simpl.
    + destruct (Pinchtab.text_body (service w)); simpl.
      * intros [e He]. discriminate.
      * intros _. right. discriminate.
      * intros _. right. discriminate.
    + intros _. left. discriminate.
    + intros _. left. discriminate.
  - subst b. simpl. unfold Pinchtab.click, Pinchtab.getPageInfo.
    destruct (Pinchtab.instruction (service w)) as [[] | |]; simpl; eauto.
    destruct (Pinchtab.text_body (service w)); simpl; eauto.
    intros [H | H]; [congruence | exfalso; eapply H; reflexivity].
Qed.

Lemma click_does_not_check_the_range_witness :
  validateNumericRef "5" = Some 5
  /\ snd (BrowserBackend.click (PlaywrightBackend atHome) "5"
            (mkWorld obliging (loading home))) <> inl RefNotANumber.
Proof.
  split; [reflexivity |].
  apply (click_does_not_check_the_range (PlaywrightBackend atHome) "5"
           (mkWorld obliging (loading home)) 5).
  reflexivity.
Defined.

(** The local engine raises the reference error exactly for a [ref] that
    [parseInt] does not read as a non-negative integer, once it has a page. *)
Lemma playwright_click_rejects_unparsable
  (e e1 : Playwright.Engine) (p : Playwright.Page) (r : string) (w : Playwright.Reaction) :
  Playwright.ensurePage e w = (e1, inr p) ->
  validateNumericRef r = None ->
  Playwright.click e r w = (e1, inl RefNotANumber).
Proof.
  intros He Hv. unfold Playwright.click.
  rewrite He, validIndex_validateNumericRef, Hv. reflexivity.
Qed.

(** ** [back] with nothing to go back to *)

(** C7, as stated, fails: a fresh remote-service backend whose service
    answers the back instruction with status 500 raises; so does a fresh
    local engine whose browser does not launch. *)
Lemma back_raises_when_the_service_refuses :
  nothingToGoBackTo createPinchtabBackend
  /\ BrowserBackend.back createPinchtabBackend (mkWorld refusing (loading home))
     = (createPinchtabBackend, inl (PinchtabFailed "/navigate" 500))
  /\ nothingToGoBackTo createPlaywrightBackend
  /\ BrowserBackend.back createPlaywrightBackend (mkWorld obliging neverLaunches)
     = (createPlaywrightBackend, inl EngineRejected).
Proof.
  split; [simpl; lia |]. split; [reflexivity |].
  split; [intros p H; discriminate H | reflexivity].
Qed.

(** C7, amended: with nothing to go back to, [back()] does not fail for
    that reason, and it raises when the outside fails it.

    Remote-service backend, at most one entry in the URL history: when the
    service accepts the back instruction and serves the page text, [back()]
    returns the page of the current URL (the last entry of the history, the
    empty string when there is none) and leaves the history as it is; when
    the service does not accept the instruction or does not serve the text,
    [back()] raises and leaves the history as it is.

    Local engine, no history behind the open page: when [ensurePage] gives
    a page, [back()] returns that page re-extracted, whether [goBack]
    rejects or not, and the backend holds that page afterwards; a backend
    with an open page is left as it is, a backend without one now holds a
    browser and a blank page. When [ensurePage] fails, [back()] raises with
    its error. *)
Theorem back_with_nothing_to_go_back_to (b : Backend) (w : World) :
  nothingToGoBackTo b ->
  match b with
  | PinchtabBackend h =>
      (forall body,
         Pinchtab.instruction (service w) = Pinchtab.Answer tt ->
         Pinchtab.text_body (service w) = Pinchtab.Answer body ->
         exists info,
           BrowserBackend.back b w = (b, inr info)
           /\ Pinchtab.getPageInfo (Pinchtab.currentUrl h) (service w) = inr info
           /\ url info = Pinchtab.currentUrl h)
      /\ (Pinchtab.instruction (service w) <> Pinchtab.Answer tt
          \/ (forall body, Pinchtab.text_body (service w) <> Pinchtab.Answer body) ->
          exists err, BrowserBackend.back b w = (b, inl err))
  | PlaywrightBackend e =>
      match Playwright.ensurePage e (reaction w) with
      | (e1, inr p) =>
          BrowserBackend.back b w
          = (PlaywrightBackend
               (Playwright.mkEngine (Playwright.browser e1) (Some p)),
             inr (Playwright.extractPageInfo (Playwright.doc p)))
          /\ (forall q, Playwright.page e = Some q -> Playwright.closed q = false ->
                        p = q /\ fst (BrowserBackend.back b w) = b)
          /\ ((forall q, Playwright.page e = Some q -> Playwright.closed q = true) ->
              p = Playwright.mkPageState false Playwright.blank []
              /\ Playwright.browser e1 = true)
      | (e1, inl err) => BrowserBackend.back b w = (PlaywrightBackend e1, inl err)
      end
  end.
Proof.
  destruct b as [h | e]; cbn [nothingToGoBackTo BrowserBackend.back].
  - intros Hlen.
    assert (Hh : (if (1 <? length h)%nat then removelast h else h) = h)
      by (replace (1 <? length h)%nat with false
            by (symmetry; apply Nat.ltb_ge; exact Hlen); reflexivity).
    split.
    + intros body Hi Hb. unfold Pinchtab.back. rewrite Hi. cbn -[Nat.ltb].
      rewrite Hh. unfold Pinchtab.getPageInfo. rewrite Hb. simpl.
      eexists. repeat split; reflexivity.
    + intros H. unfold Pinchtab.back.
      destruct (Pinchtab.instruction (service w)) as [[] | status |] eqn:Hi;
        cbn -[Nat.ltb]; eauto.
      rewrite Hh. unfold Pinchtab.getPageInfo.
      destruct (Pinchtab.text_body (service w)) as [body | status |] eqn:Hb;
        simpl; eauto.
      destruct H as [H | H]; [destruct (H eq_refl) | destruct (H body eq_refl)].
  - intros Hnone. unfold Playwright.back.
    destruct (Playwright.ensurePage e (reaction w)) as [e1 [err | p]] eqn:He;
      cbn [BrowserBackend.lift fst snd]; [reflexivity |].
    assert (Hp : Playwright.history p = []).
    { revert He. unfold Playwright.ensurePage.
      destruct (Playwright.page e) as [q |] eqn:Hq;
        [destruct (Playwright.closed q) eqn:Hc; cbn [negb] |];
        repeat match goal with
               | |- context [if ?c then _ else _] => destruct c
               end;
        intros [= <- <-] || discriminate; try reflexivity.
      exact (Hnone q eq_refl Hc). }
    assert (Hg : Playwright.goBack p (reaction w) = p).
    { unfold Playwright.goBack. rewrite Hp.
      destruct (Playwright.back_rejects (reaction w)); reflexivity. }
    rewrite Hg. cbn [Playwright.shows fst snd]. split; [reflexivity |]. split.
    + intros q Hq Hc. revert He. unfold Playwright.ensurePage.
      rewrite Hq, Hc. cbn [negb]. intros [= <- <-].
      split; [reflexivity |]. destruct e as [br pg]. cbn in *. rewrite Hq. reflexivity.
    + intros Hclosed. revert He. unfold Playwright.ensurePage.
      destruct (Playwright.page e) as [q |] eqn:Hq;
        [rewrite (Hclosed q eq_refl); cbn [negb] |];
        repeat match goal with
               | |- context [if ?c then _ else _] => destruct c
               end;
        intros [= <- <-] || discriminate; split; reflexivity.
Qed.

Lemma back_with_nothing_to_go_back_to_witness :
  (nothingToGoBackTo createPinchtabBackend
   /\ exists info,
        BrowserBackend.back createPinchtabBackend (mkWorld obliging (loading home))
        = (createPinchtabBackend, inr info)
        /\ url info = "")
  /\ (nothingToGoBackTo createPlaywrightBackend
      /\ BrowserBackend.back createPlaywrightBackend (mkWorld obliging (loading home))
         = (PlaywrightBackend
              (Playwright.mkEngine true
                 (Some (Playwright.mkPageState false Playwright.blank []))),
            inr (Playwright.extractPageInfo Playwright.blank)))
  /\ (nothingToGoBackTo createPlaywrightBackend
      /\ BrowserBackend.back createPlaywrightBackend (mkWorld obliging neverLaunches)
         = (createPlaywrightBackend, inl EngineRejected)).
Proof.
  assert (H1 : nothingToGoBackTo createPinchtabBackend) by (simpl; lia).
  assert (H2 : nothingToGoBackTo createPlaywrightBackend)
    by (intros p H; discriminate H).
  split; [split; [exact H1 |] | split; (split; [exact H2 |])].
  - destruct (proj1 (back_with_nothing_to_go_back_to createPinchtabBackend
                       (mkWorld obliging (loading home)) H1)
                (String.append "Title" (String Pinchtab.newline "body")) eq_refl eq_refl) as (info & Hb & _ & Hu).
    exists info. split; [exact Hb | exact Hu].
  - exact (proj1 (back_with_nothing_to_go_back_to createPlaywrightBackend
                    (mkWorld obliging (loading home)) H2)).
  - exact (back_with_nothing_to_go_back_to createPlaywrightBackend
             (mkWorld obliging neverLaunches) H2).
Defined.

(** The remote-service backend raises as soon as the service does not
    accept the back instruction, whatever its history. *)
Lemma pinchtab_back_raises_on_refusal (h : Pinchtab.urlHistory) (srv : Pinchtab.Service) :
  (forall u, Pinchtab.instruction srv <> Pinchtab.Answer u) ->
  exists e, Pinchtab.back h srv = (h, inl e).
Proof.
  intros H. unfold Pinchtab.back.
  destruct (Pinchtab.instruction srv) as [u | |]; simpl; eauto.
  destruct (H u eq_refl).
Qed.

(** ** The session pool *)

Lemma evictSession_eq (env : Env) (k : Z) (st : State) :
  snd (evictSession env k st)
  = match sessions_get k (sessions st) with
    | None => st
    | Some e =>
        mkState (sessions_delete k (sessions st)) (delete k (pageCache st))
                (detectionPromise st) (delete (timer e) (timers st))
                (nextTimer st)
                (trace st ++ [TimerCleared (timer e); CleanedUp k;
                              SessionDeleted k; CacheDeleted k])
    end.
Proof.
  unfold evictSession, bind, get. simpl.
  destruct (sessions_get k (sessions st)) as [e |]; [| reflexivity].
  unfold cleanupOutcome. destruct (cleanup_rejects env); simpl;
    rewrite <- !app_assoc; reflexivity.
Qed.

Lemma sessions_get_delete_eq (k : Z) (m : list (Z * SessionEntry)) :
  sessions_get k (sessions_delete k m) = None.
Proof.
  induction m as [| [k' e] m IH]; [reflexivity |].
  unfold sessions_delete in *. simpl.
  destruct (k' =? k) eqn:E; simpl; [exact IH |]. rewrite E. exact IH.
Qed.

Lemma sessions_get_delete_ne (k k' : Z) (m : list (Z * SessionEntry)) :
  k' <> k -> sessions_get k' (sessions_delete k m) = sessions_get k' m.
Proof.
  intros Hne. induction m as [| [k0 e] m IH]; [reflexivity |].
  unfold sessions_delete in *. simpl.
  destruct (k0 =? k) eqn:E; simpl.
  - apply Z.eqb_eq in E. subst k0.
    replace (k =? k') with false by (symmetry; apply Z.eqb_neq; congruence).
    exact IH.
  - destruct (k0 =? k'); [reflexivity | exact IH].
Qed.

Lemma sessions_delete_absent (k : Z) (m : list (Z * SessionEntry)) :
  sessions_get k m = None -> sessions_delete k m = m.
Proof.
  induction m as [| [k' e] m IH]; [reflexivity |].
  unfold sessions_delete in *. simpl.
  destruct (k' =? k); [discriminate |]. simpl. intros H. f_equal. auto.
Qed.

Lemma sessions_delete_length (k : Z) (m : list (Z * SessionEntry)) :
  (length (sessions_delete k m) <= length m)%nat.
Proof. unfold sessions_delete. apply List.filter_length_le. Qed.

Lemma sessions_delete_shorter (k : Z) (e : SessionEntry) (m : list (Z * SessionEntry)) :
  sessions_get k m = Some e ->
  (length (sessions_delete k m) < length m)%nat.
Proof.
  induction m as [| [k' e'] m IH]; [discriminate |].
  unfold sessions_delete in *. simpl.
  destruct (k' =? k); simpl.
  - intros _. pose proof (List.filter_length_le (fun p => negb (fst p =? k)) m). lia.
  - intros H. specialize (IH H). lia.
Qed.

Lemma sessions_get_set_eq (k : Z) (e : SessionEntry) (m : list (Z * SessionEntry)) :
  sessions_get k (sessions_set k e m) = Some e.
Proof.
  induction m as [| [k' e'] m IH]; simpl.
  - rewrite Z.eqb_refl. reflexivity.
  - destruct (k' =? k) eqn:E; simpl.
    + rewrite Z.eqb_refl. reflexivity.
    + rewrite E. exact IH.
Qed.

Lemma sessions_get_set_ne (k k' : Z) (e : SessionEntry) (m : list (Z * SessionEntry)) :
  k' <> k -> sessions_get k' (sessions_set k e m) = sessions_get k' m.
Proof.
  intros Hne. induction m as [| [k0 e0] m IH]; simpl.
  - replace (k =? k') with false by (symmetry; apply Z.eqb_neq; congruence).
    reflexivity.
  - destruct (k0 =? k) eqn:E; simpl.
    + apply Z.eqb_eq in E. subst k0.
      replace (k =? k') with false by (symmetry; apply Z.eqb_neq; congruence).
      reflexivity.
    + destruct (k0 =? k'); [reflexivity | exact IH].
Qed.

Lemma sessions_set_keys (k : Z) (e : SessionEntry) (m : list (Z * SessionEntry)) :
  (sessions_set k e m).*1
  = match sessions_get k m with
    | Some _ => m.*1
    | None => m.*1 ++ [k]
    end.
Proof.
  induction m as [| [k' e'] m IH]; [reflexivity |].
  cbn [sessions_set sessions_get].
  destruct (k' =? k) eqn:E; rewrite !fmap_cons.
  - apply Z.eqb_eq in E. subst. reflexivity.
  - rewrite IH. destruct (sessions_get k m); reflexivity.
Qed.

Lemma sessions_get_absent (k : Z) (m : list (Z * SessionEntry)) :
  sessions_get k m = None <-> k ∉ m.*1.
Proof.
  induction m as [| [k' e'] m IH]; simpl.
  - split; [intros _; apply not_elem_of_nil | reflexivity].
  - rewrite not_elem_of_cons. destruct (Z.eqb_spec k' k).
    + split; [discriminate | intros [H _]; congruence].
    + rewrite IH. split; [intros H; split; [congruence | exact H] | tauto].
Qed.

Lemma sessions_get_elem_of (k : Z) (e : SessionEntry) (m : list (Z * SessionEntry)) :
  NoDup m.*1 -> (k, e) ∈ m -> sessions_get k m = Some e.
Proof.
  induction m as [| [k' e'] m IH]; simpl.
  - intros _ H. inversion H.
  - intros [Hn Hnd]%NoDup_cons [H | H]%elem_of_cons.
    + injection H as -> ->. rewrite Z.eqb_refl. reflexivity.
    + destruct (Z.eqb_spec k' k) as [-> | _]; [| auto].
      exfalso. apply Hn. apply list_elem_of_fmap. exists (k, e). auto.
Qed.

Lemma sessions_get_Some_elem_of (k : Z) (e : SessionEntry) (m : list (Z * SessionEntry)) :
  sessions_get k m = Some e -> (k, e) ∈ m.
Proof.
  induction m as [| [k' e'] m IH]; simpl; [discriminate |].
  destruct (Z.eqb_spec k' k) as [-> | _].
  - intros [= ->]. apply elem_of_cons. auto.
  - intros H. apply elem_of_cons. auto.
Qed.

Lemma sessions_set_length (k : Z) (e : SessionEntry) (m : list (Z * SessionEntry)) :
  length (sessions_set k e m)
  = match sessions_get k m with
    | Some _ => length m
    | None => S (length m)
    end.
Proof.
  rewrite <- (length_fmap fst (sessions_set k e m)), sessions_set_keys.
  destruct (sessions_get k m); rewrite ?length_app, length_fmap; simpl; lia.
Qed.

Lemma sessions_set_NoDup (k : Z) (e : SessionEntry) (m : list (Z * SessionEntry)) :
  NoDup m.*1 -> NoDup (sessions_set k e m).*1.
Proof.
  intros H. rewrite sessions_set_keys.
  destruct (sessions_get k m) eqn:E; [exact H |].
  apply sessions_get_absent in E.
  apply NoDup_app. repeat split; [exact H | | apply NoDup_singleton].
  intros x Hx ->%list_elem_of_singleton. exact (E Hx).
Qed.

Lemma sessions_delete_NoDup (k : Z) (m : list (Z * SessionEntry)) :
  NoDup m.*1 -> NoDup (sessions_delete k m).*1.
Proof.
  induction m as [| [k' e'] m IH]; simpl; [auto |].
  intros [Hn Hnd]%NoDup_cons.
  unfold sessions_delete in *. simpl. destruct (k' =? k); simpl; [auto |].
  apply NoDup_cons. split; [| auto].
  intros Hin. apply Hn.
  apply list_elem_of_fmap in Hin as ([k0 e0] & -> & Hin).
  apply list_elem_of_In, filter_In in Hin as [Hin _].
  apply list_elem_of_fmap. exists (k0, e0). split; [reflexivity |].
  apply list_elem_of_In. exact Hin.
Qed.

Lemma insertByLastUsed_elem_of (x y : Z * SessionEntry) (l : list (Z * SessionEntry)) :
  y ∈ insertByLastUsed x l <-> y = x \/ y ∈ l.
Proof.
  induction l as [| z l IH]; simpl.
  - rewrite list_elem_of_singleton. split; [auto | intros [H | H]; [auto | inversion H]].
  - destruct (_ <=? 0).
    + apply elem_of_cons.
    + rewrite !elem_of_cons, IH. tauto.
Qed.

Lemma sortByLastUsed_elem_of (y : Z * SessionEntry) (l : list (Z * SessionEntry)) :
  y ∈ sortByLastUsed l <-> y ∈ l.
Proof.
  induction l as [| x l IH]; simpl; [reflexivity |].
  rewrite insertByLastUsed_elem_of, elem_of_cons, IH. reflexivity.
Qed.

(** The first entry of the sorted list is one of the entries, and none
    has a smaller [lastUsed]. *)
Lemma sortByLastUsed_head (l : list (Z * SessionEntry)) :
  match sortByLastUsed l with
  | oldest :: _ =>
      oldest ∈ l /\ forall x, x ∈ l -> lastUsed (snd oldest) <= lastUsed (snd x)
  | [] => l = []
  end.
Proof.
  induction l as [| x l IH]; simpl; [reflexivity |].
  destruct (sortByLastUsed l) as [| o r] eqn:E; simpl.
  - subst l. split; [apply elem_of_cons; auto |].
    intros y [-> | H]%elem_of_cons; [lia | inversion H].
  - destruct IH as [Ho Hmin].
    destruct (Z.leb_spec (lastUsed (snd x) - lastUsed (snd o)) 0) as [Hle | Hgt].
    + split; [apply elem_of_cons; auto |].
      intros y [-> | H]%elem_of_cons; [lia |]. specialize (Hmin y H). lia.
    + split; [apply elem_of_cons; auto |].
      intros y [-> | H]%elem_of_cons; [lia | auto].
Qed.

Lemma roomMade_run (env : Env) (st : State) :
  (if (MAX_SESSIONS <=? length (sessions st))%nat
   then match sortByLastUsed (sessions st) with
        | [] => ret tt
        | oldest :: _ => evictSession env (fst oldest)
        end
   else ret tt) st = (tt, roomMade env st).
Proof.
  unfold roomMade. destruct (_ <=? _)%nat; [| reflexivity].
  destruct (sortByLastUsed (sessions st)) as [| o r]; [reflexivity |].
  destruct (evictSession env (fst o) st) as [u s]. destruct u. reflexivity.
Qed.

Lemma roomMade_same (env : Env) (st : State) :
  detectionPromise (roomMade env st) = detectionPromise st
  /\ nextTimer (roomMade env st) = nextTimer st.
Proof.
  unfold roomMade. destruct (_ <=? _)%nat; [| auto].
  destruct (sortByLastUsed (sessions st)) as [| o r]; [auto |].
  rewrite evictSession_eq. destruct (sessions_get _ _); auto.
Qed.

Lemma getSession_eq (env : Env) (k : Z) (st : State) :
  getSession env k st
  = match sessions_get k (sessions st) with
    | Some e =>
        (backend e,
         mkState (sessions_set k (mkEntry (backend e) (now env) (nextTimer st))
                               (sessions st))
                 (pageCache st) (detectionPromise st)
                 (<[nextTimer st := k]> (delete (timer e) (timers st)))
                 (S (nextTimer st))
                 (trace st ++ [TimerCleared (timer e); TimerSet (nextTimer st) k]))
    | None =>
        let st1 := roomMade env st in
        let kind := selected env st in
        (create kind,
         mkState (sessions_set k (mkEntry (create kind) (now env) (nextTimer st))
                               (sessions st1))
                 (pageCache st1) (Some kind)
                 (<[nextTimer st := k]> (timers st1))
                 (S (nextTimer st))
                 (trace st1
                    ++ match detectionPromise st with
                       | None => [Probed]
                       | Some _ => []
                       end
                    ++ [Created k kind; TimerSet (nextTimer st) k]))
    end.
Proof.
  unfold getSession, bind, get. cbn -[Nat.leb MAX_SESSIONS].
  destruct (sessions_get k (sessions st)) as [e |] eqn:Hk.
  - simpl. rewrite <- !app_assoc. reflexivity.
  - rewrite roomMade_run.
    destruct (roomMade_same env st) as [Hd Hn].
    unfold detectBackend, bind, get, selected. simpl. rewrite Hd.
    destruct (detectionPromise st) as [p |]; simpl;
      rewrite ?Hn, ?Hd, <- ?app_assoc; simpl.
    + destruct p; reflexivity.
    + destruct (Pinchtab.isPinchtabAvailable (health env)); reflexivity.
Qed.

(** ** Handlers keep what their steps keep *)

Lemma keeps_ret {A} (I : State -> Prop) (a : A) : keeps I (ret a).
Proof. intros st H. exact H. Qed.

Lemma keeps_get (I : State -> Prop) : keeps I get.
Proof. intros st H. exact H. Qed.

Lemma keeps_bind {A B} (I : State -> Prop) (m : M A) (k : A -> M B) :
  keeps I m -> (forall a, keeps I (k a)) -> keeps I (bind m k).
Proof.
  intros Hm Hk st H. unfold bind.
  specialize (Hm st H). destruct (m st) as [a st']. exact (Hk a st' Hm).
Qed.

Lemma Stable_guarded (I : State -> Prop) :
  Stable handlerEvent I -> Stable guardedEvent I.
Proof.
  intros (He & H). split; [| exact H].
  intros e Pe. apply He. destruct e; simpl in *; auto.
Qed.

Ltac keep_step HS :=
  first
    [ apply keeps_ret
    | apply keeps_get
    | apply (proj1 HS); simpl; solve [auto]
    | apply (proj1 (proj2 HS))
    | apply (proj1 (proj2 (proj2 HS)))
    | apply (proj1 (proj2 (proj2 (proj2 HS))))
    | apply (proj1 (proj2 (proj2 (proj2 (proj2 HS)))))
    | apply (proj2 (proj2 (proj2 (proj2 (proj2 HS)))))
    | apply keeps_bind; [| intros ?]
    | match goal with
      | |- keeps _ (if negb (isUrlSafe ?u) then _ else _) =>
          destruct (isUrlSafe u) eqn:?; simpl negb; cbv iota
      | |- keeps _ (if ?b then _ else _) => destruct b
      | |- keeps _ (match ?x with _ => _ end) => destruct x
      end ].

Ltac keep HS := unfold say, showOrFail, cacheSet; repeat keep_step HS.

Lemma handleClick_keeps (I : State -> Prop) (env : Env) (k : Z) (r : string) :
  Stable guardedEvent I -> keeps I (handleClick env k r).
Proof. intros HS. unfold handleClick. keep HS. Qed.

Lemma handleType_keeps (I : State -> Prop) (env : Env) (k : Z) (a : string) :
  Stable guardedEvent I -> keeps I (handleType env k a).
Proof. intros HS. unfold handleType. keep HS. Qed.

Lemma handleBack_keeps (I : State -> Prop) (env : Env) (k : Z) :
  Stable guardedEvent I -> keeps I (handleBack env k).
Proof. intros HS. unfold handleBack. keep HS. Qed.

Lemma handleScreenshot_keeps (I : State -> Prop) (env : Env) (k : Z) :
  Stable guardedEvent I -> keeps I (handleScreenshot env k).
Proof. intros HS. unfold handleScreenshot. keep HS. Qed.

(** The command handler emits a [navigate] only behind the guard. *)
Lemma browseCommand_keeps (I : State -> Prop) (env : Env) (ctx : Ctx) :
  Stable guardedEvent I -> keeps I (browseCommand env ctx).
Proof.
  intros HS. unfold browseCommand.
  destruct (chat_id ctx) as [k |]; [| apply keeps_ret].
  destruct (k =? 0); [apply keeps_ret |].
  cbv zeta.
  repeat match goal with
         | |- keeps _ (if negb (isUrlSafe ?u) then _ else _) => fail 1
         | |- keeps _ (if ?b then _ else _) => destruct b
         end;
    auto using handleClick_keeps, handleType_keeps, handleBack_keeps,
               handleScreenshot_keeps.
  - keep HS.
  - keep HS.
Qed.

Lemma handleCallback_keeps (I : State -> Prop) (env : Env) (ctx : Ctx) (data : string) :
  Stable handlerEvent I -> keeps I (handleCallback env ctx data).
Proof.
  intros HS. unfold handleCallback.
  destruct (negb _); [apply keeps_ret |].
  destruct (chat_id ctx) as [k |]; [| apply keeps_ret].
  destruct (k =? 0); [apply keeps_ret |].
  cbv zeta. keep HS.
Qed.

Lemma timerFires_keeps (P : Event -> Prop) (I : State -> Prop) (env : Env) (t : nat) :
  Stable P I -> keeps I (timerFires env t).
Proof. intros HS. unfold timerFires. keep HS. Qed.

(** An invariant of the steps and of the teardown is an invariant of the
    machine. *)
Lemma run_keeps (I : State -> Prop) (inputs : list (Env * Input)) (st : State) :
  Stable handlerEvent I -> keeps I pluginCleanup ->
  I st -> I (run inputs st).
Proof.
  intros HS HT. revert st.
  induction inputs as [| [env i] inputs IH]; intros st H; [exact H |].
  simpl. apply IH. destruct i as [ctx | ctx data | t |]; simpl.
  - apply browseCommand_keeps; [apply Stable_guarded |]; assumption.
  - apply keeps_bind; [| intros ?; apply keeps_ret | assumption].
    apply handleCallback_keeps. assumption.
  - eapply timerFires_keeps; eassumption.
  - apply HT. assumption.
Qed.

(** ** Capacity *)

Lemma evictSession_sessions (env : Env) (k : Z) (st : State) :
  sessions (snd (evictSession env k st)) = sessions_delete k (sessions st).
Proof.
  rewrite evictSession_eq.
  destruct (sessions_get k (sessions st)) eqn:E; [reflexivity |].
  symmetry. apply sessions_delete_absent. exact E.
Qed.

Lemma roomMade_sessions (env : Env) (st : State) :
  sessions (roomMade env st)
  = if (MAX_SESSIONS <=? length (sessions st))%nat then
      match sortByLastUsed (sessions st) with
      | oldest :: _ => sessions_delete (fst oldest) (sessions st)
      | [] => sessions st
      end
    else sessions st.
Proof.
  unfold roomMade. destruct (_ <=? _)%nat; [| reflexivity].
  destruct (sortByLastUsed (sessions st)); [reflexivity |].
  apply evictSession_sessions.
Qed.

Lemma sessions_get_elem_of_Some (x : Z * SessionEntry) (m : list (Z * SessionEntry)) :
  x ∈ m -> exists e, sessions_get (fst x) m = Some e.
Proof.
  induction m as [| [k' e'] m IH]; intros H; [inversion H |].
  simpl. destruct (Z.eqb_spec k' (fst x)); [eauto |].
  apply elem_of_cons in H as [-> | H]; [simpl in *; congruence | auto].
Qed.

(** Once room is made, fewer than the capacity are left. *)
Lemma roomMade_length (env : Env) (st : State) :
  (length (sessions st) <= MAX_SESSIONS)%nat ->
  (length (sessions (roomMade env st)) < MAX_SESSIONS)%nat.
Proof.
  intros Hle. rewrite roomMade_sessions.
  destruct (Nat.leb_spec MAX_SESSIONS (length (sessions st))) as [Hfull | Hroom];
    [| exact Hroom].
  pose proof (sortByLastUsed_head (sessions st)) as Hh.
  destruct (sortByLastUsed (sessions st)) as [| o r].
  - rewrite Hh in Hfull. unfold MAX_SESSIONS in Hfull. simpl in Hfull. lia.
  - destruct Hh as [Ho _].
    destruct (sessions_get_elem_of_Some o _ Ho) as [e He].
    pose proof (sessions_delete_shorter _ _ _ He). lia.
Qed.

Lemma roomMade_absent (env : Env) (k : Z) (st : State) :
  sessions_get k (sessions st) = None ->
  sessions_get k (sessions (roomMade env st)) = None.
Proof.
  intros Hk. rewrite roomMade_sessions.
  destruct (_ <=? _)%nat; [| exact Hk].
  destruct (sortByLastUsed (sessions st)) as [| o r]; [exact Hk |].
  destruct (Z.eq_dec k (fst o)) as [-> | Hne].
  - apply sessions_get_delete_eq.
  - rewrite sessions_get_delete_ne; assumption.
Qed.

Lemma roomMade_NoDup (env : Env) (st : State) :
  NoDup (sessions st).*1 -> NoDup (sessions (roomMade env st)).*1.
Proof.
  intros H. rewrite roomMade_sessions.
  destruct (_ <=? _)%nat; [| exact H].
  destruct (sortByLastUsed (sessions st)); [exact H |].
  apply sessions_delete_NoDup. exact H.
Qed.

Lemma getSession_withinCapacity (env : Env) (k : Z) :
  keeps withinCapacity (getSession env k).
Proof.
  intros st [Hlen Hnd]. rewrite getSession_eq.
  destruct (sessions_get k (sessions st)) as [e |] eqn:Hk; simpl;
    (split; [| apply sessions_set_NoDup; auto using roomMade_NoDup]);
    simpl; rewrite sessions_set_length.
  - rewrite Hk. exact Hlen.
  - rewrite (roomMade_absent env k st Hk).
    pose proof (roomMade_length env st Hlen). lia.
Qed.

Lemma evictSession_withinCapacity (env : Env) (k : Z) :
  keeps withinCapacity (evictSession env k).
Proof.
  intros st [Hlen Hnd]. split.
  - rewrite evictSession_sessions.
    pose proof (sessions_delete_length k (sessions st)). lia.
  - rewrite evictSession_sessions. apply sessions_delete_NoDup. exact Hnd.
Qed.

Lemma storeBackend_sessions (k : Z) (b : Backend) (st : State) :
  (sessions (snd (storeBackend k b st))).*1 = (sessions st).*1
  /\ length (sessions (snd (storeBackend k b st))) = length (sessions st).
Proof.
  unfold storeBackend, bind, get. simpl.
  destruct (sessions_get k (sessions st)) as [e |] eqn:Hk; simpl; [| auto].
  rewrite sessions_set_keys, sessions_set_length, Hk. auto.
Qed.

Lemma withinCapacity_stable (P : Event -> Prop) : Stable P withinCapacity.
Proof.
  split; [| split; [| split; [| split; [| split]]]].
  - intros e _ st H. exact H.
  - intros c st H. exact H.
  - intros env k. apply getSession_withinCapacity.
  - intros env k. apply evictSession_withinCapacity.
  - intros k b st [Hlen Hnd].
    destruct (storeBackend_sessions k b st) as [Hk Hl].
    split; [rewrite Hl | rewrite Hk]; assumption.
  - intros t st H. exact H.
Qed.

Lemma pluginCleanup_sessions (st : State) :
  sessions (snd (pluginCleanup st)) = [].
Proof.
  unfold pluginCleanup, bind, get.
  destruct (forEach _ (sessions st) st) as [u s1].
  destruct (forEach _ (sessions st) s1) as [u' s2]. reflexivity.
Qed.

Lemma pluginCleanup_withinCapacity : keeps withinCapacity pluginCleanup.
Proof.
  intros st _. unfold withinCapacity. rewrite pluginCleanup_sessions.
  split; [simpl; unfold MAX_SESSIONS; lia | apply NoDup_nil_2].
Qed.

Lemma run_withinCapacity (inputs : list (Env * Input)) :
  withinCapacity (run inputs initial).
Proof.
  apply run_keeps.
  - apply withinCapacity_stable.
  - apply pluginCleanup_withinCapacity.
  - split; [simpl; unfold MAX_SESSIONS; lia | apply NoDup_nil_2].
Qed.

(** For requests that are handled one after the other, each run to
    completion: in every state the plugin reaches that way, and after one
    more [getSession] call from there, the pool holds at most [MAX_SESSIONS]
    entries; when that call is for a chat without an entry and the pool is
    full, one entry is removed: none of the live entries has a smaller
    [lastUsed], its timer is cleared and its backend's [cleanup()] is called
    before it leaves the [Map], and every other entry stays. *)
Theorem capacity_and_oldest_first
  (inputs : list (Env * Input)) (env : Env) (chatId : Z) :
  let st := run inputs initial in
  let st' := snd (getSession env chatId st) in
  (length (sessions st) <= MAX_SESSIONS)%nat
  /\ (length (sessions st') <= MAX_SESSIONS)%nat
  /\ (sessions_get chatId (sessions st) = None ->
      (MAX_SESSIONS <= length (sessions st))%nat ->
      exists k e rest,
        sessions_get k (sessions st) = Some e
        /\ (forall k' e', sessions_get k' (sessions st) = Some e' ->
                          lastUsed e <= lastUsed e')
        /\ trace st' = trace st ++ [TimerCleared (timer e); CleanedUp k;
                                    SessionDeleted k; CacheDeleted k] ++ rest
        /\ sessions_get k (sessions st') = None
        /\ (forall k', k' <> k -> k' <> chatId ->
                       sessions_get k' (sessions st') = sessions_get k' (sessions st))).
Proof.
  intros st st'.
  pose proof (run_withinCapacity inputs) as Hcap. fold st in Hcap.
  pose proof (getSession_withinCapacity env chatId st Hcap) as Hcap'. fold st' in Hcap'.
  destruct Hcap as [Hlen Hnd].
  split; [exact Hlen |]. split; [exact (proj1 Hcap') |].
  intros Hk Hfull.
  pose proof (sortByLastUsed_head (sessions st)) as Hh.
  assert (Hst' : st' = snd (getSession env chatId st)) by reflexivity.
  rewrite getSession_eq, Hk in Hst'. cbv zeta in Hst'. simpl snd in Hst'.
  unfold roomMade in Hst'.
  replace (MAX_SESSIONS <=? length (sessions st))%nat with true in Hst'
    by (symmetry; apply Nat.leb_le; exact Hfull).
  destruct (sortByLastUsed (sessions st)) as [| [k e] r].
  { rewrite Hh in Hfull. unfold MAX_SESSIONS in Hfull. simpl in Hfull. lia. }
  destruct Hh as [Ho Hmin].
  pose proof (sessions_get_elem_of k e _ Hnd Ho) as Hke.
  rewrite evictSession_eq in Hst'. simpl fst in Hst'. rewrite Hke in Hst'.
  simpl in Hst'.
  assert (Hne : k <> chatId) by congruence.
  exists k, e. eexists. split; [exact Hke |]. split; [| split; [| split]].
  - intros k' e' He'. apply sessions_get_Some_elem_of in He'.
    exact (Hmin (k', e') He').
  - rewrite Hst'. simpl. rewrite <- !app_assoc. reflexivity.
  - rewrite Hst'. simpl. rewrite sessions_get_set_ne by exact Hne.
    apply sessions_get_delete_eq.
  - intros k' Hk1 Hk2. rewrite Hst'. simpl.
    rewrite sessions_get_set_ne by exact Hk2.
    apply sessions_get_delete_ne. exact Hk1.
Qed.

Lemma capacity_and_oldest_first_witness :
  sessions_get 6 (sessions (run fiveChats initial)) = None
  /\ (MAX_SESSIONS <= length (sessions (run fiveChats initial)))%nat
  /\ exists k e rest,
       sessions_get k (sessions (run fiveChats initial)) = Some e
       /\ (forall k' e', sessions_get k' (sessions (run fiveChats initial)) = Some e' ->
                         lastUsed e <= lastUsed e')
       /\ trace (snd (getSession (envAt 6 home) 6 (run fiveChats initial)))
          = trace (run fiveChats initial)
              ++ [TimerCleared (timer e); CleanedUp k;
                  SessionDeleted k; CacheDeleted k] ++ rest
       /\ sessions_get k (sessions (snd (getSession (envAt 6 home) 6
                                           (run fiveChats initial)))) = None
       /\ (forall k', k' <> k -> k' <> 6 ->
             sessions_get k' (sessions (snd (getSession (envAt 6 home) 6
                                               (run fiveChats initial))))
             = sessions_get k' (sessions (run fiveChats initial))).
Proof.
  assert (H1 : sessions_get 6 (sessions (run fiveChats initial)) = None)
    by reflexivity.
  assert (H2 : (MAX_SESSIONS <= length (sessions (run fiveChats initial)))%nat)
    by (vm_compute; lia).
  split; [exact H1 |]. split; [exact H2 |].
  exact (proj2 (proj2 (capacity_and_oldest_first fiveChats (envAt 6 home) 6)) H1 H2).
Defined.

(** In the sample run the entry that goes is the one of chat 1, the first
    to have opened a page. *)
Example sixth_chat_evicts_the_first :
  List.map fst (sessions (snd (getSession (envAt 6 home) 6 (run fiveChats initial))))
  = [2; 3; 4; 5; 6].
Proof. reflexivity. Qed.

(** ** Requests that overlap *)

(** The segments of [getSession], run with nothing in between, are the
    call run to completion. *)
Lemma getSession_uninterrupted_eq (env : Env) (k : Z) (st : State) :
  getSession_uninterrupted env k st
  = (inl (fst (getSession env k st)), snd (getSession env k st)).
Proof.
  unfold getSession_uninterrupted, getSession_start, getSession, evictSession,
    goOn, getSession_resume, detectBackend, cleanupOutcome, caught.
  unfold bind, get. cbn [fst snd].
  destruct (sessions_get k (sessions st)) as [e |]; [reflexivity |].
  destruct (MAX_SESSIONS <=? length (sessions st))%nat.
  - destruct (sortByLastUsed (sessions st)) as [| o r].
    + cbn. destruct (detectionPromise st) as [[] |];
        [reflexivity | reflexivity |].
      cbn. destruct (Pinchtab.isPinchtabAvailable (health env)); reflexivity.
    + destruct (sessions_get (fst o) (sessions st)) as [entry |].
      * cbn. destruct (cleanup_rejects env); cbn;
          (destruct (detectionPromise st) as [[] |];
           [reflexivity | reflexivity |]);
          cbn; destruct (Pinchtab.isPinchtabAvailable (health env)); reflexivity.
      * cbn. destruct (detectionPromise st) as [[] |];
          [reflexivity | reflexivity |].
        cbn. destruct (Pinchtab.isPinchtabAvailable (health env)); reflexivity.
  - cbn. destruct (detectionPromise st) as [[] |];
      [reflexivity | reflexivity |].
    cbn. destruct (Pinchtab.isPinchtabAvailable (health env)); reflexivity.
Qed.

(** A first request in an empty pool is suspended at
    [await detectBackend()] and leaves the pool empty. *)
Lemma getSession_start_empty (env : Env) (k : Z) (st : State) :
  sessions st = [] ->
  exists st1,
    getSession_start env k st = (inr (AtDetection k (selected env st)), st1)
    /\ sessions st1 = []
    /\ selected env st1 = selected env st.
Proof.
  intros Hs. unfold getSession_start, bind, get. cbn [fst snd]. rewrite Hs.
  cbn. unfold detectBackend, bind, get, selected. cbn.
  destruct (detectionPromise st) as [p |] eqn:Hp; cbn.
  - eexists. split; [reflexivity |]. cbn. rewrite Hp. auto.
  - eexists. split; [reflexivity |]. cbn. auto.
Qed.

Lemma starts_pile_up (env : Env) (ks : list Z) (st : State) (w : list Suspended) :
  sessions st = [] ->
  exists st1,
    turns (List.map (Starts env) ks) (st, w)
    = (st1, w ++ List.map (fun k => AtDetection k (selected env st)) ks)
    /\ sessions st1 = [].
Proof.
  revert st w. induction ks as [| k ks IH]; intros st w Hs.
  - exists st. rewrite app_nil_r. auto.
  - destruct (getSession_start_empty env k st Hs) as (st1 & Hst & Hs1 & Hsel).
    destruct (IH st1 (w ++ [AtDetection k (selected env st)]) Hs1)
      as (st2 & Ht & Hs2).
    exists st2. split; [| exact Hs2].
    cbn [List.map turns foldl turn]. rewrite Hst.
    unfold turns in Ht. rewrite Ht, Hsel, <- app_assoc. reflexivity.
Qed.

Lemma getSession_resume_detection (env : Env) (k : Z) (p : BackendKind) (st : State) :
  getSession_resume env (AtDetection k p) st
  = (inl (create p),
     mkState (sessions_set k (mkEntry (create p) (now env) (nextTimer st))
                           (sessions st))
             (pageCache st) (detectionPromise st)
             (<[nextTimer st := k]> (timers st)) (S (nextTimer st))
             (trace st ++ [Created k p; TimerSet (nextTimer st) k])).
Proof.
  unfold getSession_resume, bind, get, emit, setTimeout, putSessions, ret.
  cbn. rewrite <- app_assoc. destruct p; reflexivity.
Qed.

Lemma resumes_store_all (env : Env) (p : BackendKind) (ks : list Z) (st : State) :
  NoDup ((sessions st).*1 ++ ks) ->
  exists st1,
    turns (repeat (GoesOn env O) (length ks))
          (st, List.map (fun k => AtDetection k p) ks)
    = (st1, [])
    /\ (sessions st1).*1 = (sessions st).*1 ++ ks.
Proof.
  revert st. induction ks as [| k ks IH]; intros st Hnd.
  - exists st. rewrite app_nil_r. auto.
  - cbn [length repeat List.map turns foldl turn lookup list_lookup].
    rewrite getSession_resume_detection. cbn [delete list_delete].
    assert (Hk : sessions_get k (sessions st) = None).
    { apply sessions_get_absent. apply NoDup_app in Hnd as (_ & Hd & _).
      intros Hin. apply (Hd k Hin). apply elem_of_cons. auto. }
    match goal with
    | |- context [foldl _ (?s, _) _] => set (st1 := s)
    end.
    assert (Hkeys : (sessions st1).*1 = (sessions st).*1 ++ [k]).
    { unfold st1. cbn [sessions]. rewrite sessions_set_keys, Hk. reflexivity. }
    destruct (IH st1) as (st2 & Ht & Hs2).
    { rewrite Hkeys, <- app_assoc. exact Hnd. }
    exists st2. split; [exact Ht |].
    rewrite Hs2, Hkeys, <- app_assoc. reflexivity.
Qed.

(** C3: first requests that arrive together all find room: for any
    number of chats, when each call has tested the size of the pool and is
    suspended at [await detectBackend()] before the first goes on, every
    call stores its entry when it goes on, without a second test. Six such
    requests leave six sessions, one more than [MAX_SESSIONS], with one
    probe sent for the six, and the pool stays above its capacity: the next
    new chat evicts one entry and adds one. The same six requests, each
    returned before the next starts, leave five sessions; and the segments
    of a call, run with nothing in between, are the call run to
    completion. *)
Theorem overlapping_requests_exceed_capacity :
  (forall (ks : list Z) (env env' : Env),
     NoDup ks ->
     snd (turns (List.map (Starts env) ks ++ repeat (GoesOn env' O) (length ks))
                (initial, [])) = []
     /\ (sessions
           (fst (turns (List.map (Starts env) ks
                          ++ repeat (GoesOn env' O) (length ks))
                       (initial, [])))).*1 = ks)
  /\ (snd (turns sixAtOnce (initial, [])) = []
      /\ (sessions (fst (turns sixAtOnce (initial, [])))).*1 = [1; 2; 3; 4; 5; 6]
      /\ (MAX_SESSIONS < length (sessions (fst (turns sixAtOnce (initial, [])))))%nat
      /\ probes (trace (fst (turns sixAtOnce (initial, [])))) = 1%nat)
  /\ length (sessions (snd (getSession (envAt 3 home) 7
                              (fst (turns sixAtOnce (initial, [])))))) = 6%nat
  /\ (snd (turns sixInTurn (initial, [])) = []
      /\ (sessions (fst (turns sixInTurn (initial, [])))).*1 = [2; 3; 4; 5; 6])
  /\ (forall env k st,
        getSession_uninterrupted env k st
        = (inl (fst (getSession env k st)), snd (getSession env k st))).
Proof.
  split; [| split; [| split; [| split]]].
  - intros ks env env' Hnd. unfold turns. rewrite foldl_app.
    destruct (starts_pile_up env ks initial [] eq_refl) as (st1 & Ht & Hs1).
    unfold turns in Ht. rewrite Ht. cbn [app].
    destruct (resumes_store_all env' (selected env initial) ks st1)
      as (st2 & Ht2 & Hk2).
    { rewrite Hs1. exact Hnd. }
    unfold turns in Ht2. rewrite Ht2. cbn [fst snd].
    split; [reflexivity |]. rewrite Hk2, Hs1. reflexivity.
  - split; [reflexivity |]. split; [reflexivity |].
    split; [vm_compute; lia | reflexivity].
  - reflexivity.
  - split; reflexivity.
  - exact getSession_uninterrupted_eq.
Qed.

(** ** Eviction *)

Lemma timerFires_eq (env : Env) (t : nat) (st : State) :
  snd (timerFires env t st)
  = match timers st !! t with
    | None => st
    | Some k => snd (evictSession env k (snd (expire t st)))
    end.
Proof.
  unfold timerFires, bind, get. simpl.
  destruct (timers st !! t); reflexivity.
Qed.

(** C5: evicting a chat that has an entry leaves it with neither a
    session entry nor a cached page, whether [cleanup()] rejects or not (the
    result does not depend on the environment); evicting a chat that has no
    entry changes nothing, so a second eviction is a no-op. Both removal
    paths go through it: the idle timer of the chat, and the capacity
    eviction of the oldest entry inside [getSession]. *)
Theorem eviction_clears_session_and_cache
  (env : Env) (chatId : Z) (st : State) (entry : SessionEntry) :
  sessions_get chatId (sessions st) = Some entry ->
  let st' := snd (evictSession env chatId st) in
  sessions_get chatId (sessions st') = None
  /\ pageCache st' !! chatId = None
  /\ (forall env', snd (evictSession env' chatId st) = st')
  /\ (forall env', snd (evictSession env' chatId st') = st')
  /\ (forall env' k s, sessions_get k (sessions s) = None ->
                       snd (evictSession env' k s) = s)
  /\ (forall t, timers st !! t = Some chatId ->
        sessions_get chatId (sessions (snd (timerFires env t st))) = None
        /\ pageCache (snd (timerFires env t st)) !! chatId = None)
  /\ (forall newChat r,
        sessions_get newChat (sessions st) = None ->
        (MAX_SESSIONS <= length (sessions st))%nat ->
        sortByLastUsed (sessions st) = (chatId, entry) :: r ->
        sessions_get chatId (sessions (snd (getSession env newChat st))) = None
        /\ pageCache (snd (getSession env newChat st)) !! chatId = None).
Proof.
  intros He st'.
  assert (Hst' : st' = mkState (sessions_delete chatId (sessions st))
                         (delete chatId (pageCache st)) (detectionPromise st)
                         (delete (timer entry) (timers st)) (nextTimer st)
                         (trace st ++ [TimerCleared (timer entry); CleanedUp chatId;
                                       SessionDeleted chatId; CacheDeleted chatId])).
  { unfold st'. rewrite evictSession_eq, He. reflexivity. }
  assert (Hnone : forall env' k s, sessions_get k (sessions s) = None ->
                                   snd (evictSession env' k s) = s).
  { intros env' k s Hk. rewrite evictSession_eq, Hk. reflexivity. }
  assert (Hgone : sessions_get chatId (sessions st') = None).
  { rewrite Hst'. simpl. apply sessions_get_delete_eq. }
  split; [exact Hgone |]. split; [| split; [| split; [| split; [| split]]]].
  - rewrite Hst'. simpl. apply lookup_delete_eq.
  - intros env'. rewrite Hst', evictSession_eq, He. reflexivity.
  - intros env'. apply Hnone. exact Hgone.
  - exact Hnone.
  - intros t Ht. rewrite timerFires_eq, Ht, evictSession_eq. simpl.
    rewrite He. simpl. split; [apply sessions_get_delete_eq | apply lookup_delete_eq].
  - intros newChat r Hn Hfull Hsort.
    assert (Hne : chatId <> newChat) by congruence.
    rewrite getSession_eq, Hn. cbv zeta. simpl snd. simpl sessions. simpl pageCache.
    unfold roomMade.
    replace (MAX_SESSIONS <=? length (sessions st))%nat with true
      by (symmetry; apply Nat.leb_le; exact Hfull).
    rewrite Hsort. simpl fst. fold st'. split.
    + rewrite sessions_get_set_ne by exact Hne. exact Hgone.
    + rewrite Hst'. simpl. apply lookup_delete_eq.
Qed.

Lemma eviction_clears_session_and_cache_witness :
  sessions_get 1 (sessions fullPool) = Some firstEntry
  /\ sessions_get 1 (sessions (snd (evictSession cleanupRejects 1 fullPool))) = None
  /\ pageCache (snd (evictSession cleanupRejects 1 fullPool)) !! 1 = None.
Proof.
  assert (H : sessions_get 1 (sessions fullPool) = Some firstEntry) by reflexivity.
  split; [exact H |].
  destruct (eviction_clears_session_and_cache cleanupRejects 1 fullPool firstEntry H)
    as (H1 & H2 & _).
  split; [exact H1 | exact H2].
Defined.

(** ** Backend detection *)

Lemma probes_app (l l' : list Event) : probes (l ++ l') = (probes l + probes l')%nat.
Proof. unfold probes. rewrite List.filter_app, length_app. reflexivity. Qed.

Lemma probedOnce_extend (st st' : State) (new : list Event) :
  trace st' = trace st ++ new ->
  detectionPromise st' = detectionPromise st ->
  probes new = O ->
  (forall c k, Created c k ∉ new) ->
  probedOnce st -> probedOnce st'.
Proof.
  intros Ht Hd Hp Hn (H0 & H1 & Hc). unfold probedOnce.
  rewrite Ht, Hd, probes_app, Hp, Nat.add_0_r.
  split; [exact H0 |]. split; [exact H1 |].
  intros c k [H | H]%elem_of_app; [exact (Hc c k H) | destruct (Hn _ _ H)].
Qed.

Ltac no_created :=
  let H := fresh in
  intros ? ? H;
  repeat (apply elem_of_cons in H as [H | H]; [discriminate |]);
  inversion H.

Lemma evictSession_probedOnce (env : Env) (k : Z) : keeps probedOnce (evictSession env k).
Proof.
  intros st H. rewrite evictSession_eq.
  destruct (sessions_get k (sessions st)) as [e |]; [| auto].
  eapply probedOnce_extend; [reflexivity | reflexivity | reflexivity | no_created | exact H].
Qed.

Lemma roomMade_probedOnce (env : Env) (st : State) :
  probedOnce st -> probedOnce (roomMade env st).
Proof.
  intros H. unfold roomMade. destruct (_ <=? _)%nat; [| exact H].
  destruct (sortByLastUsed (sessions st)); [exact H |].
  apply evictSession_probedOnce. exact H.
Qed.

Lemma getSession_probedOnce (env : Env) (k : Z) : keeps probedOnce (getSession env k).
Proof.
  intros st H. rewrite getSession_eq.
  destruct (sessions_get k (sessions st)) as [e |].
  - eapply probedOnce_extend;
      [reflexivity | reflexivity | reflexivity | no_created | exact H].
  - pose proof (roomMade_probedOnce env st H) as (H0 & H1 & Hc).
    destruct (roomMade_same env st) as [Hd _]. rewrite Hd in H0, Hc.
    unfold probedOnce, selected. cbv zeta. cbn [snd trace detectionPromise].
    rewrite !probes_app.
    destruct (detectionPromise st) as [p |] eqn:Hp.
    + change (probes []) with O. change (probes [Created k p; _]) with O.
      split; [discriminate |]. split; [lia |].
      intros c kind [H' | H']%elem_of_app; [exact (Hc _ _ H') |].
      apply elem_of_cons in H' as [[= -> ->] | H']; [reflexivity |].
      apply elem_of_cons in H' as [H' | H']; [discriminate | inversion H'].
    + rewrite (H0 eq_refl). change (probes [Probed]) with 1%nat.
      change (probes [Created k _; _]) with O.
      split; [discriminate |]. split; [lia |].
      intros c kind [H' | H']%elem_of_app; [specialize (Hc _ _ H'); discriminate |].
      apply elem_of_cons in H' as [H' | H']; [discriminate |].
      apply elem_of_cons in H' as [[= -> ->] | H']; [reflexivity |].
      apply elem_of_cons in H' as [H' | H']; [discriminate | inversion H'].
Qed.

Lemma probedOnce_stable : Stable handlerEvent probedOnce.
Proof.
  split; [| split; [| split; [| split; [| split]]]].
  - intros e He st H.
    apply (probedOnce_extend st _ [e]); [reflexivity | reflexivity | | | exact H].
    + destruct e; simpl in He; tauto || reflexivity.
    + intros c k Hin%list_elem_of_singleton. subst e. destruct He.
  - intros c st H. exact H.
  - apply getSession_probedOnce.
  - apply evictSession_probedOnce.
  - intros k b st H. unfold storeBackend, bind, get. simpl.
    destruct (sessions_get k (sessions st)); exact H.
  - intros t st H. exact H.
Qed.

(** An invariant of the steps holds along a run without teardown. *)
Lemma run_keeps_without_teardown
  (I : State -> Prop) (inputs : list (Env * Input)) (st : State) :
  Stable handlerEvent I ->
  Forall (fun i => snd i <> Teardown) inputs ->
  I st -> I (run inputs st).
Proof.
  intros HS Hno. revert st.
  induction Hno as [| [env i] inputs Hi Hno IH]; intros st H; [exact H |].
  simpl. apply IH. destruct i as [ctx | ctx data | t |]; simpl.
  - apply browseCommand_keeps; [apply Stable_guarded |]; assumption.
  - apply keeps_bind; [| intros ?; apply keeps_ret | assumption].
    apply handleCallback_keeps. assumption.
  - eapply timerFires_keeps; eassumption.
  - destruct Hi. reflexivity.
Qed.

Lemma pluginCleanup_resets (st : State) :
  sessions (snd (pluginCleanup st)) = []
  /\ pageCache (snd (pluginCleanup st)) = ∅
  /\ detectionPromise (snd (pluginCleanup st)) = None.
Proof.
  unfold pluginCleanup, bind, get.
  destruct (forEach _ (sessions st) st) as [u s1].
  destruct (forEach _ (sessions st) s1) as [u' s2]. auto.
Qed.

Lemma roomMade_probes (env : Env) (st : State) :
  probes (trace (roomMade env st)) = probes (trace st).
Proof.
  unfold roomMade. destruct (_ <=? _)%nat; [| reflexivity].
  destruct (sortByLastUsed (sessions st)); [reflexivity |].
  rewrite evictSession_eq. destruct (sessions_get _ _); [| reflexivity].
  cbn [trace]. rewrite probes_app. apply Nat.add_0_r.
Qed.

(** C8: along a run without teardown the probe is sent at most once and
    every backend is of the family the stored promise resolves to; once a
    promise is stored, [getSession] sends no probe and keeps the promise, and
    a second [detectBackend] call returns the promise of the first without a
    probe, whether or not the first has been awaited; the teardown clears
    the promise, and the next [getSession] sends exactly one probe. *)
Theorem probe_is_memoized
  (inputs : list (Env * Input)) (env env' : Env) (chatId : Z) :
  Forall (fun i => snd i <> Teardown) inputs ->
  let st := run inputs initial in
  (probes (trace st) <= 1)%nat
  /\ (forall c k, Created c k ∈ trace st -> detectionPromise st = Some k)
  /\ (forall p, detectionPromise st = Some p ->
        probes (trace (snd (getSession env chatId st))) = probes (trace st)
        /\ detectionPromise (snd (getSession env chatId st)) = Some p)
  /\ (fst (detectBackend env' (snd (detectBackend env st)))
      = fst (detectBackend env st)
      /\ probes (trace (snd (detectBackend env' (snd (detectBackend env st)))))
         = probes (trace (snd (detectBackend env st))))
  /\ (detectionPromise (snd (pluginCleanup st)) = None
      /\ probes (trace (snd (getSession env chatId (snd (pluginCleanup st)))))
         = S (probes (trace (snd (pluginCleanup st))))).
Proof.
  intros Hno st.
  assert (Hinv : probedOnce st).
  { apply run_keeps_without_teardown; [apply probedOnce_stable | exact Hno |].
    split; [intros _; reflexivity |].
    split; [apply Nat.le_0_l | intros c k H; inversion H]. }
  destruct Hinv as (_ & H1 & Hc).
  split; [exact H1 |]. split; [exact Hc |]. split; [| split].
  - intros p Hp. rewrite getSession_eq.
    destruct (sessions_get chatId (sessions st)) as [e |]; cbv zeta; simpl snd;
      cbn [trace detectionPromise]; rewrite ?probes_app, ?roomMade_probes.
    + split; [apply Nat.add_0_r | exact Hp].
    + unfold selected. rewrite Hp. split; [apply Nat.add_0_r | reflexivity].
  - unfold detectBackend, bind, get. simpl.
    destruct (detectionPromise st) as [p |] eqn:Hp; simpl.
    + rewrite Hp. simpl. auto.
    + auto.
  - destruct (pluginCleanup_resets st) as (Hs & _ & Hd).
    split; [exact Hd |].
    rewrite getSession_eq, Hs. cbv zeta. simpl snd. cbn [trace].
    unfold roomMade. rewrite Hs, Hd. simpl length.
    change (MAX_SESSIONS <=? 0)%nat with false. cbv iota.
    rewrite !probes_app. change (probes [Probed]) with 1%nat.
    change (probes [Created chatId _; _]) with O. lia.
Qed.

Lemma probe_is_memoized_witness :
  Forall (fun i : Env * Input => snd i <> Teardown) fiveChats
  /\ (probes (trace (run fiveChats initial)) <= 1)%nat.
Proof.
  assert (H : Forall (fun i : Env * Input => snd i <> Teardown) fiveChats)
    by (repeat constructor; discriminate).
  split; [exact H |].
  exact (proj1 (probe_is_memoized fiveChats (envAt 6 home) (envAt 7 home) 6 H)).
Defined.

(** ** The guard in front of [navigate] *)

(** C9: a navigation request that the guard refuses is answered with the
    refusal and nothing else: the sessions, the page cache, the stored
    promise and the timers are what they were, so no entry is made for the
    chat and no backend is constructed. *)
Theorem guard_rejection_touches_nothing
  (env : Env) (ctx : Ctx) (st : State) (chatId : Z) (u : string) :
  navigationRequest ctx = Some (chatId, u) ->
  isUrlSafe u = false ->
  let st' := snd (browseCommand env ctx st) in
  sessions st' = sessions st
  /\ pageCache st' = pageCache st
  /\ detectionPromise st' = detectionPromise st
  /\ timers st' = timers st
  /\ nextTimer st' = nextTimer st
  /\ trace st' = trace st ++ [Said chatId UrlRefused]
  /\ sessions_get chatId (sessions st') = sessions_get chatId (sessions st)
  /\ (forall c k, Created c k ∈ trace st' -> Created c k ∈ trace st).
Proof.
  unfold navigationRequest, browseCommand.
  destruct (chat_id ctx) as [k |]; [| discriminate].
  destruct (k =? 0); [discriminate |]. cbv zeta.
  destruct (String.eqb (commandArgs ctx) ""); [discriminate |].
  destruct (JS.startsWith (commandArgs ctx) "click "); [discriminate |].
  destruct (JS.startsWith (commandArgs ctx) "type "); [discriminate |].
  destruct (String.eqb (commandArgs ctx) "back"); [discriminate |].
  destruct (String.eqb (commandArgs ctx) "screenshot"); [discriminate |].
  simpl orb. cbv iota. intros [= -> <-] Hu. rewrite Hu. simpl.
  repeat split.
  intros c kind [H | H]%elem_of_app; [exact H |].
  apply list_elem_of_singleton in H. discriminate.
Qed.

(** A navigation request that the guard accepts does reach [navigate],
    with the URL the guard has seen, after [getSession]. *)
Lemma navigationRequest_navigates
  (env : Env) (ctx : Ctx) (st : State) (chatId : Z) (u : string) :
  navigationRequest ctx = Some (chatId, u) ->
  isUrlSafe u = true ->
  exists rest,
    trace (snd (browseCommand env ctx st))
    = trace (snd (getSession env chatId
                    (snd (say chatId Busy st)))) ++ Navigated chatId u :: rest.
Proof.
  unfold navigationRequest, browseCommand.
  destruct (chat_id ctx) as [k |]; [| discriminate].
  destruct (k =? 0); [discriminate |]. cbv zeta.
  destruct (String.eqb (commandArgs ctx) ""); [discriminate |].
  destruct (JS.startsWith (commandArgs ctx) "click "); [discriminate |].
  destruct (JS.startsWith (commandArgs ctx) "type "); [discriminate |].
  destruct (String.eqb (commandArgs ctx) "back"); [discriminate |].
  destruct (String.eqb (commandArgs ctx) "screenshot"); [discriminate |].
  simpl orb. cbv iota. intros [= -> <-] Hu. rewrite Hu.
  change (negb true) with false. cbv iota.
  unfold bind, say, emit. cbn [fst snd].
  destruct (getSession env chatId _) as [b s1]. cbn [fst snd trace].
  destruct (BrowserBackend.navigate b (navigationTarget (commandArgs ctx))
              (world env)) as [b' [e | info]];
    unfold storeBackend, showOrFail, cacheSet, say, emit, bind, get;
    cbn [fst snd sessions trace];
    destruct (sessions_get chatId (sessions s1));
    unfold putSessions, putPageCache, ret; simpl;
    rewrite <- ?app_assoc; eexists; reflexivity.
Qed.

Lemma guard_rejection_touches_nothing_witness :
  navigationRequest (mkCtx (Some 7) (Some "/browse 192.168.1.1/admin"))
  = Some (7, "https://192.168.1.1/admin")
  /\ isUrlSafe "https://192.168.1.1/admin" = false
  /\ sessions (snd (browseCommand (envAt 6 home)
                      (mkCtx (Some 7) (Some "/browse 192.168.1.1/admin")) fullPool))
     = sessions fullPool.
Proof.
  assert (H1 : navigationRequest (mkCtx (Some 7) (Some "/browse 192.168.1.1/admin"))
               = Some (7, "https://192.168.1.1/admin")) by reflexivity.
  assert (H2 : isUrlSafe "https://192.168.1.1/admin" = false) by reflexivity.
  split; [exact H1 |]. split; [exact H2 |].
  exact (proj1 (guard_rejection_touches_nothing (envAt 6 home) _ fullPool 7 _ H1 H2)).
Defined.

(** The scenario of the specification takes another turn in the router:
    [https://] is put in front of [ftp://internal], the result parses as an
    [https] URL with the host [ftp], and the guard accepts it. *)
Example ftp_argument_is_not_refused :
  navigationRequest (mkCtx (Some 7) (Some "/browse ftp://internal"))
  = Some (7, "https://ftp://internal")
  /\ isUrlSafe "https://ftp://internal" = true
  /\ isUrlSafe "ftp://internal" = false.
Proof. repeat split; reflexivity. Qed.

Lemma onlyGuarded_extend (st st' : State) (new : list Event) :
  trace st' = trace st ++ new ->
  Forall (fun u => isUrlSafe u = true) (navigated new) ->
  onlyGuarded st -> onlyGuarded st'.
Proof.
  intros Ht Hn H. unfold onlyGuarded, navigated in *.
  rewrite Ht, omap_app. apply Forall_app. split; assumption.
Qed.

Lemma evictSession_onlyGuarded (env : Env) (k : Z) : keeps onlyGuarded (evictSession env k).
Proof.
  intros st H. rewrite evictSession_eq.
  destruct (sessions_get k (sessions st)); [| exact H].
  eapply onlyGuarded_extend; [reflexivity | constructor | exact H].
Qed.

Lemma getSession_onlyGuarded (env : Env) (k : Z) : keeps onlyGuarded (getSession env k).
Proof.
  intros st H. rewrite getSession_eq.
  destruct (sessions_get k (sessions st)).
  - eapply onlyGuarded_extend; [reflexivity | constructor | exact H].
  - assert (H1 : onlyGuarded (roomMade env st)).
    { unfold roomMade. destruct (_ <=? _)%nat; [| exact H].
      destruct (sortByLastUsed (sessions st)); [exact H |].
      apply evictSession_onlyGuarded. exact H. }
    eapply onlyGuarded_extend; [reflexivity | | exact H1].
    destruct (detectionPromise st); constructor.
Qed.

Lemma onlyGuarded_stable : Stable guardedEvent onlyGuarded.
Proof.
  split; [| split; [| split; [| split; [| split]]]].
  - intros e He st H.
    apply (onlyGuarded_extend st _ [e]); [reflexivity | | exact H].
    destruct e; simpl in *; constructor; auto.
  - intros c st H. exact H.
  - apply getSession_onlyGuarded.
  - apply evictSession_onlyGuarded.
  - intros k b st H. unfold storeBackend, bind, get. simpl.
    destruct (sessions_get k (sessions st)); exact H.
  - intros t st H. exact H.
Qed.

(** The command handler keeps its side of the rule: whatever the command,
    it hands to [navigate] only a URL that [isUrlSafe] has accepted. *)
Lemma browseCommand_navigates_guarded (env : Env) (ctx : Ctx) (st : State) :
  onlyGuarded st -> onlyGuarded (snd (browseCommand env ctx st)).
Proof. apply browseCommand_keeps. apply onlyGuarded_stable. Qed.

(** C2: the refresh button hands the cached URL to [navigate] without
    asking the guard. With the local engine, a page that redirects to the
    cloud metadata address is cached under that address, and the refresh
    navigates to it although [isUrlSafe] refuses it; with the remote
    service, a click in a chat that has not opened a page caches the empty
    URL, and the refresh navigates to it although [isUrlSafe] refuses it. *)
Theorem refresh_navigates_past_the_guard :
  (navigated (trace (run redirectThenRefresh initial))
   = ["https://example.com"; "http://169.254.169.254/latest/meta-data/"]
   /\ isUrlSafe "http://169.254.169.254/latest/meta-data/" = false)
  /\ (navigated (trace (run clickThenRefresh initial)) = [""]
      /\ isUrlSafe "" = false)
  /\ ~ onlyGuarded (run redirectThenRefresh initial).
Proof.
  split; [split; reflexivity |]. split; [split; reflexivity |].
  intros H. unfold onlyGuarded in H.
  change (navigated (trace (run redirectThenRefresh initial)))
    with ["https://example.com"; "http://169.254.169.254/latest/meta-data/"] in H.
  apply Forall_cons in H as [_ H]. apply Forall_cons in H as [H _].
  discriminate.
Qed.

(** * Further properties *)

(** ** The guard on IPv4 hosts *)

Lemma octets_written :
  forallb octetWritten (List.map Z.of_nat (seq 0 256)) = true.
Proof. vm_compute. reflexivity. Qed.

Lemma map_fixed (f : ascii -> ascii) (l : JS.chars) :
  forallb (fun c => Ascii.eqb (f c) c) l = true -> List.map f l = l.
Proof.
  induction l as [| c l IH]; [reflexivity |]. simpl.
  intros [Hc Hl]%andb_prop. f_equal; [apply Ascii.eqb_eq; exact Hc | auto].
Qed.

Lemma octetWritten_spec (n : Z) :
  0 <= n < 256 ->
  Forall (fun c => c <> "."%char) (URL.showDecimal n)
  /\ List.map JS.lowerChar (URL.showDecimal n) = URL.showDecimal n
  /\ JS.NumberL (URL.showDecimal n) = JS.ofZ n.
Proof.
  intros Hn.
  assert (H : octetWritten n = true).
  { pose proof octets_written as Hall. rewrite forallb_forall in Hall.
    apply Hall. apply in_map_iff. exists (Z.to_nat n). split; [lia |].
    apply in_seq. lia. }
  unfold octetWritten in H. cbv zeta in H.
  apply andb_prop in H as [H H3]. apply andb_prop in H as [H1 H2].
  split; [| split].
  - apply List.Forall_forall. intros c Hc. rewrite forallb_forall in H1.
    specialize (H1 c Hc). intros ->. discriminate.
  - apply map_fixed. exact H2.
  - destruct (JS.NumberL (URL.showDecimal n)) as [| [m [p | p |]] |];
      try discriminate.
    apply Z.eqb_eq in H3. subst m. reflexivity.
Qed.

Lemma splitL_no_sep (sep : ascii) (p cur rest : JS.chars) :
  Forall (fun c => c <> sep) p ->
  JS.splitL sep cur (p ++ rest) = JS.splitL sep (rev p ++ cur) rest.
Proof.
  intros H. revert cur. induction H as [| c p Hc Hp IH]; intros cur; [reflexivity |].
  simpl. destruct (Ascii.eqb_spec c sep) as [Heq | _]; [destruct (Hc Heq) |].
  rewrite IH, <- app_assoc. reflexivity.
Qed.

Lemma eqZ_ofZ (a n : Z) : JS.eqZ (JS.ofZ a) n = (a =? n).
Proof.
  unfold JS.eqZ, JS.ofZ, Qeq_bool, inject_Z. simpl. rewrite !Z.mul_1_r.
  reflexivity.
Qed.

Lemma geZ_ofZ (a n : Z) : JS.geZ (JS.ofZ a) n = (n <=? a).
Proof.
  unfold JS.geZ, JS.ofZ, Qle_bool, inject_Z. simpl. rewrite !Z.mul_1_r.
  reflexivity.
Qed.

Lemma leZ_ofZ (a n : Z) : JS.leZ (JS.ofZ a) n = (a <=? n).
Proof.
  unfold JS.leZ, JS.ofZ, Qle_bool, inject_Z. simpl. rewrite !Z.mul_1_r.
  reflexivity.
Qed.

(** The parts of a dotted quad, as [split('.')] and [Number] see them. *)
Lemma quad_parts (a b c d : Z) :
  0 <= a < 256 -> 0 <= b < 256 -> 0 <= c < 256 -> 0 <= d < 256 ->
  JS.toLowerCase (quad a b c d) = quad a b c d
  /\ JS.splitL "." [] (list_ascii_of_string (quad a b c d))
     = List.map URL.showDecimal [a; b; c; d]
  /\ List.map JS.Number (JS.split "." (quad a b c d))
     = List.map JS.ofZ [a; b; c; d].
Proof.
  intros Ha Hb Hc Hd.
  destruct (octetWritten_spec a Ha) as (Da & La & Na).
  destruct (octetWritten_spec b Hb) as (Db & Lb & Nb).
  destruct (octetWritten_spec c Hc) as (Dc & Lc & Nc).
  destruct (octetWritten_spec d Hd) as (Dd & Ld & Nd).
  assert (Hs : JS.splitL "." [] (list_ascii_of_string (quad a b c d))
               = List.map URL.showDecimal [a; b; c; d]).
  { unfold quad. rewrite list_ascii_of_string_of_list_ascii.
    cbn [List.map URL.joinWith].
    rewrite (splitL_no_sep "." _ [] _ Da). cbn [app JS.splitL Ascii.eqb Bool.eqb].
    rewrite app_nil_r, rev_involutive.
    rewrite (splitL_no_sep "." _ [] _ Db). cbn [app JS.splitL Ascii.eqb Bool.eqb].
    rewrite app_nil_r, rev_involutive.
    rewrite (splitL_no_sep "." _ [] _ Dc). cbn [app JS.splitL Ascii.eqb Bool.eqb].
    rewrite app_nil_r, rev_involutive.
    rewrite <- (app_nil_r (URL.showDecimal d)) at 1.
    rewrite (splitL_no_sep "." _ [] _ Dd). cbn [JS.splitL].
    rewrite app_nil_r, rev_involutive. reflexivity. }
  split; [| split].
  - unfold JS.toLowerCase, quad. rewrite list_ascii_of_string_of_list_ascii.
    cbn [List.map URL.joinWith]. rewrite !map_app. cbn [List.map].
    rewrite La, Lb, Lc, Ld. reflexivity.
  - exact Hs.
  - unfold JS.split. rewrite Hs. cbn [List.map]. unfold JS.Number.
    rewrite !list_ascii_of_string_of_list_ascii, Na, Nb, Nc, Nd. reflexivity.
Qed.

Lemma quad_eqb (a b c d a' b' c' d' : Z) :
  0 <= a < 256 -> 0 <= b < 256 -> 0 <= c < 256 -> 0 <= d < 256 ->
  0 <= a' < 256 -> 0 <= b' < 256 -> 0 <= c' < 256 -> 0 <= d' < 256 ->
  String.eqb (quad a b c d) (quad a' b' c' d')
  = (a =? a') && (b =? b') && (c =? c') && (d =? d').
Proof.
  intros Ha Hb Hc Hd Ha' Hb' Hc' Hd'.
  destruct (String.eqb_spec (quad a b c d) (quad a' b' c' d')) as [Heq | Hne].
  - pose proof (proj2 (proj2 (quad_parts a b c d Ha Hb Hc Hd))) as H.
    rewrite Heq, (proj2 (proj2 (quad_parts a' b' c' d' Ha' Hb' Hc' Hd'))) in H.
    unfold JS.ofZ, inject_Z in H. cbn [List.map] in H.
    injection H as -> -> -> ->. rewrite !Z.eqb_refl. reflexivity.
  - destruct (Z.eqb_spec a a') as [-> |]; [| reflexivity].
    destruct (Z.eqb_spec b b') as [-> |]; [| reflexivity].
    destruct (Z.eqb_spec c c') as [-> |]; [| reflexivity].
    destruct (Z.eqb_spec d d') as [-> |]; [| reflexivity].
    destruct Hne. reflexivity.
Qed.

Lemma quad_is_no_name (a b c d : Z) (name : string) :
  0 <= a < 256 -> 0 <= b < 256 -> 0 <= c < 256 -> 0 <= d < 256 ->
  length (JS.splitL "." [] (list_ascii_of_string name)) <> 4%nat ->
  String.eqb (quad a b c d) name = false.
Proof.
  intros Ha Hb Hc Hd Hn. apply String.eqb_neq. intros Heq. apply Hn.
  rewrite <- Heq, (proj1 (proj2 (quad_parts a b c d Ha Hb Hc Hd))).
  reflexivity.
Qed.

(** X1: on a URL whose host the constructor writes as the dotted quad
    [a.b.c.d], the guard refuses exactly 127.0.0.1, 169.254.169.254 and the
    ranges 10.x.x.x, 172.16-31.x.x, 192.168.x.x and 0.x.x.x, and accepts
    every other address, the rest of 127.x.x.x and of 169.254.x.x included. *)
Theorem isUrlSafe_on_ipv4 (rawUrl proto : string) (a b c d : Z) :
  URL.new_URL rawUrl = Some (URL.mk proto (quad a b c d)) ->
  proto = "http:" \/ proto = "https:" ->
  0 <= a < 256 -> 0 <= b < 256 -> 0 <= c < 256 -> 0 <= d < 256 ->
  isUrlSafe rawUrl = negb (refusedQuad a b c d).
Proof.
  intros Hu Hp Ha Hb Hc Hd. unfold isUrlSafe. rewrite Hu.
  unfold isParsedUrlSafe. cbn [URL.protocol URL.hostname].
  replace (negb (String.eqb proto "http:") && negb (String.eqb proto "https:"))
    with false by (destruct Hp as [-> | ->]; reflexivity).
  destruct (quad_parts a b c d Ha Hb Hc Hd) as (Hl & _ & Hparts).
  rewrite Hl, Hparts.
  rewrite (quad_is_no_name a b c d "localhost" Ha Hb Hc Hd) by (simpl; lia).
  rewrite (quad_is_no_name a b c d "::1" Ha Hb Hc Hd) by (simpl; lia).
  change "127.0.0.1"%string with (quad 127 0 0 1).
  change "169.254.169.254"%string with (quad 169 254 169 254).
  rewrite !quad_eqb by lia.
  cbn [List.map length Nat.eqb forallb JS.isNaN JS.ofZ negb andb part nth].
  fold (JS.ofZ a). fold (JS.ofZ b).
  rewrite !eqZ_ofZ, geZ_ofZ, leZ_ofZ. unfold refusedQuad.
  rewrite orb_false_r.
  destruct ((a =? 127) && (b =? 0) && (c =? 0) && (d =? 1)); [reflexivity |].
  destruct ((a =? 169) && (b =? 254) && (c =? 169) && (d =? 254)); [reflexivity |].
  destruct (a =? 10); [reflexivity |].
  destruct ((a =? 172) && (16 <=? b) && (b <=? 31)); [reflexivity |].
  destruct ((a =? 192) && (b =? 168)); [reflexivity |].
  destruct (a =? 0); reflexivity.
Qed.

Lemma isUrlSafe_on_ipv4_witness :
  URL.new_URL "http://127.0.0.2:8080/admin" = Some (URL.mk "http:" (quad 127 0 0 2))
  /\ isUrlSafe "http://127.0.0.2:8080/admin" = negb (refusedQuad 127 0 0 2).
Proof.
  assert (H : URL.new_URL "http://127.0.0.2:8080/admin"
              = Some (URL.mk "http:" (quad 127 0 0 2))) by reflexivity.
  split; [exact H |].
  apply (isUrlSafe_on_ipv4 _ "http:" 127 0 0 2 H); [left; reflexivity | lia ..].
Defined.

(** ** What the local engine lists and what it acts on *)

Lemma slice0_empty (s : string) (n : nat) :
  String.eqb (JS.slice0 s (S n)) "" = String.eqb s "".
Proof. destruct s; reflexivity. Qed.

Lemma links_are_real_links (l : list Playwright.Anchor) :
  List.filter (fun k => negb (String.eqb (label k) "")
                        && JS.startsWith (link_url k) "http")
              (List.map Playwright.toLink l)
  = List.map Playwright.toLink (List.filter Playwright.isRealLink l).
Proof.
  induction l as [| a l IH]; [reflexivity |]. simpl.
  unfold Playwright.isRealLink at 1. rewrite (slice0_empty _ 99).
  destruct (negb _ && _); simpl; rewrite IH; reflexivity.
Qed.

Lemma nth_error_firstn {A} (n i : nat) (l : list A) :
  nth_error (firstn n l) i = if (i <? n)%nat then nth_error l i else None.
Proof.
  revert i l. induction n as [| n IH]; intros i l.
  - destruct i; reflexivity.
  - destruct l as [| x l].
    + destruct i as [| i]; [reflexivity |].
      destruct (S i <? S n)%nat; reflexivity.
    + destruct i as [| i]; [reflexivity |]. simpl firstn. simpl nth_error.
      rewrite IH. reflexivity.
Qed.

Lemma listed_links_nth (d : Playwright.Document) (i : nat) :
  nth_error (links (Playwright.extractPageInfo d)) i
  = if (i <? 30)%nat
    then option_map Playwright.toLink
           (nth_error (List.filter Playwright.isRealLink (Playwright.anchors d)) i)
    else None.
Proof.
  cbn [Playwright.extractPageInfo links].
  rewrite nth_error_firstn, links_are_real_links.
  destruct (i <? 30)%nat; [| reflexivity].
  apply nth_error_map.
Qed.

(** X2: on the page that [click] works on, a link listed at position [i]
    is made from the anchor that [click] activates for a [ref] that reads as
    [i]: the filter of the listing and the filter of [click] select the same
    anchors in the same order. What [click] returns is what the activation
    of that anchor does to the page: the page as it is, the page it leads
    to, or an error when the page is left while it is read. *)
Theorem listed_link_is_click_target
  (e e1 : Playwright.Engine) (p : Playwright.Page) (w : Playwright.Reaction)
  (r : string) (i : nat) (k : PageLink) :
  Playwright.ensurePage e w = (e1, inr p) ->
  Playwright.validIndex r = Some i ->
  nth_error (links (Playwright.extractPageInfo (Playwright.doc p))) i = Some k ->
  exists a,
    nth_error (List.filter Playwright.isRealLink
                 (Playwright.anchors (Playwright.doc p))) i = Some a
    /\ k = Playwright.toLink a
    /\ Playwright.click e r w
       = match Playwright.clicked w a with
         | Playwright.Stays => Playwright.shows e1 p
         | Playwright.Leads d => Playwright.shows e1 (Playwright.visit p d)
         | Playwright.Breaks d =>
             (Playwright.mkEngine (Playwright.browser e1)
                (Some (Playwright.visit p d)), inl EngineRejected)
         end.
Proof.
  intros He Hr Hk. rewrite listed_links_nth in Hk.
  destruct (i <? 30)%nat; [| discriminate].
  destruct (nth_error _ i) as [a |] eqn:Ha; [| discriminate].
  injection Hk as <-. exists a. split; [reflexivity |]. split; [reflexivity |].
  unfold Playwright.click. rewrite He, Hr, Ha. reflexivity.
Qed.

Lemma listed_link_is_click_target_witness :
  Playwright.ensurePage atSearch following
  = (atSearch, inr (Playwright.mkPageState false searchPage []))
  /\ Playwright.validIndex "0" = Some O
  /\ nth_error (links (Playwright.extractPageInfo searchPage)) 0
     = Some (mkLink "More" "https://www.iana.org/")
  /\ exists a,
       mkLink "More" "https://www.iana.org/" = Playwright.toLink a
       /\ Playwright.click atSearch "0" following
          = match Playwright.clicked following a with
            | Playwright.Stays =>
                Playwright.shows atSearch (Playwright.mkPageState false searchPage [])
            | Playwright.Leads d =>
                Playwright.shows atSearch
                  (Playwright.visit (Playwright.mkPageState false searchPage []) d)
            | Playwright.Breaks d =>
                (Playwright.mkEngine (Playwright.browser atSearch)
                   (Some (Playwright.visit
                            (Playwright.mkPageState false searchPage []) d)),
                 inl EngineRejected)
            end.
Proof.
  assert (H1 : Playwright.ensurePage atSearch following
               = (atSearch, inr (Playwright.mkPageState false searchPage [])))
    by reflexivity.
  assert (H2 : Playwright.validIndex "0" = Some O) by reflexivity.
  assert (H3 : nth_error (links (Playwright.extractPageInfo searchPage)) 0
               = Some (mkLink "More" "https://www.iana.org/")) by reflexivity.
  split; [exact H1 |]. split; [exact H2 |]. split; [exact H3 |].
  destruct (listed_link_is_click_target atSearch atSearch
              (Playwright.mkPageState false searchPage []) following "0" 0
              (mkLink "More" "https://www.iana.org/") H1 H2 H3)
    as (a & _ & Hk & Hc).
  exists a. split; [exact Hk | exact Hc].
Defined.

(** X4: every link the local engine lists has a label that is not empty
    and at most 100 characters long, and a URL that starts with [http]. *)
Theorem listed_links_well_formed (d : Playwright.Document) (k : PageLink) :
  In k (links (Playwright.extractPageInfo d)) ->
  label k <> ""
  /\ (String.length (label k) <= 100)%nat
  /\ JS.startsWith (link_url k) "http" = true.
Proof.
  cbn [Playwright.extractPageInfo links]. intros H.
  apply list_elem_of_In, (subseteq_take 30), list_elem_of_In in H.
  apply filter_In in H as [Hin Hk]. apply andb_prop in Hk as [Hl Hu].
  apply in_map_iff in Hin as (a & <- & _).
  split; [| split].
  - intros He. rewrite He in Hl. discriminate.
  - apply slice0_length.
  - exact Hu.
Qed.

Lemma listed_links_well_formed_witness :
  In (mkLink "More" "https://www.iana.org/")
     (links (Playwright.extractPageInfo searchPage))
  /\ label (mkLink "More" "https://www.iana.org/") <> "".
Proof.
  assert (H : In (mkLink "More" "https://www.iana.org/")
                 (links (Playwright.extractPageInfo searchPage)))
    by (left; reflexivity).
  split; [exact H |].
  exact (proj1 (listed_links_well_formed searchPage _ H)).
Defined.

Lemma nth_error_imap {A B} (f : nat -> A -> B) (l : list A) (i : nat) :
  nth_error (imap f l) i = option_map (f i) (nth_error l i).
Proof.
  revert f i. induction l as [| x l IH]; intros f i; [destruct i; reflexivity |].
  rewrite imap_cons. destruct i as [| i]; [reflexivity |].
  exact (IH (f ∘ S) i).
Qed.

Lemma small_refs_read_back :
  forallb (fun i => match Playwright.validIndex (pretty i) with
                    | Some j => (j =? i)%nat
                    | None => false
                    end) (seq 0 20) = true.
Proof. vm_compute. reflexivity. Qed.

Lemma validIndex_pretty (i : nat) :
  (i < 20)%nat -> Playwright.validIndex (pretty i) = Some i.
Proof.
  intros Hi. pose proof small_refs_read_back as H.
  rewrite forallb_forall in H. specialize (H i).
  destruct (Playwright.validIndex (pretty i)) as [j |].
  - f_equal. apply Nat.eqb_eq. apply H. apply in_seq. lia.
  - discriminate H. apply in_seq. lia.
Qed.



(** ** What the remote-service backend reads from a snapshot *)

(** A match of the link pattern: group 2 starts with [http://] or
    [https://] and goes on for at least one more character. *)
Lemma matchLink_groups (l g1 g2 rest : JS.chars) :
  Pinchtab.matchLink l = Some (g1, g2, rest) ->
  exists more c,
    g2 = Pinchtab.str "http://" ++ c :: more
    \/ g2 = Pinchtab.str "https://" ++ c :: more.
Proof.
  unfold Pinchtab.matchLink. intros H.
  apply bind_Some in H as (r0 & _ & H).
  destruct (Pinchtab.untilChar "]" r0) as [a r1].
  apply bind_Some in H as (r2 & _ & H).
  apply bind_Some in H as (r3 & _ & H).
  apply bind_Some in H as ([s r4] & Hs & H).
  destruct (Pinchtab.untilChar ")" r4) as [[| c more] r5]; [discriminate |].
  apply bind_Some in H as (r6 & _ & H). injection H as <- <- <-.
  exists more, c.
  destruct (Pinchtab.lit (Pinchtab.str "s://") r3) as [r |].
  - injection Hs as <- <-. right. reflexivity.
  - destruct (Pinchtab.lit (Pinchtab.str "://") r3); [| discriminate].
    injection Hs as <- <-. left. reflexivity.
Qed.

Lemma parseLinksL_links (fuel : nat) (l : JS.chars) (k : PageLink) :
  In k (Pinchtab.parseLinksL fuel l) ->
  label k <> ""
  /\ (JS.startsWith (link_url k) "http://" = true
      \/ JS.startsWith (link_url k) "https://" = true).
Proof.
  revert l. induction fuel as [| fuel IH]; intros l; [intros [] |].
  cbn [Pinchtab.parseLinksL]. destruct l as [| c r]; [intros [] |].
  destruct (Pinchtab.matchLink (c :: r)) as [[[g1 g2] rest] |] eqn:Hm; [| apply IH].
  intros [<- | Hin]; [| exact (IH _ Hin)].
  destruct (matchLink_groups _ _ _ _ Hm) as (more & c' & [-> | ->]).
  - split; [cbn [label]; destruct g1; simpl; discriminate | left; reflexivity].
  - split; [cbn [label]; destruct g1; simpl; discriminate | right; reflexivity].
Qed.

(** X5: every link read from a snapshot has a label that is not empty
    (the URL stands in for an empty one) and a URL that starts with
    [http://] or [https://]. *)
Theorem snapshot_links_well_formed (content : string) (k : PageLink) :
  In k (Pinchtab.parseLinksFromSnapshot content) ->
  label k <> ""
  /\ (JS.startsWith (link_url k) "http://" = true
      \/ JS.startsWith (link_url k) "https://" = true).
Proof. apply parseLinksL_links. Qed.

Lemma snapshot_links_well_formed_witness :
  In (mkLink "http://b" "http://b") (Pinchtab.parseLinksFromSnapshot "see [](http://b)")
  /\ label (mkLink "http://b" "http://b") <> "".
Proof.
  assert (H : In (mkLink "http://b" "http://b")
                 (Pinchtab.parseLinksFromSnapshot "see [](http://b)"))
    by (left; reflexivity).
  split; [exact H |].
  exact (proj1 (snapshot_links_well_formed _ _ H)).
Defined.

Lemma digit_is_plain (c : ascii) :
  JS.isDigit c = true ->
  JS.isWhiteSpace c = false
  /\ (forall r, JS.signOf (c :: r) = (false, c :: r))
  /\ exists v, JS.digitVal 10 c = Some v /\ 0 <= v.
Proof.
  destruct c as [[] [] [] [] [] [] [] []]; try discriminate; intros _;
    (split; [reflexivity | split; [reflexivity | eexists; split; [reflexivity | vm_compute; discriminate]]]).
Qed.

Lemma takeDigits_digits (g : JS.chars) (acc : Z) (n : nat) :
  forallb JS.isDigit g = true -> 0 <= acc ->
  exists v, JS.takeDigits 10 acc n g = (v, (n + length g)%nat, []) /\ 0 <= v.
Proof.
  revert acc n. induction g as [| c g IH]; intros acc n Hg Hacc; simpl.
  - exists acc. rewrite Nat.add_0_r. auto.
  - apply andb_prop in Hg as [Hc Hg].
    destruct (digit_is_plain c Hc) as (_ & _ & v & -> & Hv).
    destruct (IH (acc * 10 + v) (S n) Hg ltac:(lia)) as (w & -> & Hw).
    exists w. split; [f_equal; f_equal; lia | exact Hw].
Qed.

Lemma digitsOf_digits (l g r : JS.chars) :
  Pinchtab.digitsOf l = (g, r) -> forallb JS.isDigit g = true.
Proof.
  revert g r. induction l as [| c l IH]; intros g r; simpl.
  - intros [= <- <-]. reflexivity.
  - destruct (JS.isDigit c) eqn:Hc.
    + destruct (Pinchtab.digitsOf l) as [a b]. intros [= <- <-].
      simpl. rewrite Hc. exact (IH a b eq_refl).
    + intros [= <- <-]. reflexivity.
Qed.

(** A string of decimal digits passes the router's test on references. *)
Lemma validateNumericRef_digits (g : JS.chars) :
  g <> [] -> forallb JS.isDigit g = true ->
  exists n, validateNumericRef (string_of_list_ascii g) = Some n /\ 0 <= n.
Proof.
  intros Hne Hg. destruct g as [| c g]; [destruct Hne; reflexivity |].
  pose proof Hg as Hg'. apply andb_prop in Hg' as [Hc _].
  destruct (digit_is_plain c Hc) as (Hw & Hs & _).
  destruct (takeDigits_digits (c :: g) 0 O Hg ltac:(lia)) as (v & Hv & Hv0).
  exists v. split; [| exact Hv0].
  unfold validateNumericRef, JS.parseInt10.
  rewrite list_ascii_of_string_of_list_ascii.
  cbn [JS.trimStartL]. rewrite Hw, Hs, Hv. cbn [length Nat.add].
  replace (v <? 0) with false by (symmetry; apply Z.ltb_ge; exact Hv0).
  reflexivity.
Qed.

Lemma matchInput_entry (l rest : JS.chars) (inp : PageInput) :
  Pinchtab.matchInput l = Some (inp, rest) ->
  (exists n, validateNumericRef (ref inp) = Some n /\ 0 <= n)
  /\ input_type inp <> "".
Proof.
  unfold Pinchtab.matchInput. intros H.
  apply bind_Some in H as (r0 & _ & H).
  destruct (Pinchtab.digitsOf r0) as [g1 r1] eqn:Hd.
  destruct g1 as [| c g1]; [discriminate |].
  apply bind_Some in H as (r2 & _ & H).
  apply bind_Some in H as (r4 & _ & H).
  destruct (Pinchtab.attribute "type" _) as [g2 r5].
  destruct (Pinchtab.attribute "placeholder" _) as [g3 r6].
  injection H as <- <-. cbn [ref input_type]. split.
  - apply (validateNumericRef_digits (c :: g1)); [discriminate |].
    exact (digitsOf_digits _ _ _ Hd).
  - destruct g2; discriminate.
Qed.

Lemma parseInputsL_entries (fuel : nat) (l : JS.chars) (inp : PageInput) :
  In inp (Pinchtab.parseInputsL fuel l) ->
  (exists n, validateNumericRef (ref inp) = Some n /\ 0 <= n)
  /\ input_type inp <> "".
Proof.
  revert l. induction fuel as [| fuel IH]; intros l; [intros [] |].
  cbn [Pinchtab.parseInputsL]. destruct l as [| c r]; [intros [] |].
  destruct (Pinchtab.matchInput (c :: r)) as [[i rest] |] eqn:Hm; [| apply IH].
  intros [<- | Hin]; [exact (matchInput_entry _ _ _ Hm) | exact (IH _ Hin)].
Qed.

(** X6: every input read from a snapshot carries a [ref] made of decimal
    digits, which the router's [validateNumericRef] accepts as a
    non-negative integer, and a [type] that is not empty ([text] when the
    snapshot gives none). *)
Theorem snapshot_inputs_have_valid_refs (content : string) (inp : PageInput) :
  In inp (Pinchtab.parseInputsFromSnapshot content) ->
  (exists n, validateNumericRef (ref inp) = Some n /\ 0 <= n)
  /\ input_type inp <> "".
Proof. apply parseInputsL_entries. Qed.

Lemma snapshot_inputs_have_valid_refs_witness :
  In (mkInput "7" "text" "") (Pinchtab.parseInputsFromSnapshot "[ref=7] textarea")
  /\ input_type (mkInput "7" "text" "") <> "".
Proof.
  assert (H : In (mkInput "7" "text" "")
                 (Pinchtab.parseInputsFromSnapshot "[ref=7] textarea"))
    by (left; reflexivity).
  split; [exact H |].
  exact (proj2 (snapshot_inputs_have_valid_refs _ _ H)).
Defined.

(** ** The remote-service backend *)

(** X7: [getPageInfo] needs the page text only. When the text request is
    answered and the snapshot request is not, whatever the failure, the
    call succeeds with the text cut at 2000 characters and with no links and
    no inputs. *)
Theorem getPageInfo_survives_a_failed_snapshot
  (u body : string) (srv : Pinchtab.Service) :
  Pinchtab.text_body srv = Pinchtab.Answer body ->
  (forall snaps, Pinchtab.snapshot_body srv <> Pinchtab.Answer snaps) ->
  exists info,
    Pinchtab.getPageInfo u srv = inr info
    /\ url info = u
    /\ text info = JS.slice0 body 2000
    /\ links info = []
    /\ inputs info = [].
Proof.
  intros Ht Hs. unfold Pinchtab.getPageInfo. rewrite Ht. simpl.
  destruct (Pinchtab.snapshot_body srv) as [snaps | status |];
    [destruct (Hs snaps eq_refl) | |]; simpl; eexists; repeat split.
Qed.

Lemma getPageInfo_survives_a_failed_snapshot_witness :
  Pinchtab.text_body textOnly = Pinchtab.Answer "Title"
  /\ exists info,
       Pinchtab.getPageInfo "https://example.com/" textOnly = inr info
       /\ url info = "https://example.com/"
       /\ text info = JS.slice0 "Title" 2000
       /\ links info = []
       /\ inputs info = [].
Proof.
  assert (H : Pinchtab.text_body textOnly = Pinchtab.Answer "Title") by reflexivity.
  split; [exact H |].
  apply (getPageInfo_survives_a_failed_snapshot _ _ textOnly H).
  intros snaps. discriminate.
Defined.

Lemma pop_snoc (h : Pinchtab.urlHistory) (u : string) :
  h <> [] ->
  (if (1 <? length (h ++ [u]))%nat then removelast (h ++ [u]) else h ++ [u]) = h.
Proof.
  intros Hne. destruct (Nat.ltb_spec 1 (length (h ++ [u]))) as [_ | Hle].
  - apply removelast_last.
  - rewrite length_app in Hle. simpl in Hle.
    destruct h; [destruct Hne; reflexivity | simpl in Hle; lia].
Qed.

(** X8: on the remote-service backend an accepted [back()] undoes an
    accepted [navigate(u)]: the URL history is what it was before, except
    that the first URL ever visited stays (the history never goes back to
    empty). *)
Theorem back_undoes_navigate
  (h : Pinchtab.urlHistory) (u : string) (srv1 srv2 : Pinchtab.Service) :
  Pinchtab.instruction srv1 = Pinchtab.Answer tt ->
  Pinchtab.instruction srv2 = Pinchtab.Answer tt ->
  fst (Pinchtab.back (fst (Pinchtab.navigate h u srv1)) srv2)
  = match h with
    | [] => [u]
    | _ => h
    end.
Proof.
  intros H1 H2. unfold Pinchtab.navigate, Pinchtab.back. rewrite H1. simpl.
  rewrite H2. cbn [fst]. destruct h as [| x h]; [reflexivity |].
  apply pop_snoc. discriminate.
Qed.

Lemma back_undoes_navigate_witness :
  Pinchtab.instruction obliging = Pinchtab.Answer tt
  /\ fst (Pinchtab.back
            (fst (Pinchtab.navigate ["https://a.example/"] "https://b.example/"
                    obliging)) obliging)
     = ["https://a.example/"].
Proof.
  assert (H : Pinchtab.instruction obliging = Pinchtab.Answer tt) by reflexivity.
  split; [exact H |].
  exact (back_undoes_navigate ["https://a.example/"] "https://b.example/"
           obliging obliging H H).
Defined.

(** X9: on the remote-service backend the URL history follows the answer
    to the instruction alone. A [navigate(u)] whose instruction is accepted
    and whose page text cannot be fetched raises and still records [u], so
    the page reported next is [u]; a [back()] in the same situation raises
    and still drops the last entry of any history of more than one entry
    (a shorter history it leaves alone). *)
Theorem history_changes_although_the_call_fails
  (h : Pinchtab.urlHistory) (u : string) (srv : Pinchtab.Service) :
  Pinchtab.instruction srv = Pinchtab.Answer tt ->
  (forall body, Pinchtab.text_body srv <> Pinchtab.Answer body) ->
  (exists e, Pinchtab.navigate h u srv = (h ++ [u], inl e))
  /\ Pinchtab.currentUrl (fst (Pinchtab.navigate h u srv)) = u
  /\ (exists e,
        Pinchtab.back h srv
        = ((if (1 <? length h)%nat then removelast h else h), inl e))
  /\ (forall x y, exists e, Pinchtab.back (h ++ [x; y]) srv = (h ++ [x], inl e)).
Proof.
  intros Hi Ht.
  assert (Hg : forall v, exists e, Pinchtab.getPageInfo v srv = inl e).
  { intros v. unfold Pinchtab.getPageInfo.
    destruct (Pinchtab.text_body srv) as [body | |];
      [destruct (Ht body eq_refl) | |]; simpl; eauto. }
  assert (Hb : forall h0, exists e,
             Pinchtab.back h0 srv
             = ((if (1 <? length h0)%nat then removelast h0 else h0), inl e)).
  { intros h0. unfold Pinchtab.back. rewrite Hi.
    cbn [Pinchtab.pinchtabFetch]. cbv beta iota zeta.
    destruct (Hg (Pinchtab.currentUrl
                    (if (1 <? length h0)%nat then removelast h0 else h0)))
      as [e He]. exists e. f_equal. exact He. }
  split; [| split; [| split]].
  - unfold Pinchtab.navigate. rewrite Hi. simpl.
    destruct (Hg u) as [e ->]. eauto.
  - unfold Pinchtab.navigate. rewrite Hi. simpl. apply currentUrl_snoc.
  - apply Hb.
  - intros x y. destruct (Hb (h ++ [x; y])) as [e He]. exists e. rewrite He.
    change (h ++ [x; y]) with (h ++ [x] ++ [y]). rewrite app_assoc.
    rewrite pop_snoc by (destruct h; discriminate). reflexivity.
Qed.

Lemma history_changes_although_the_call_fails_witness :
  Pinchtab.instruction noText = Pinchtab.Answer tt
  /\ Pinchtab.currentUrl (fst (Pinchtab.navigate [] "https://a.example/" noText))
     = "https://a.example/"
  /\ exists e,
       Pinchtab.back ["https://a.example/"; "https://b.example/"] noText
       = (["https://a.example/"], inl e).
Proof.
  assert (H : Pinchtab.instruction noText = Pinchtab.Answer tt) by reflexivity.
  assert (H' : forall body, Pinchtab.text_body noText <> Pinchtab.Answer body)
    by (intros body; discriminate).
  split; [exact H |].
  destruct (history_changes_although_the_call_fails [] "https://a.example/" noText
              H H') as (_ & Hu & _ & Hb).
  split; [exact Hu | exact (Hb "https://a.example/" "https://b.example/")].
Defined.

(** ** The local engine *)

(** X10: [cleanup()] of the local engine is idempotent and leaves neither
    a browser nor an open page; a call made afterwards has to launch a
    browser again and starts from a blank page, or fails when the launch
    does. *)
Theorem cleanup_releases_everything (e : Playwright.Engine) (w : Playwright.Reaction) :
  Playwright.cleanup (Playwright.cleanup e) = Playwright.cleanup e
  /\ Playwright.browser (Playwright.cleanup e) = false
  /\ (forall p, Playwright.page (Playwright.cleanup e) = Some p ->
                Playwright.closed p = true)
  /\ Playwright.ensurePage (Playwright.cleanup e) w
     = if Playwright.launches w
       then (Playwright.mkEngine true
               (Some (Playwright.mkPageState false Playwright.blank [])),
             inr (Playwright.mkPageState false Playwright.blank []))
       else (Playwright.cleanup e, inl EngineRejected).
Proof.
  destruct e as [b [[cl d hist] |]]; [destruct cl |];
    unfold Playwright.cleanup, Playwright.ensurePage; simpl;
    (split; [reflexivity |]); (split; [reflexivity |]);
    (split; [intros p H; first [discriminate H | injection H as <-; reflexivity]
            | destruct (Playwright.launches w); reflexivity]).
Qed.

(** X11: [ensurePage] never hands out a closed page, and the page it
    returns is the one the backend holds afterwards; an open page is reused
    as it is, with the backend left as it was, whether or not a browser
    could be launched; [ensurePage] fails only for a backend that has no
    open page. *)
Theorem ensurePage_outcomes
  (e e1 : Playwright.Engine) (w : Playwright.Reaction) (r : Result Playwright.Page) :
  Playwright.ensurePage e w = (e1, r) ->
  match r with
  | inr p =>
      Playwright.closed p = false
      /\ Playwright.page e1 = Some p
      /\ (forall q, Playwright.page e = Some q -> Playwright.closed q = false ->
                    e1 = e /\ p = q)
  | inl err =>
      forall q, Playwright.page e = Some q -> Playwright.closed q = true
  end.
Proof.
  unfold Playwright.ensurePage.
  destruct e as [b [[cl d hist] |]]; simpl; [destruct cl; simpl |];
    destruct b; simpl; try destruct (Playwright.launches w) eqn:Hl;
    intros [= <- <-]; repeat split; try reflexivity;
    intros; simplify_eq /=; auto.
Qed.

Lemma ensurePage_outcomes_witness :
  Playwright.ensurePage atHome neverLaunches
  = (atHome, inr (Playwright.mkPageState false home [Playwright.blank]))
  /\ Playwright.closed (Playwright.mkPageState false home [Playwright.blank]) = false.
Proof.
  assert (H : Playwright.ensurePage atHome neverLaunches
              = (atHome, inr (Playwright.mkPageState false home [Playwright.blank])))
    by reflexivity.
  split; [exact H |].
  exact (proj1 (ensurePage_outcomes _ _ _ _ H)).
Defined.

(** ** Formatting and the links keyboard *)

Lemma list_ascii_of_string_append (a b : string) :
  list_ascii_of_string (String.append a b)
  = list_ascii_of_string a ++ list_ascii_of_string b.
Proof. induction a as [| c a IH]; [reflexivity | simpl; f_equal; exact IH]. Qed.

Lemma string_length_list (s : string) :
  String.length s = length (list_ascii_of_string s).
Proof. induction s as [| c s IH]; [reflexivity | simpl; f_equal; exact IH]. Qed.

(** X12: [truncateText] returns at most [max + 3] characters and keeps
    the first [max] characters of the text; a text of at most [max]
    characters comes back as it is, a longer one as exactly [max + 3]
    characters; truncating twice is truncating once. *)
Theorem truncateText_bounded_idempotent (text : string) (max : nat) :
  (String.length (truncateText text max) <= max + 3)%nat
  /\ JS.slice0 (truncateText text max) max = JS.slice0 text max
  /\ truncateText (truncateText text max) max = truncateText text max
  /\ (if (String.length text <=? max)%nat
      then truncateText text max = text
      else String.length (truncateText text max) = (max + 3)%nat).
Proof.
  unfold truncateText.
  destruct (Nat.leb_spec (String.length text) max) as [Hle | Hgt].
  - rewrite (proj2 (Nat.leb_le _ _) Hle).
    split; [lia |]. split; [reflexivity |]. split; reflexivity.
  - assert (Hcut : length (firstn max (list_ascii_of_string text)) = max).
    { rewrite length_firstn, <- string_length_list. lia. }
    assert (Hlen : String.length (String.append (JS.slice0 text max) "...")
                   = (max + 3)%nat).
    { rewrite string_length_list, list_ascii_of_string_append, length_app.
      unfold JS.slice0. rewrite list_ascii_of_string_of_list_ascii, Hcut.
      reflexivity. }
    assert (Hpre : JS.slice0 (String.append (JS.slice0 text max) "...") max
                   = JS.slice0 text max).
    { unfold JS.slice0 at 1. rewrite list_ascii_of_string_append.
      unfold JS.slice0 at 1. rewrite list_ascii_of_string_of_list_ascii.
      rewrite firstn_app, Hcut, Nat.sub_diag. simpl firstn at 2.
      rewrite app_nil_r, <- Hcut at 1. rewrite firstn_all. reflexivity. }
    rewrite Hlen.
    replace (max + 3 <=? max)%nat with false by (symmetry; apply Nat.leb_gt; lia).
    rewrite Hpre. split; [lia |]. split; [reflexivity |]. split; reflexivity.
Qed.

Lemma escapeMarkdownL_guarded (l : JS.chars) (i : nat) (c : ascii) :
  nth_error (escapeMarkdownL l) i = Some c ->
  isMarkdownSpecial c = true ->
  exists j, i = S j /\ nth_error (escapeMarkdownL l) j = Some backslash.
Proof.
  revert i. induction l as [| x l IH]; intros i; [destruct i; discriminate |].
  unfold escapeMarkdownL in *. cbn [flat_map].
  destruct (isMarkdownSpecial x) eqn:Hx; cbn [app].
  - destruct i as [| [| i]]; cbn [nth_error].
    + intros [= <-] Hc. discriminate Hc.
    + intros _ _. exists O. auto.
    + intros Hi Hc. destruct (IH i Hi Hc) as (j & -> & Hj).
      exists (S (S j)). auto.
  - destruct i as [| i]; cbn [nth_error].
    + intros [= <-] Hc. congruence.
    + intros Hi Hc. destruct (IH i Hi Hc) as (j & -> & Hj).
      exists (S j). auto.
Qed.

(** X13: in the text [escapeMarkdown] returns, every character of its
    class has a backslash right before it; for every text, the result is at
    most twice as long as the text; and a backslash of the text is copied as
    it is (the class does not hold it). *)
Theorem escapeMarkdown_guards_specials (text : string) :
  (forall i c,
     nth_error (list_ascii_of_string (escapeMarkdown text)) i = Some c ->
     isMarkdownSpecial c = true ->
     exists j, i = S j
               /\ nth_error (list_ascii_of_string (escapeMarkdown text)) j
                  = Some backslash)
  /\ (String.length (escapeMarkdown text) <= 2 * String.length text)%nat
  /\ isMarkdownSpecial backslash = false.
Proof.
  unfold escapeMarkdown. rewrite list_ascii_of_string_of_list_ascii.
  split; [intros i c Hi Hc; exact (escapeMarkdownL_guarded _ _ _ Hi Hc) |].
  split; [| reflexivity].
  rewrite length_string_of_list_ascii, string_length_list.
  induction (list_ascii_of_string text) as [| x l IH]; [simpl; lia |].
  unfold escapeMarkdownL in *. cbn [flat_map]. rewrite length_app.
  destruct (isMarkdownSpecial x); simpl length; lia.
Qed.

Lemma escapeMarkdown_guards_specials_witness :
  nth_error (list_ascii_of_string (escapeMarkdown "a.b")) 2 = Some "."%char
  /\ isMarkdownSpecial "." = true
  /\ exists j, 2%nat = S j
               /\ nth_error (list_ascii_of_string (escapeMarkdown "a.b")) j
                  = Some backslash.
Proof.
  assert (H1 : nth_error (list_ascii_of_string (escapeMarkdown "a.b")) 2
               = Some "."%char) by reflexivity.
  assert (H2 : isMarkdownSpecial "." = true) by reflexivity.
  split; [exact H1 |]. split; [exact H2 |].
  exact (proj1 (escapeMarkdown_guards_specials "a.b") 2%nat "."%char H1 H2).
Defined.

Lemma startsWith_append (p r : string) :
  JS.startsWith (String.append p r) p = true.
Proof.
  unfold JS.startsWith. induction p as [| a p IH]; [destruct r; reflexivity |].
  simpl. destruct (ascii_dec a a); [exact IH | congruence].
Qed.

(** A button whose data is [browse:click:] followed by a reference that
    passes the test takes the click branch of [handleCallback] with that
    reference. *)
Lemma handleCallback_click
  (env : Env) (chat : Z) (msg : option string) (r : string) (n : Z) (st : State) :
  chat <> 0 ->
  validateNumericRef r = Some n ->
  exists rest,
    trace (snd (handleCallback env (mkCtx (Some chat) msg)
                  (String.append "browse:click:" r) st))
    = trace (snd (getSession env chat (snd (say chat Busy st))))
        ++ Clicked chat r :: rest.
Proof.
  intros Hc Hv. unfold handleCallback.
  change (JS.startsWith (String.append "browse:click:" r) "browse:") with true.
  cbn [negb chat_id].
  replace (chat =? 0) with false by (symmetry; apply Z.eqb_neq; exact Hc).
  change (JS.sliceFrom (String.append "browse:click:" r) 7)
    with (String.append "click:" (string_of_list_ascii (list_ascii_of_string r))).
  rewrite string_of_list_ascii_of_string. cbv zeta.
  change (String.eqb (String.append "click:" r) "links") with false.
  change (String.eqb (String.append "click:" r) "screenshot") with false.
  change (String.eqb (String.append "click:" r) "refresh") with false.
  change (String.eqb (String.append "click:" r) "back") with false.
  change (String.eqb (String.append "click:" r) "page") with false.
  rewrite (startsWith_append "click:" r).
  cbv iota.
  change (JS.sliceFrom (String.append "click:" r) 6)
    with (string_of_list_ascii (list_ascii_of_string r)).
  rewrite string_of_list_ascii_of_string, Hv.
  unfold bind, say, emit. cbn [fst snd].
  destruct (getSession env chat _) as [b s1]. cbn [fst snd trace].
  destruct (BrowserBackend.click b r (world env)) as [b' [e | info]];
    unfold storeBackend, showOrFail, cacheSet, say, emit, bind, get;
    cbn [fst snd sessions trace];
    destruct (sessions_get chat (sessions s1));
    unfold putSessions, putPageCache, ret; simpl;
    rewrite <- ?app_assoc; eexists; reflexivity.
Qed.

(** X14: the [i]-th row of the links keyboard is one button, captioned
    [i + 1], whose data the callback handler takes for a click with a
    reference that reads back as the index [i]: the pool is asked for the
    chat's session and [click] is called with that reference. The row after
    the numbered ones leads back to the page. *)
Theorem links_button_clicks_its_link
  (env : Env) (chat : Z) (msg : option string) (links : list PageLink)
  (i : nat) (st : State) :
  chat <> 0 -> (i < length links)%nat -> (i < MAX_LINKS_DISPLAY)%nat ->
  exists r rest,
    nth_error (buildLinksKeyboard links) i
    = Some [mkButton (Numbered (pretty (i + 1)%nat))
                     (String.append "browse:click:" r)]
    /\ Playwright.validIndex r = Some i
    /\ trace (snd (handleCallback env (mkCtx (Some chat) msg)
                     (String.append "browse:click:" r) st))
       = trace (snd (getSession env chat (snd (say chat Busy st))))
           ++ Clicked chat r :: rest
    /\ nth_error (buildLinksKeyboard links)
                 (Nat.min MAX_LINKS_DISPLAY (length links))
       = Some [mkButton BackToPage "browse:page"].
Proof.
  intros Hc Hl Hm.
  assert (Hv : Playwright.validIndex (pretty i) = Some i)
    by (apply validIndex_pretty; unfold MAX_LINKS_DISPLAY in Hm; lia).
  assert (Hn : exists n, validateNumericRef (pretty i) = Some n).
  { rewrite validIndex_validateNumericRef in Hv.
    destruct (validateNumericRef (pretty i)) as [n |]; [eauto | discriminate]. }
  destruct Hn as [n Hn].
  destruct (handleCallback_click env chat msg (pretty i) n st Hc Hn) as [rest Hr].
  exists (pretty i), rest. split; [| split; [exact Hv | split; [exact Hr |]]].
  - unfold buildLinksKeyboard.
    rewrite nth_error_app1
      by (rewrite length_imap, length_firstn; unfold MAX_LINKS_DISPLAY in *; lia).
    rewrite nth_error_imap, nth_error_firstn.
    replace (i <? MAX_LINKS_DISPLAY)%nat with true
      by (symmetry; apply Nat.ltb_lt; exact Hm).
    destruct (nth_error links i) eqn:E; [reflexivity |].
    apply nth_error_None in E. lia.
  - unfold buildLinksKeyboard.
    rewrite nth_error_app2 by (rewrite length_imap, length_firstn; lia).
    rewrite length_imap, length_firstn, Nat.sub_diag. reflexivity.
Qed.

Lemma links_button_clicks_its_link_witness :
  exists r rest,
    nth_error (buildLinksKeyboard (links (Playwright.extractPageInfo searchPage))) 0
    = Some [mkButton (Numbered (pretty 1%nat)) (String.append "browse:click:" r)]
    /\ Playwright.validIndex r = Some O
    /\ trace (snd (handleCallback (envAt 1 home) (mkCtx (Some 7) None)
                     (String.append "browse:click:" r) initial))
       = trace (snd (getSession (envAt 1 home) 7 (snd (say 7 Busy initial))))
           ++ Clicked 7 r :: rest
    /\ nth_error (buildLinksKeyboard (links (Playwright.extractPageInfo searchPage)))
                 (Nat.min MAX_LINKS_DISPLAY
                    (length (links (Playwright.extractPageInfo searchPage))))
       = Some [mkButton BackToPage "browse:page"].
Proof.
  apply (links_button_clicks_its_link (envAt 1 home) 7 None
           (links (Playwright.extractPageInfo searchPage)) 0 initial).
  - lia.
  - vm_compute. lia.
  - vm_compute. lia.
Defined.

(** ** The books of the pool *)

Lemma hoare_ret {A} (P : State -> Prop) (a : A) : hoare P (ret a) (fun _ => P).
Proof. intros st H. exact H. Qed.

Lemma hoare_get (P : State -> Prop) : hoare P get (fun _ => P).
Proof. intros st H. exact H. Qed.

Lemma hoare_bind {A B} (P : State -> Prop) (R : A -> State -> Prop)
  (Q : B -> State -> Prop) (m : M A) (k : A -> M B) :
  hoare P m R -> (forall a, hoare (R a) (k a) Q) -> hoare P (bind m k) Q.
Proof.
  intros Hm Hk st H. unfold bind. specialize (Hm st H).
  destruct (m st) as [a st']. exact (Hk a st' Hm).
Qed.

Lemma serving_tidy (k : Z) (q : BackendKind) (st : State) : serving k q st -> tidy st.
Proof. intros H. exact (proj1 H). Qed.

Lemma ret_done {A} (k : Z) (q : BackendKind) (a : A) :
  hoare (serving k q) (ret a) (fun _ => tidy).
Proof. intros st H. exact (proj1 H). Qed.

Lemma emit_tidy (e : Event) : hoare tidy (emit e) (fun _ => tidy).
Proof. intros st H. exact H. Qed.

Lemma emit_serving (k : Z) (q : BackendKind) (e : Event) :
  hoare (serving k q) (emit e) (fun _ => serving k q).
Proof. intros st H. exact H. Qed.

Lemma emit_done (k : Z) (q : BackendKind) (e : Event) :
  hoare (serving k q) (emit e) (fun _ => tidy).
Proof. intros st H. exact (proj1 H). Qed.

Lemma tidy_evicted (st : State) (k : Z) (e : SessionEntry) (tr : list Event) :
  tidy st -> sessions_get k (sessions st) = Some e ->
  tidy (mkState (sessions_delete k (sessions st)) (delete k (pageCache st))
                (detectionPromise st) (delete (timer e) (timers st))
                (nextTimer st) tr).
Proof.
  intros (Hnd & [Hst Hts] & Hfr & Hc & Hf) Hk.
  assert (Hother : forall c e', c <> k -> sessions_get c (sessions st) = Some e' ->
                                timer e' <> timer e).
  { intros c e' Hne He' Heq. apply Hst in He'. apply Hst in Hk.
    rewrite Heq in He'. congruence. }
  split; [| split; [split |]; [| | split; [| split]]];
    unfold cacheWithinPool, oneFamily;
    cbn [sessions pageCache detectionPromise timers nextTimer].
  - apply sessions_delete_NoDup. exact Hnd.
  - intros c e' He'. destruct (Z.eq_dec c k) as [-> | Hne].
    + rewrite sessions_get_delete_eq in He'. discriminate.
    + rewrite sessions_get_delete_ne in He' by exact Hne.
      rewrite lookup_delete_ne by (intros Heq; exact (Hother c e' Hne He' (eq_sym Heq))).
      apply Hst. exact He'.
  - intros t c Ht. apply lookup_delete_Some in Ht as [Hne Ht].
    destruct (Hts t c Ht) as (e0 & He0 & <-). exists e0. split; [| reflexivity].
    destruct (Z.eq_dec c k) as [-> | Hck]; [congruence |].
    rewrite sessions_get_delete_ne by exact Hck. exact He0.
  - intros t c Ht. apply lookup_delete_Some in Ht as [_ Ht]. eauto.
  - intros c Hin. destruct (Z.eq_dec c k) as [-> | Hne].
    + rewrite lookup_delete_eq in Hin. destruct Hin as [? ?]. discriminate.
    + rewrite lookup_delete_ne in Hin by congruence.
      rewrite sessions_get_delete_ne by exact Hne. apply Hc. exact Hin.
  - intros c e' He'. destruct (Z.eq_dec c k) as [-> | Hne].
    + rewrite sessions_get_delete_eq in He'. discriminate.
    + rewrite sessions_get_delete_ne in He' by exact Hne. eauto.
Qed.

Lemma evictSession_tidy (env : Env) (k : Z) :
  hoare tidy (evictSession env k) (fun _ => tidy).
Proof.
  intros st H. rewrite evictSession_eq.
  destruct (sessions_get k (sessions st)) as [e |] eqn:Hk; [| exact H].
  apply tidy_evicted; assumption.
Qed.

Lemma roomMade_tidy (env : Env) (st : State) : tidy st -> tidy (roomMade env st).
Proof.
  intros H. unfold roomMade. destruct (_ <=? _)%nat; [| exact H].
  destruct (sortByLastUsed (sessions st)); [exact H |].
  exact (evictSession_tidy env _ st H).
Qed.

Lemma kindOf_create (q : BackendKind) : kindOf (create q) = q.
Proof. destruct q; reflexivity. Qed.

Lemma tidy_entered (st : State) (k : Z) (b : Backend) (t : Z) (tr : list Event)
  (tm : gmap nat Z) :
  tidy (mkState (sessions st) (pageCache st) (detectionPromise st) tm
                (nextTimer st) (trace st)) ->
  sessions_get k (sessions st) = None ->
  (forall c e, sessions_get c (sessions st) = Some e -> kindOf (backend e) = kindOf b) ->
  tidy (mkState (sessions_set k (mkEntry b t (nextTimer st)) (sessions st))
                (pageCache st) (Some (kindOf b))
                (<[nextTimer st := k]> tm) (S (nextTimer st)) tr).
Proof.
  intros (Hnd & [Hst Hts] & Hfr & Hc & Hf) Hk Hkind.
  unfold cacheWithinPool, oneFamily in Hc, Hf.
  cbn [sessions pageCache detectionPromise timers nextTimer] in *.
  split; [| split; [split |]; [| | split; [| split]]];
    unfold cacheWithinPool, oneFamily;
    cbn [sessions pageCache detectionPromise timers nextTimer].
  - apply sessions_set_NoDup. exact Hnd.
  - intros c e' He'. destruct (Z.eq_dec c k) as [-> | Hne].
    + rewrite sessions_get_set_eq in He'. injection He' as <-. cbn [timer].
      apply lookup_insert_eq.
    + rewrite sessions_get_set_ne in He' by exact Hne.
      pose proof (Hst c e' He') as Ht. pose proof (Hfr _ _ Ht).
      rewrite lookup_insert_ne by lia. exact Ht.
  - intros t0 c Ht. destruct (Nat.eq_dec (nextTimer st) t0) as [<- | Hne].
    + rewrite lookup_insert_eq in Ht. injection Ht as <-.
      exists (mkEntry b t (nextTimer st)). split; [apply sessions_get_set_eq | reflexivity].
    + rewrite lookup_insert_ne in Ht by exact Hne.
      destruct (Hts t0 c Ht) as (e0 & He0 & <-). exists e0. split; [| reflexivity].
      rewrite sessions_get_set_ne by congruence. exact He0.
  - intros t0 c Ht. destruct (Nat.eq_dec (nextTimer st) t0) as [<- | Hne]; [lia |].
    rewrite lookup_insert_ne in Ht by exact Hne. pose proof (Hfr _ _ Ht). lia.
  - intros c Hin. apply Hc in Hin. destruct (Z.eq_dec c k) as [-> | Hne].
    + rewrite Hk in Hin. destruct Hin as [? ?]. discriminate.
    + rewrite sessions_get_set_ne by exact Hne. exact Hin.
  - intros c e' He'. destruct (Z.eq_dec c k) as [-> | Hne].
    + rewrite sessions_get_set_eq in He'. injection He' as <-. reflexivity.
    + rewrite sessions_get_set_ne in He' by exact Hne.
      rewrite (Hkind c e' He'). reflexivity.
Qed.

Lemma tidy_renewed (st : State) (k : Z) (e : SessionEntry) (t : Z) (tr : list Event) :
  tidy st -> sessions_get k (sessions st) = Some e ->
  tidy (mkState (sessions_set k (mkEntry (backend e) t (nextTimer st)) (sessions st))
                (pageCache st) (detectionPromise st)
                (<[nextTimer st := k]> (delete (timer e) (timers st)))
                (S (nextTimer st)) tr).
Proof.
  intros (Hnd & [Hst Hts] & Hfr & Hc & Hf) Hk.
  assert (Hother : forall c e', c <> k -> sessions_get c (sessions st) = Some e' ->
                                timer e' <> timer e).
  { intros c e' Hne He' Heq. apply Hst in He'. apply Hst in Hk.
    rewrite Heq in He'. congruence. }
  split; [| split; [split |]; [| | split; [| split]]];
    unfold cacheWithinPool, oneFamily;
    cbn [sessions pageCache detectionPromise timers nextTimer].
  - apply sessions_set_NoDup. exact Hnd.
  - intros c e' He'. destruct (Z.eq_dec c k) as [-> | Hne].
    + rewrite sessions_get_set_eq in He'. injection He' as <-. cbn [timer].
      apply lookup_insert_eq.
    + rewrite sessions_get_set_ne in He' by exact Hne.
      pose proof (Hst c e' He') as Ht. pose proof (Hfr _ _ Ht).
      rewrite lookup_insert_ne by lia.
      rewrite lookup_delete_ne
        by (intros Heq; exact (Hother c e' Hne He' (eq_sym Heq))).
      exact Ht.
  - intros t0 c Ht. destruct (Nat.eq_dec (nextTimer st) t0) as [<- | Hne].
    + rewrite lookup_insert_eq in Ht. injection Ht as <-.
      exists (mkEntry (backend e) t (nextTimer st)).
      split; [apply sessions_get_set_eq | reflexivity].
    + rewrite lookup_insert_ne in Ht by exact Hne.
      apply lookup_delete_Some in Ht as [Hte Ht].
      destruct (Hts t0 c Ht) as (e0 & He0 & <-). exists e0. split; [| reflexivity].
      rewrite sessions_get_set_ne by congruence. exact He0.
  - intros t0 c Ht. destruct (Nat.eq_dec (nextTimer st) t0) as [<- | Hne]; [lia |].
    rewrite lookup_insert_ne in Ht by exact Hne.
    apply lookup_delete_Some in Ht as [_ Ht]. pose proof (Hfr _ _ Ht). lia.
  - intros c Hin. apply Hc in Hin. destruct (Z.eq_dec c k) as [-> | Hne].
    + rewrite sessions_get_set_eq. eauto.
    + rewrite sessions_get_set_ne by exact Hne. exact Hin.
  - intros c e' He'. destruct (Z.eq_dec c k) as [-> | Hne].
    + rewrite sessions_get_set_eq in He'. injection He' as <-. cbn [backend]. eauto.
    + rewrite sessions_get_set_ne in He' by exact Hne. eauto.
Qed.

Lemma getSession_serving (env : Env) (k : Z) :
  hoare tidy (getSession env k) (fun b => serving k (kindOf b)).
Proof.
  intros st H. rewrite getSession_eq.
  destruct (sessions_get k (sessions st)) as [e |] eqn:Hk; cbn [fst snd].
  - split; [apply tidy_renewed; assumption |].
    cbn [sessions detectionPromise]. split; [rewrite sessions_get_set_eq; eauto |].
    destruct H as (_ & _ & _ & _ & Hf). eauto.
  - cbv zeta. cbn [fst snd].
    destruct (roomMade_same env st) as [Hd Hn].
    pose proof (roomMade_tidy env st H) as H1.
    pose proof (roomMade_absent env k st Hk) as Hk1.
    assert (Hkind : forall c e, sessions_get c (sessions (roomMade env st)) = Some e ->
                                kindOf (backend e) = kindOf (create (selected env st))).
    { intros c e He. destruct H1 as (_ & _ & _ & _ & Hf).
      apply Hf in He. rewrite Hd in He. rewrite kindOf_create.
      unfold selected. rewrite He. reflexivity. }
    rewrite <- Hn.
    pose proof (tidy_entered (roomMade env st) k (create (selected env st)) (now env)
                  (trace (roomMade env st)
                     ++ match detectionPromise st with
                        | None => [Probed]
                        | Some _ => []
                        end
                     ++ [Created k (selected env st);
                         TimerSet (nextTimer (roomMade env st)) k])
                  (timers (roomMade env st))) as Ht.
    rewrite kindOf_create in Ht.
    split; [apply Ht; [destruct (roomMade env st); exact H1 | exact Hk1 |] |].
    + intros c e He. rewrite (Hkind c e He), kindOf_create. reflexivity.
    + cbn [sessions detectionPromise]. rewrite sessions_get_set_eq, kindOf_create.
      split; eauto.
Qed.

Lemma storeBackend_serving (k : Z) (b : Backend) :
  hoare (serving k (kindOf b)) (storeBackend k b) (fun _ => serving k (kindOf b)).
Proof.
  intros st H. unfold storeBackend, bind, get. cbn [fst snd].
  destruct (sessions_get k (sessions st)) as [e |] eqn:Hk; [| exact H].
  destruct H as ((Hnd & [Hst Hts] & Hfr & Hc & Hf) & _ & Hq).
  unfold putSessions. cbn [fst snd].
  split; [| cbn [sessions detectionPromise]; rewrite sessions_get_set_eq; eauto].
  split; [| split; [split |]; [| | split; [| split]]];
    unfold cacheWithinPool, oneFamily;
    cbn [sessions pageCache detectionPromise timers nextTimer].
  - apply sessions_set_NoDup. exact Hnd.
  - intros c e' He'. destruct (Z.eq_dec c k) as [-> | Hne].
    + rewrite sessions_get_set_eq in He'. injection He' as <-. cbn [timer]. eauto.
    + rewrite sessions_get_set_ne in He' by exact Hne. eauto.
  - intros t c Ht. destruct (Hts t c Ht) as (e0 & He0 & <-).
    destruct (Z.eq_dec c k) as [-> | Hne].
    + rewrite sessions_get_set_eq. eexists. split; [reflexivity |].
      cbn [timer]. congruence.
    + rewrite sessions_get_set_ne by exact Hne. eauto.
  - exact Hfr.
  - intros c Hin. apply Hc in Hin. destruct (Z.eq_dec c k) as [-> | Hne].
    + rewrite sessions_get_set_eq. eauto.
    + rewrite sessions_get_set_ne by exact Hne. exact Hin.
  - intros c e' He'. destruct (Z.eq_dec c k) as [-> | Hne].
    + rewrite sessions_get_set_eq in He'. injection He' as <-. exact Hq.
    + rewrite sessions_get_set_ne in He' by exact Hne. eauto.
Qed.

Lemma cacheSet_serving (k : Z) (q : BackendKind) (info : PageInfo) :
  hoare (serving k q) (cacheSet k info) (fun _ => serving k q).
Proof.
  intros st ((Hnd & Htm & Hfr & Hc & Hf) & Hk & Hq).
  unfold cacheSet, bind, get, putPageCache. cbn [fst snd].
  split; [| split; assumption].
  split; [exact Hnd | split; [exact Htm | split; [exact Hfr | split; [| exact Hf]]]].
  intros c Hin. cbn [pageCache sessions] in *.
  destruct (Z.eq_dec c k) as [-> | Hne]; [exact Hk |].
  rewrite lookup_insert_ne in Hin by congruence. apply Hc. exact Hin.
Qed.

Lemma navigate_kind (b : Backend) (u : string) (w : World) :
  kindOf (fst (BrowserBackend.navigate b u w)) = kindOf b.
Proof. destruct b; reflexivity. Qed.

Lemma click_kind (b : Backend) (r : string) (w : World) :
  kindOf (fst (BrowserBackend.click b r w)) = kindOf b.
Proof. destruct b; reflexivity. Qed.

Lemma type_kind (b : Backend) (r t : string) (w : World) :
  kindOf (fst (BrowserBackend.type b r t w)) = kindOf b.
Proof. destruct b; reflexivity. Qed.

Lemma back_kind (b : Backend) (w : World) :
  kindOf (fst (BrowserBackend.back b w)) = kindOf b.
Proof. destruct b; reflexivity. Qed.

Lemma screenshot_kind (b : Backend) (w : World) :
  kindOf (fst (BrowserBackend.screenshot b w)) = kindOf b.
Proof. destruct b; reflexivity. Qed.

Ltac call_backend c :=
  let H := fresh "Hkind" in
  lazymatch c with
  | BrowserBackend.navigate ?b ?u ?w => pose proof (navigate_kind b u w) as H
  | BrowserBackend.click ?b ?r ?w => pose proof (click_kind b r w) as H
  | BrowserBackend.type ?b ?r ?t ?w => pose proof (type_kind b r t w) as H
  | BrowserBackend.back ?b ?w => pose proof (back_kind b w) as H
  | BrowserBackend.screenshot ?b ?w => pose proof (screenshot_kind b w) as H
  end;
  destruct c as [? ?]; cbn [fst] in H; rewrite <- H; clear H.

Ltac book_step :=
  first
    [ apply hoare_ret
    | apply ret_done
    | apply hoare_get
    | apply emit_tidy
    | apply emit_serving
    | apply emit_done
    | apply getSession_serving
    | apply cacheSet_serving
    | apply storeBackend_serving
    | eapply hoare_bind; [| intros ?]
    | match goal with
      | |- hoare _ (let _ := _ in _) _ => cbv zeta
      | |- hoare _ (match ?c with _ => _ end) _ =>
          first [call_backend c | destruct c]
      | |- hoare _ (if ?b then _ else _) _ => destruct b
      end ].

Ltac book := unfold say, showOrFail; repeat book_step.

Lemma handleClick_tidy (env : Env) (k : Z) (r : string) :
  hoare tidy (handleClick env k r) (fun _ => tidy).
Proof. unfold handleClick. book. Qed.

Lemma handleType_tidy (env : Env) (k : Z) (a : string) :
  hoare tidy (handleType env k a) (fun _ => tidy).
Proof. unfold handleType. book. Qed.

Lemma handleBack_tidy (env : Env) (k : Z) :
  hoare tidy (handleBack env k) (fun _ => tidy).
Proof. unfold handleBack. book. Qed.

Lemma handleScreenshot_tidy (env : Env) (k : Z) :
  hoare tidy (handleScreenshot env k) (fun _ => tidy).
Proof. unfold handleScreenshot. book. Qed.

Lemma browseCommand_tidy (env : Env) (ctx : Ctx) :
  hoare tidy (browseCommand env ctx) (fun _ => tidy).
Proof.
  unfold browseCommand.
  destruct (chat_id ctx) as [k |]; [| apply hoare_ret].
  destruct (k =? 0); [apply hoare_ret |]. cbv zeta.
  destruct (String.eqb _ _); [apply emit_tidy |].
  destruct (JS.startsWith _ _); [apply handleClick_tidy |].
  destruct (JS.startsWith _ _); [apply handleType_tidy |].
  destruct (String.eqb _ _); [apply handleBack_tidy |].
  destruct (String.eqb _ _); [apply handleScreenshot_tidy |].
  book.
Qed.

Lemma handleCallback_tidy (env : Env) (ctx : Ctx) (data : string) :
  hoare tidy (handleCallback env ctx data) (fun _ => tidy).
Proof.
  unfold handleCallback.
  destruct (negb _); [apply hoare_ret |].
  destruct (chat_id ctx) as [k |]; [| apply hoare_ret].
  destruct (k =? 0); [apply hoare_ret |]. cbv zeta.
  book.
Qed.

Lemma timerFires_tidy (env : Env) (t : nat) :
  hoare tidy (timerFires env t) (fun _ => tidy).
Proof.
  intros st H. rewrite timerFires_eq.
  destruct (timers st !! t) as [k |] eqn:Ht; [| exact H].
  rewrite evictSession_eq. cbn [expire snd sessions pageCache detectionPromise
                                 timers nextTimer trace].
  pose proof H as (_ & [_ Hts] & _).
  destruct (Hts t k Ht) as (e & He & <-). rewrite He.
  rewrite delete_delete_eq. apply tidy_evicted; assumption.
Qed.

Lemma forEach_emit {A} (f : A -> Event) (l : list A) (st : State) :
  snd (forEach (fun p => emit (f p)) l st)
  = mkState (sessions st) (pageCache st) (detectionPromise st) (timers st)
            (nextTimer st) (trace st ++ List.map f l).
Proof.
  revert st. induction l as [| a l IH]; intros st.
  - destruct st. simpl. rewrite app_nil_r. reflexivity.
  - cbn [forEach]. unfold bind at 1. cbn [emit]. rewrite IH.
    cbn [sessions pageCache detectionPromise timers nextTimer trace List.map].
    rewrite <- app_assoc. reflexivity.
Qed.

Lemma forEach_clearTimeout {A} (g : A -> nat) (l : list A) (st : State) :
  snd (forEach (fun p => clearTimeout (g p)) l st)
  = mkState (sessions st) (pageCache st) (detectionPromise st)
            (foldl (fun m p => delete (g p) m) (timers st) l)
            (nextTimer st) (trace st ++ List.map (fun p => TimerCleared (g p)) l).
Proof.
  revert st. induction l as [| a l IH]; intros st.
  - destruct st. simpl. rewrite app_nil_r. reflexivity.
  - cbn [forEach]. unfold bind at 1. cbn [clearTimeout]. rewrite IH.
    cbn [sessions pageCache detectionPromise timers nextTimer trace List.map foldl].
    rewrite <- app_assoc. reflexivity.
Qed.

Lemma pluginCleanup_eq (st : State) :
  snd (pluginCleanup st)
  = mkState [] ∅ None
            (foldl (fun m p => delete (timer (snd p)) m) (timers st) (sessions st))
            (nextTimer st)
            (trace st ++ List.map (fun p => CleanedUp (fst p)) (sessions st)
                      ++ List.map (fun p => TimerCleared (timer (snd p))) (sessions st)).
Proof.
  unfold pluginCleanup, bind, get.
  pose proof (forEach_emit (fun p : Z * SessionEntry => CleanedUp (fst p))
                (sessions st) st) as H1.
  destruct (forEach _ (sessions st) st) as [u s1]. cbn [snd] in H1. subst s1.
  pose proof (forEach_clearTimeout (fun p : Z * SessionEntry => timer (snd p))
                (sessions st)
                (mkState (sessions st) (pageCache st) (detectionPromise st) (timers st)
                   (nextTimer st)
                   (trace st ++ List.map (fun p => CleanedUp (fst p)) (sessions st))))
    as H2.
  destruct (forEach _ (sessions st) _) as [u' s2]. cbn [snd] in H2. subst s2.
  cbn. rewrite <- app_assoc. reflexivity.
Qed.

Lemma foldl_delete_lookup {A} (g : A -> nat) (l : list A) (m : gmap nat Z)
  (t : nat) (c : Z) :
  foldl (fun m p => delete (g p) m) m l !! t = Some c ->
  m !! t = Some c /\ ~ In t (List.map g l).
Proof.
  revert m. induction l as [| a l IH]; intros m; cbn [foldl List.map].
  - intros H. split; [exact H | intros []].
  - intros H. apply IH in H as [H Hn].
    apply lookup_delete_Some in H as [Hne H].
    split; [exact H |]. intros [Heq | Hin]; [congruence | exact (Hn Hin)].
Qed.

(** After the teardown of a pool whose books are in order, no timer is
    pending. *)
Lemma pluginCleanup_timers (st : State) :
  tidy st -> timers (snd (pluginCleanup st)) = ∅.
Proof.
  intros (_ & [_ Hts] & _). rewrite pluginCleanup_eq. cbn [timers].
  apply map_empty. intros t.
  destruct (foldl _ _ _ !! t) as [c |] eqn:E; [| reflexivity].
  apply (foldl_delete_lookup (fun p : Z * SessionEntry => timer (snd p))) in E
    as [Ht Hn].
  destruct (Hts t c Ht) as (e & He & <-).
  exfalso. apply Hn. apply in_map_iff. exists (c, e). split; [reflexivity |].
  apply list_elem_of_In. apply sessions_get_Some_elem_of. exact He.
Qed.

Lemma pluginCleanup_tidy : hoare tidy pluginCleanup (fun _ => tidy).
Proof.
  intros st H. pose proof (pluginCleanup_timers st H) as Ht.
  rewrite pluginCleanup_eq in *. cbn [timers] in Ht.
  split; [| split; [split |]; [| | split; [| split]]];
    unfold cacheWithinPool, oneFamily;
    cbn [sessions pageCache detectionPromise timers nextTimer]; rewrite ?Ht.
  - apply NoDup_nil_2.
  - intros c e He. discriminate.
  - intros t c Hl. rewrite lookup_empty in Hl. discriminate.
  - intros t c Hl. rewrite lookup_empty in Hl. discriminate.
  - intros c Hin. rewrite lookup_empty in Hin. destruct Hin as [? ?]. discriminate.
  - intros c e He. discriminate.
Qed.

Lemma initial_tidy : tidy initial.
Proof.
  split; [| split; [split |]; [| | split; [| split]]];
    unfold cacheWithinPool, oneFamily;
    cbn [initial sessions pageCache detectionPromise timers nextTimer].
  - apply NoDup_nil_2.
  - intros c e He. discriminate.
  - intros t c Hl. rewrite lookup_empty in Hl. discriminate.
  - intros t c Hl. rewrite lookup_empty in Hl. discriminate.
  - intros c Hin. rewrite lookup_empty in Hin. destruct Hin as [? ?]. discriminate.
  - intros c e He. discriminate.
Qed.

(** The books are in order in every state the plugin reaches. *)
Lemma run_tidy (inputs : list (Env * Input)) (st : State) :
  tidy st -> tidy (run inputs st).
Proof.
  revert st. induction inputs as [| [env i] inputs IH]; intros st H; [exact H |].
  cbn [run]. apply IH. destruct i as [ctx | ctx data | t |]; cbn [step].
  - exact (browseCommand_tidy env ctx st H).
  - unfold bind. pose proof (handleCallback_tidy env ctx data st H) as Hc.
    destruct (handleCallback env ctx data st). exact Hc.
  - exact (timerFires_tidy env t st H).
  - exact (pluginCleanup_tidy st H).
Qed.

Lemma size_list_to_set_le (l : list nat) :
  (size (list_to_set l : gset nat) <= length l)%nat.
Proof.
  induction l as [| x l IH]; [rewrite list_to_set_nil, size_empty; simpl; lia |].
  rewrite list_to_set_cons, size_union_alt, size_singleton.
  pose proof (subseteq_size (list_to_set l ∖ {[x]}) (list_to_set l : gset nat)) as Hs.
  cbn [length].
  assert (Hsub : list_to_set l ∖ {[x]} ⊆ (list_to_set l : gset nat))
    by (intros y Hy; apply elem_of_difference in Hy as [Hy _]; exact Hy).
  specialize (Hs Hsub). lia.
Qed.

(** X15: in every state the plugin reaches with each handler run to
    completion, each session has its idle timer pending and set to evict that session's chat, and no other timer
    is pending: a timer that is replaced, or whose session is removed, is
    cleared. So at most [MAX_SESSIONS] timers are pending. *)
Theorem timers_match_sessions (inputs : list (Env * Input)) :
  timersMatch (run inputs initial)
  /\ (size (timers (run inputs initial)) <= MAX_SESSIONS)%nat.
Proof.
  pose proof (run_tidy inputs initial initial_tidy) as (_ & Htm & _).
  split; [exact Htm |].
  destruct (run_withinCapacity inputs) as [Hlen _].
  destruct Htm as [_ Hts].
  set (st := run inputs initial) in *.
  rewrite <- size_dom.
  assert (Hsub : dom (timers st)
                 ⊆ (list_to_set (List.map (fun p => timer (snd p)) (sessions st))
                    : gset nat)).
  { intros t Ht. apply elem_of_dom in Ht as [c Ht].
    destruct (Hts t c Ht) as (e & He & <-).
    apply elem_of_list_to_set, list_elem_of_In, in_map_iff.
    exists (c, e). split; [reflexivity |].
    apply list_elem_of_In, sessions_get_Some_elem_of. exact He. }
  apply subseteq_size in Hsub.
  pose proof (size_list_to_set_le
                (List.map (fun p => timer (snd p)) (sessions st))) as Hle.
  rewrite length_map in Hle. lia.
Qed.

Lemma timers_match_sessions_witness :
  sessions_get 1 (sessions (run fiveChats initial)) = Some firstEntry
  /\ timers (run fiveChats initial) !! timer firstEntry = Some 1.
Proof.
  assert (H : sessions_get 1 (sessions (run fiveChats initial)) = Some firstEntry)
    by reflexivity.
  split; [exact H |].
  exact (proj1 (proj1 (timers_match_sessions fiveChats)) 1 firstEntry H).
Defined.

(** X16: when every handler, timer callback and teardown runs to
    completion before the next starts, in every state the plugin reaches a
    page is cached only for a chat that has a session, so the cache holds at
    most [MAX_SESSIONS] pages: whatever removes a session removes its page.
    Handlers that overlap at an [await] are not covered. *)
Theorem cache_within_pool (inputs : list (Env * Input)) :
  cacheWithinPool (run inputs initial)
  /\ (size (pageCache (run inputs initial)) <= MAX_SESSIONS)%nat.
Proof.
  pose proof (run_tidy inputs initial initial_tidy) as (Hnd & _ & _ & Hc & _).
  split; [exact Hc |].
  destruct (run_withinCapacity inputs) as [Hlen _].
  set (st := run inputs initial) in *.
  rewrite <- size_dom.
  assert (Hsub : dom (pageCache st) ⊆ (list_to_set (sessions st).*1 : gset Z)).
  { intros c Hin. apply elem_of_dom in Hin. apply Hc in Hin as [e He].
    apply elem_of_list_to_set, list_elem_of_fmap. exists (c, e).
    split; [reflexivity | apply sessions_get_Some_elem_of; exact He]. }
  apply subseteq_size in Hsub.
  rewrite size_list_to_set in Hsub by exact Hnd.
  rewrite length_fmap in Hsub. lia.
Qed.

Lemma cache_within_pool_witness :
  is_Some (pageCache (run fiveChats initial) !! 1)
  /\ is_Some (sessions_get 1 (sessions (run fiveChats initial))).
Proof.
  assert (H : is_Some (pageCache (run fiveChats initial) !! 1))
    by (vm_compute; eexists; reflexivity).
  split; [exact H |].
  exact (proj1 (cache_within_pool fiveChats) 1 H).
Defined.

(** X17: when every handler, timer callback and teardown runs to
    completion before the next starts, in every state the plugin reaches,
    after teardowns too, every session holds a backend of the family the
    stored promise resolves to: the calls on a backend keep its family, and
    the promise is cleared only together with the pool. Handlers that
    overlap at an [await] are not covered. *)
Theorem pool_is_one_family (inputs : list (Env * Input)) :
  oneFamily (run inputs initial).
Proof.
  pose proof (run_tidy inputs initial initial_tidy) as (_ & _ & _ & _ & Hf).
  exact Hf.
Qed.

Lemma pool_is_one_family_witness :
  sessions_get 1 (sessions (run fiveChats initial)) = Some firstEntry
  /\ detectionPromise (run fiveChats initial) = Some (kindOf (backend firstEntry)).
Proof.
  assert (H : sessions_get 1 (sessions (run fiveChats initial)) = Some firstEntry)
    by reflexivity.
  split; [exact H |].
  exact (pool_is_one_family fiveChats 1 firstEntry H).
Defined.



(** ** What a navigation request leaves behind *)

Lemma roomMade_cache (env : Env) (k : Z) (st : State) :
  sessions_get k (sessions st) = None ->
  pageCache (roomMade env st) !! k = pageCache st !! k.
Proof.
  intros Hk. unfold roomMade. destruct (_ <=? _)%nat; [| reflexivity].
  destruct (sortByLastUsed (sessions st)) as [| o r]; [reflexivity |].
  rewrite evictSession_eq.
  destruct (sessions_get (fst o) (sessions st)) eqn:Ho; [| reflexivity].
  cbn [pageCache]. apply lookup_delete_ne. congruence.
Qed.

(** [getSession] leaves the chat with an entry that holds the backend it
    returns and the time of the call, and leaves the chat's cached page
    alone. *)
Lemma getSession_entry (env : Env) (k : Z) (st : State) :
  exists t,
    sessions_get k (sessions (snd (getSession env k st)))
    = Some (mkEntry (fst (getSession env k st)) (now env) t)
    /\ pageCache (snd (getSession env k st)) !! k = pageCache st !! k.
Proof.
  rewrite getSession_eq.
  destruct (sessions_get k (sessions st)) as [e |] eqn:Hk; cbv zeta;
    cbn [fst snd sessions pageCache]; eexists;
    (split; [apply sessions_get_set_eq |]).
  - reflexivity.
  - apply roomMade_cache. exact Hk.
Qed.

Lemma browseCommand_navigation
  (env : Env) (ctx : Ctx) (st : State) (chat : Z) (u : string) :
  navigationRequest ctx = Some (chat, u) ->
  isUrlSafe u = true ->
  let b := fst (getSession env chat (snd (say chat Busy st))) in
  let st' := snd (browseCommand env ctx st) in
  (exists entry,
     sessions_get chat (sessions st') = Some entry
     /\ lastUsed entry = now env
     /\ backend entry = fst (BrowserBackend.navigate b u (world env)))
  /\ match snd (BrowserBackend.navigate b u (world env)) with
     | inr info =>
         pageCache st' !! chat = Some info
         /\ exists tr, trace st' = tr ++ [Said chat (Shows info)]
     | inl e =>
         pageCache st' !! chat = pageCache st !! chat
         /\ exists tr, trace st' = tr ++ [Said chat (Failed e)]
     end.
Proof.
  unfold navigationRequest, browseCommand.
  destruct (chat_id ctx) as [k |]; [| discriminate].
  destruct (k =? 0); [discriminate |]. cbv zeta.
  destruct (String.eqb (commandArgs ctx) ""); [discriminate |].
  destruct (JS.startsWith (commandArgs ctx) "click "); [discriminate |].
  destruct (JS.startsWith (commandArgs ctx) "type "); [discriminate |].
  destruct (String.eqb (commandArgs ctx) "back"); [discriminate |].
  destruct (String.eqb (commandArgs ctx) "screenshot"); [discriminate |].
  simpl orb. cbv iota. intros [= -> <-] Hu. rewrite Hu.
  change (negb true) with false. cbv iota zeta.
  match goal with
  | |- context [snd (?m st)] => remember (snd (m st)) as st' eqn:Hst'
  end.
  unfold say, bind in Hst'. unfold say. cbn [emit snd] in *.
  set (st0 := mkState (sessions st) (pageCache st) (detectionPromise st)
                      (timers st) (nextTimer st) (trace st ++ [Said chat Busy])) in *.
  destruct (getSession_entry env chat st0) as (t & He & Hc).
  destruct (getSession env chat st0) as [b s1]. cbn [fst snd emit] in *.
  destruct (BrowserBackend.navigate b (navigationTarget (commandArgs ctx)) (world env))
    as [b' r]. cbn [fst snd].
  unfold storeBackend, bind, get in Hst'. cbn [fst snd sessions] in Hst'.
  rewrite He in Hst'. unfold putSessions in Hst'. cbn [lastUsed timer] in Hst'.
  destruct r as [e | info]; unfold showOrFail, cacheSet, say, bind, get, emit,
    putPageCache in Hst'; cbn [fst snd sessions pageCache trace] in Hst'; subst st';
    cbn [sessions pageCache trace].
  - split; [eexists; split; [apply sessions_get_set_eq | split; reflexivity] |].
    split; [exact Hc | eexists; reflexivity].
  - split; [eexists; split; [apply sessions_get_set_eq | split; reflexivity] |].
    split; [apply lookup_insert_eq | eexists; reflexivity].
Qed.



Lemma navigationRequest_chat (ctx : Ctx) (chat : Z) (u : string) :
  navigationRequest ctx = Some (chat, u) -> chat <> 0.
Proof.
  unfold navigationRequest. destruct (chat_id ctx) as [k |]; [| discriminate].
  destruct (Z.eqb_spec k 0); [discriminate |].
  cbv zeta. destruct (_ || _); [discriminate |]. intros [= <- _]. assumption.
Qed.

Lemma handleCallback_page
  (env : Env) (chat : Z) (msg : option string) (st : State) (info : PageInfo) :
  chat <> 0 -> pageCache st !! chat = Some info ->
  handleCallback env (mkCtx (Some chat) msg) "browse:page" st
  = (true, mkState (sessions st) (pageCache st) (detectionPromise st) (timers st)
                   (nextTimer st)
                   (trace st ++ [Said chat (Shows info); Said chat Busy])).
Proof.
  intros Hc Hi. unfold handleCallback.
  change (JS.startsWith "browse:page" "browse:") with true.
  cbn [negb chat_id].
  replace (chat =? 0) with false by (symmetry; apply Z.eqb_neq; exact Hc).
  change (JS.sliceFrom "browse:page" 7) with "page"%string. cbv zeta.
  change (String.eqb "page" "links") with false.
  change (String.eqb "page" "screenshot") with false.
  change (String.eqb "page" "refresh") with false.
  change (String.eqb "page" "back") with false.
  change (String.eqb "page" "page") with true. cbv iota.
  unfold bind, get, say, emit, ret. rewrite Hi. cbn.
  rewrite <- app_assoc. reflexivity.
Qed.

Lemma handleCallback_links
  (env : Env) (chat : Z) (msg : option string) (st : State) (info : PageInfo) :
  chat <> 0 -> pageCache st !! chat = Some info ->
  handleCallback env (mkCtx (Some chat) msg) "browse:links" st
  = (true, mkState (sessions st) (pageCache st) (detectionPromise st) (timers st)
                   (nextTimer st)
                   (trace st
                      ++ match links info with
                         | [] => [Said chat NoLinks]
                         | _ => [Said chat (ShowsLinks
                                              (firstn MAX_LINKS_DISPLAY (links info)));
                                 Said chat Busy]
                         end)).
Proof.
  intros Hc Hi. unfold handleCallback.
  change (JS.startsWith "browse:links" "browse:") with true.
  cbn [negb chat_id].
  replace (chat =? 0) with false by (symmetry; apply Z.eqb_neq; exact Hc).
  change (JS.sliceFrom "browse:links" 7) with "links"%string. cbv zeta.
  change (String.eqb "links" "links") with true. cbv iota.
  unfold bind, get, say, emit, ret. rewrite Hi.
  destruct (links info); cbn; rewrite <- ?app_assoc; reflexivity.
Qed.

(** X20: after a navigation request that succeeded, the page button
    shows the very page the [navigate] call returned and the links button
    its first [MAX_LINKS_DISPLAY] links (or the notice that there are none).
    Neither button touches the pool, the timers or the cache: pressing them
    does not renew the idle timer of the session. *)
Theorem buttons_show_the_cached_page
  (env env' : Env) (ctx : Ctx) (msg : option string) (st : State) (chat : Z)
  (u : string) (info : PageInfo) :
  navigationRequest ctx = Some (chat, u) ->
  isUrlSafe u = true ->
  snd (BrowserBackend.navigate (fst (getSession env chat (snd (say chat Busy st))))
         u (world env)) = inr info ->
  let st1 := snd (browseCommand env ctx st) in
  let st2 := snd (handleCallback env' (mkCtx (Some chat) msg) "browse:page" st1) in
  let st3 := snd (handleCallback env' (mkCtx (Some chat) msg) "browse:links" st1) in
  trace st2 = trace st1 ++ [Said chat (Shows info); Said chat Busy]
  /\ trace st3
     = trace st1 ++ match links info with
                    | [] => [Said chat NoLinks]
                    | _ => [Said chat (ShowsLinks
                                         (firstn MAX_LINKS_DISPLAY (links info)));
                            Said chat Busy]
                    end
  /\ (sessions st2 = sessions st1 /\ timers st2 = timers st1
      /\ pageCache st2 = pageCache st1)
  /\ (sessions st3 = sessions st1 /\ timers st3 = timers st1
      /\ pageCache st3 = pageCache st1).
Proof.
  intros Hn Hu Hi st1 st2 st3.
  pose proof (navigationRequest_chat ctx chat u Hn) as Hc.
  destruct (browseCommand_navigation env ctx st chat u Hn Hu) as [_ Hr].
  cbv zeta in Hr. rewrite Hi in Hr. destruct Hr as [Hcache _]. fold st1 in Hcache.
  unfold st2, st3.
  rewrite (handleCallback_page env' chat msg st1 info Hc Hcache).
  rewrite (handleCallback_links env' chat msg st1 info Hc Hcache).
  cbn [snd trace sessions timers pageCache]. auto 10.
Qed.

Lemma buttons_show_the_cached_page_witness :
  navigationRequest (mkCtx (Some 7) (Some "/browse example.com"))
  = Some (7, "https://example.com")
  /\ isUrlSafe "https://example.com" = true
  /\ trace (snd (handleCallback (envAt 2 home) (mkCtx (Some 7) None) "browse:page"
                   (snd (browseCommand (envAt 1 home)
                           (mkCtx (Some 7) (Some "/browse example.com")) initial))))
     = trace (snd (browseCommand (envAt 1 home)
                     (mkCtx (Some 7) (Some "/browse example.com")) initial))
         ++ [Said 7 (Shows (Playwright.extractPageInfo home)); Said 7 Busy].
Proof.
  assert (H1 : navigationRequest (mkCtx (Some 7) (Some "/browse example.com"))
               = Some (7, "https://example.com")) by reflexivity.
  assert (H2 : isUrlSafe "https://example.com" = true) by reflexivity.
  assert (H3 : snd (BrowserBackend.navigate
                      (fst (getSession (envAt 1 home) 7 (snd (say 7 Busy initial))))
                      "https://example.com" (world (envAt 1 home)))
               = inr (Playwright.extractPageInfo home)) by reflexivity.
  split; [exact H1 |]. split; [exact H2 |].
  exact (proj1 (buttons_show_the_cached_page (envAt 1 home) (envAt 2 home)
                  (mkCtx (Some 7) (Some "/browse example.com")) None initial 7
                  "https://example.com" (Playwright.extractPageInfo home) H1 H2 H3)).
Defined.

(** ** Arguments of the type command *)

Lemma indexOfL_first (c : ascii) (r t : JS.chars) :
  ~ In c r -> JS.indexOfL c (r ++ c :: t) = Some (length r).
Proof.
  induction r as [| d r IH]; intros Hn; cbn [app JS.indexOfL length].
  - rewrite Ascii.eqb_refl. reflexivity.
  - replace (Ascii.eqb d c) with false
      by (symmetry; apply Ascii.eqb_neq; intros ->; apply Hn; left; reflexivity).
    rewrite IH by (intros H; apply Hn; right; exact H). reflexivity.
Qed.

(** X21: the type command cuts its arguments at the first space: what
    is before it is the reference, and everything after it, further spaces
    included, is the text handed to [type] as it is. *)
Theorem type_command_cuts_at_first_space
  (env : Env) (chat : Z) (r t : string) (n : Z) (st : State) :
  ~ In " "%char (list_ascii_of_string r) ->
  validateNumericRef r = Some n ->
  exists rest,
    trace (snd (handleType env chat (String.append r (String " " t)) st))
    = trace (snd (getSession env chat (snd (say chat Busy st))))
        ++ Typed chat r t :: rest.
Proof.
  intros Hr Hv. unfold handleType.
  rewrite list_ascii_of_string_append. cbn [list_ascii_of_string].
  rewrite (indexOfL_first " " _ _ Hr). cbv zeta.
  assert (Hs0 : JS.slice0 (String.append r (String " " t))
                  (length (list_ascii_of_string r)) = r).
  { unfold JS.slice0. rewrite list_ascii_of_string_append.
    rewrite firstn_app, firstn_all, Nat.sub_diag. cbn [firstn].
    rewrite app_nil_r. apply string_of_list_ascii_of_string. }
  assert (Hs1 : JS.sliceFrom (String.append r (String " " t))
                  (length (list_ascii_of_string r) + 1) = t).
  { unfold JS.sliceFrom. rewrite list_ascii_of_string_append.
    rewrite skipn_app, skipn_all2 by lia.
    replace (length (list_ascii_of_string r) + 1 - length (list_ascii_of_string r))%nat
      with 1%nat by lia.
    cbn [list_ascii_of_string skipn app]. apply string_of_list_ascii_of_string. }
  rewrite Hs0, Hs1, Hv.
  unfold bind, say, emit. cbn [fst snd].
  destruct (getSession env chat _) as [b s1]. cbn [fst snd trace].
  destruct (BrowserBackend.type b r t (world env)) as [b' [e | info]];
    unfold storeBackend, cacheSet, say, emit, bind, get;
    cbn [fst snd sessions trace];
    destruct (sessions_get chat (sessions s1));
    unfold putSessions, putPageCache, ret; simpl;
    rewrite <- ?app_assoc; eexists; reflexivity.
Qed.

Lemma type_command_cuts_at_first_space_witness :
  ~ In " "%char (list_ascii_of_string "3")
  /\ validateNumericRef "3" = Some 3
  /\ exists rest,
       trace (snd (handleType (envAt 1 home) 7 "3 hello world" initial))
       = trace (snd (getSession (envAt 1 home) 7 (snd (say 7 Busy initial))))
           ++ Typed 7 "3" "hello world" :: rest.
Proof.
  assert (H1 : ~ In " "%char (list_ascii_of_string "3"))
    by (simpl; intros [H | []]; discriminate H).
  assert (H2 : validateNumericRef "3" = Some 3) by reflexivity.
  split; [exact H1 |]. split; [exact H2 |].
  exact (type_command_cuts_at_first_space (envAt 1 home) 7 "3" "hello world" 3
           initial H1 H2).
Defined.

(** ** Who is evicted *)



(** ** Callbacks the plugin declines *)

Lemma answers_ret {A} (a : A) : answers a (ret a).
Proof. intros st. reflexivity. Qed.

Lemma answers_bind {A B} (b : B) (m : M A) (k : A -> M B) :
  (forall x, answers b (k x)) -> answers b (bind m k).
Proof.
  intros Hk st. unfold bind. destruct (m st) as [x st']. apply Hk.
Qed.

Ltac answers_step :=
  first
    [ apply answers_ret
    | apply answers_bind; intros ?
    | match goal with
      | |- answers _ (match ?c with _ => _ end) => destruct c
      end ].

Ltac claimed :=
  let H := fresh in
  intros H; exfalso; revert H;
  match goal with
  | |- fst (?m ?st) = false -> False =>
      let Ha := fresh in
      assert (Ha : answers true m) by (repeat answers_step);
      rewrite (Ha st); discriminate
  end.

(** X23: the callback handler declines every callback whose data is
    outside the namespace of the plugin, and whenever it declines a callback
    it has changed nothing: no session, timer, cached page or message. *)
Theorem declined_callback_changes_nothing
  (env : Env) (ctx : Ctx) (data : string) (st : State) :
  (JS.startsWith data "browse:" = false ->
   fst (handleCallback env ctx data st) = false)
  /\ (fst (handleCallback env ctx data st) = false ->
      snd (handleCallback env ctx data st) = st).
Proof.
  unfold handleCallback.
  destruct (JS.startsWith data "browse:"); cbn [negb];
    [split; [discriminate |] | split; reflexivity].
  destruct (chat_id ctx) as [k |]; [| discriminate].
  destruct (k =? 0); [discriminate |]. cbv zeta.
  destruct (String.eqb _ "links"); [claimed |].
  destruct (String.eqb _ "screenshot"); [claimed |].
  destruct (String.eqb _ "refresh"); [claimed |].
  destruct (String.eqb _ "back"); [claimed |].
  destruct (String.eqb _ "page"); [claimed |].
  destruct (JS.startsWith _ "click:"); [claimed |].
  reflexivity.
Qed.

Lemma declined_callback_changes_nothing_witness :
  JS.startsWith "stats:week" "browse:" = false
  /\ fst (handleCallback (envAt 1 home) (mkCtx (Some 7) None) "stats:week" fullPool)
     = false
  /\ snd (handleCallback (envAt 1 home) (mkCtx (Some 7) None) "stats:week" fullPool)
     = fullPool.
Proof.
  assert (H1 : JS.startsWith "stats:week" "browse:" = false) by reflexivity.
  split; [exact H1 |].
  destruct (declined_callback_changes_nothing (envAt 1 home) (mkCtx (Some 7) None)
              "stats:week" fullPool) as [Ha Hb].
  split; [exact (Ha H1) | exact (Hb (Ha H1))].
Defined.
